(** * aioasuswrt: the router client, its parsers, its transport and its counters

    A shallow embedding of [aioasuswrt/asuswrt.py] and of the secure-shell
    transport of [aioasuswrt/connection.py], and the properties of the
    device table, of the counter cache and of the rate estimator that are
    established on it.

    Conventions of the embedding.
    - A Python [str] is a [string]. Router output is taken to be ASCII text:
      the character classes [\w], [\s] and [\d] are given on the codes below
      128 and reject every other byte.
    - A [dict] is a [gmap]; a [match.groupdict()] is a
      [gmap string (option string)], where a group that took no part in the
      match is present with value [None].
    - A [datetime] is a number of microseconds, a [timedelta] a difference of
      two; a Python [float] is a binary64 [spec_float], and the operations on
      floats are those of the standard library's specification of IEEE 754.
      The cache window [time_cache] is a whole number of seconds.
    - A coroutine that is awaited is run in place; effects are threaded
      through an explicit state, and exceptions are values of [exn]. The
      system clock is part of the state of the client: the readings that
      [datetime.utcnow()] will give.
    - The client is stated over any connection that offers
      [async_run_command]; [SshConnection] is the instance given here. The
      constructor takes the connection it would build. *)

From Stdlib Require Import ZArith NArith Ascii String List Lia Bool.
From Stdlib Require Import Floats.SpecFloat.
From stdpp Require Import base option gmap strings list.

Local Open Scope string_scope.

(** ** Python values and exceptions *)

Module Py.

Inductive exn : Type :=
| IndexError
| KeyError
| TypeError
| ValueError
| AttributeError
| ZeroDivisionError
| OverflowError
| ConnectionFailure      (* whatever [asyncssh.connect] or [run] may raise
                            besides [ChannelOpenError] *).

Inductive result (A : Type) : Type :=
| Ok (a : A)
| Raise (e : exn).
Arguments Ok {A} a.
Arguments Raise {A} e.

Definition rbind {A B} (x : result A) (f : A -> result B) : result B :=
  match x with
  | Ok a => f a
  | Raise e => Raise e
  end.

(** [str.upper()] on ASCII text. *)
Definition is_lower (c : ascii) : bool :=
  ((97 <=? N_of_ascii c) && (N_of_ascii c <=? 122))%N.

Definition upper_char (c : ascii) : ascii :=
  if is_lower c then ascii_of_N (N_of_ascii c - 32) else c.

Fixpoint upper (s : string) : string :=
  match s with
  | EmptyString => EmptyString
  | String c s' => String (upper_char c) (upper s')
  end.

(** [s.startswith(p)] *)
Fixpoint startswith (p s : string) : bool :=
  match p, s with
  | EmptyString, _ => true
  | String a p', String b s' => if Ascii.eqb a b then startswith p' s' else false
  | String _ _, EmptyString => false
  end.

(** [s.split('\n')]: never empty, [''.split('\n') == ['']]. *)
Definition newline : ascii := ascii_of_N 10.

Fixpoint split_nl (s : string) : list string :=
  match s with
  | EmptyString => [EmptyString]
  | String c s' =>
      if Ascii.eqb c newline then EmptyString :: split_nl s'
      else match split_nl s' with
           | l :: ls => String c l :: ls
           | [] => [String c EmptyString]
           end
  end.

(** [l[i]] on a list. *)
Definition getitem {A} (l : list A) (i : nat) : result A :=
  match l !! i with
  | Some a => Ok a
  | None => Raise IndexError
  end.

(** [d[k]] on a dict. *)
Definition dict_getitem {V} (d : gmap string V) (k : string) : result V :=
  match d !! k with
  | Some v => Ok v
  | None => Raise KeyError
  end.

(** [d.get(k, dflt)]: the default is used only when the key is missing. *)
Definition dict_get {V} (d : gmap string V) (k : string) (dflt : V) : V :=
  match d !! k with
  | Some v => v
  | None => dflt
  end.

(** [int(s)] for a string of ASCII digits; the bound that [int] puts on the
    number of digits of its argument is left out. *)
Definition digit_val (c : ascii) : Z := Z.of_N (N_of_ascii c) - 48.

Fixpoint int_acc (acc : Z) (s : string) : Z :=
  match s with
  | EmptyString => acc
  | String c s' => int_acc (10 * acc + digit_val c) s'
  end.

Definition int_of_str (s : string) : Z := int_acc 0 s.

(** *** Floats: IEEE 754 binary64, round to nearest even *)

Definition float := spec_float.
Definition prec : Z := 53.
Definition emax : Z := 1024.

(** The correctly rounded quotient of two integers, the divisor positive;
    this is [int / int] ([long_true_divide]). *)
Definition round_quotient (a : Z) (b : positive) : float :=
  match a with
  | Z0 => S754_zero false
  | Zpos p =>
      let '(q, e, l) := SFdiv_core_binary prec emax (Zpos p) 0 (Zpos b) 0 in
      binary_round_aux prec emax false q e l
  | Zneg p =>
      let '(q, e, l) := SFdiv_core_binary prec emax (Zpos p) 0 (Zpos b) 0 in
      binary_round_aux prec emax true q e l
  end.

(** [timedelta.total_seconds()], the delta given in microseconds:
    [microseconds / 10**6]. *)
Definition total_seconds (us : Z) : float := round_quotient us 1000000.

(** [float(n)] for an integer [n]. *)
Definition float_of_int (n : Z) : result float :=
  match binary_normalize prec emax n 0 false with
  | S754_infinity _ => Raise OverflowError
  | f => Ok f
  end.

Definition is_zero (f : float) : bool :=
  match f with
  | S754_zero _ => true
  | _ => false
  end.

(** [n / f] for an integer [n] and a float [f]. *)
Definition int_div_float (n : Z) (f : float) : result float :=
  rbind (float_of_int n) (fun x =>
    if is_zero f then Raise ZeroDivisionError
    else Ok (SFdiv prec emax x f)).

(** [math.ceil(f)] *)
Definition ceil (f : float) : result Z :=
  match f with
  | S754_zero _ => Ok 0%Z
  | S754_nan => Raise ValueError
  | S754_infinity _ => Raise OverflowError
  | S754_finite sg m e =>
      let n := if sg then Zneg m else Zpos m in
      match e with
      | Zneg k => Ok (- ((- n) / Z.pow 2 (Zpos k)))%Z
      | _ => Ok (n * Z.pow 2 e)%Z
      end
  end.

(** [n > f] for an integer [n] and a float [f]; the comparison is exact. *)
Definition int_gt_float (n : Z) (f : float) : bool :=
  match f with
  | S754_zero _ => (0 <? n)%Z
  | S754_nan => false
  | S754_infinity sg => sg
  | S754_finite sg m e =>
      let v := if sg then Zneg m else Zpos m in
      match e with
      | Zneg k => (v <? n * Z.pow 2 (Zpos k))%Z
      | _ => (v * Z.pow 2 e <? n)%Z
      end
  end.

End Py.

(** ** The backtracking matcher of [re], for the constructs the patterns use *)

Module Re.

Definition cls := ascii -> bool.

Definition between (lo hi : ascii) : cls :=
  fun c => ((N_of_ascii lo <=? N_of_ascii c) && (N_of_ascii c <=? N_of_ascii hi))%N.
Definition one (a : ascii) : cls := fun c => Ascii.eqb a c.
Definition either (p q : cls) : cls := fun c => p c || q c.
Definition neg (p : cls) : cls := fun c => negb (p c).

(** [\d], [\w], [\s] and [.] on ASCII. *)
Definition digit : cls := between "0" "9".
Definition word : cls :=
  either (between "a" "z") (either (between "A" "Z") (either digit (one "_"))).
Definition space : cls :=
  fun c => let n := N_of_ascii c in
           ((n =? 32) || ((9 <=? n) && (n <=? 13)) || ((28 <=? n) && (n <=? 31)))%N.
Definition dot : cls := neg (one Py.newline).

Inductive regex : Type :=
| Eps
| Cls (p : cls)                       (* one character of a class *)
| Cat (r1 r2 : regex)                 (* r1 r2 *)
| Alt (r1 r2 : regex)                 (* r1|r2 *)
| Rep (r : regex) (lo hi : nat)       (* r{lo,hi}, greedy *)
| Many (p : cls) (lo : nat)           (* [p]{lo,}, greedy *)
| Named (name : string) (r : regex)   (* (?P<name>r) *).

(** Captured groups while a match is in progress. *)
Abbreviation captures := (gmap string string).

Section Matcher.
Context {R : Type}.

Abbreviation cont := (string -> captures -> option R).

Definition orelse (x y : option R) : option R :=
  match x with
  | Some _ => x
  | None => y
  end.

(** Greedy bounded repetition of a matcher [m]. *)
Fixpoint rep (m : string -> captures -> cont -> option R)
    (lo hi : nat) (s : string) (e : captures) (k : cont) : option R :=
  match hi with
  | O => match lo with O => k s e | S _ => None end
  | S hi' =>
      orelse (m s e (fun s' e' => rep m (Nat.pred lo) hi' s' e' k))
             (match lo with O => k s e | S _ => None end)
  end.

(** Greedy unbounded repetition of a character class, at least [lo] times. *)
Fixpoint many (p : cls) (lo : nat) (s : string) (e : captures) (k : cont)
    : option R :=
  match s with
  | String c s' =>
      if p c
      then orelse (many p (Nat.pred lo) s' e k)
                  (match lo with O => k s e | S _ => None end)
      else match lo with O => k s e | S _ => None end
  | EmptyString => match lo with O => k s e | S _ => None end
  end.

(** What a group captured: the part of [s] consumed before [rest]. *)
Definition consumed (s rest : string) : string :=
  substring 0 (String.length s - String.length rest) s.

Fixpoint rmatch (r : regex) (s : string) (e : captures) (k : cont)
    : option R :=
  match r with
  | Eps => k s e
  | Cls p =>
      match s with
      | String c s' => if p c then k s' e else None
      | EmptyString => None
      end
  | Cat r1 r2 => rmatch r1 s e (fun s' e' => rmatch r2 s' e' k)
  | Alt r1 r2 => orelse (rmatch r1 s e k) (rmatch r2 s e k)
  | Rep r lo hi => rep (rmatch r) lo hi s e k
  | Many p lo => many p lo s e k
  | Named n r => rmatch r s e (fun s' e' => k s' (<[n := consumed s s']> e'))
  end.

End Matcher.

(** [regex.match] at the start of [s]: the captures and what is left. *)
Definition match_here (r : regex) (s : string) : option (captures * string) :=
  rmatch r s ∅ (fun rest e => Some (e, rest)).

(** [regex.search(s)]: the leftmost start that matches. *)
Fixpoint search (r : regex) (s : string) : option captures :=
  match match_here r s with
  | Some (e, _) => Some e
  | None =>
      match s with
      | String _ s' => search r s'
      | EmptyString => None
      end
  end.

(** The names of the groups of a pattern. *)
Fixpoint group_names (r : regex) : list string :=
  match r with
  | Eps | Cls _ | Many _ _ => []
  | Cat r1 r2 | Alt r1 r2 => group_names r1 ++ group_names r2
  | Rep r _ _ => group_names r
  | Named n r => n :: group_names r
  end.

(** [match.groupdict()]: every named group, [None] when it did not match. *)
Definition groupdict (r : regex) (e : captures) : gmap string (option string) :=
  list_to_map (map (fun n => (n, e !! n)) (group_names r)).

(** [regex.findall(s)] for a pattern with one group: the successive
    non-overlapping matches, left to right. An empty match moves on by one
    character. *)
Fixpoint findall_from (fuel : nat) (r : regex) (g : string) (s : string)
    : list string :=
  match fuel with
  | O => []
  | S fuel' =>
      match match_here r s with
      | Some (e, rest) =>
          let v := default "" (e !! g) in
          if (String.length rest <? String.length s)%nat
          then v :: findall_from fuel' r g rest
          else match s with
               | String _ s' => v :: findall_from fuel' r g s'
               | EmptyString => [v]
               end
      | None =>
          match s with
          | String _ s' => findall_from fuel' r g s'
          | EmptyString => []
          end
      end
  end.

Definition findall (r : regex) (g : string) (s : string) : list string :=
  findall_from (S (String.length s)) r g s.

End Re.

(** ** The fixed patterns of [asuswrt.py] *)

Module Patterns.
Import Re.

Definition seq (rs : list regex) : regex := fold_right Cat Eps rs.
Definition opt (r : regex) : regex := Rep r 0 1.
Definition lit (s : string) : regex :=
  seq (map (fun c => Cls (one c)) (list_ascii_of_string s)).

Definition hex_lower : cls := either digit (between "a" "f").
Definition hex_upper : cls := either digit (between "A" "F").
Definition hex_any : cls := either digit (either (between "a" "f") (between "A" "F")).
Definition mac_sep : cls := either (one ":") (one "-").

(** [(([h]{2}[:-]){5}([h]{2}))] *)
Definition mac_pat (h : cls) : regex :=
  Cat (Rep (Cat (Rep (Cls h) 2 2) (Cls mac_sep)) 5 5) (Rep (Cls h) 2 2).

(** [([0-9]{1,3}[\.]){3}[0-9]{1,3}] *)
Definition ipv4_pat : regex :=
  Cat (Rep (Cat (Rep (Cls digit) 1 3) (Cls (one "."))) 3 3) (Rep (Cls digit) 1 3).

(** [([0-9a-fA-F]{1,4}:){1,7}[0-9a-fA-F]{0,4}(:[0-9a-fA-F]{1,4}){1,7}] *)
Definition ipv6_pat : regex :=
  seq [ Rep (Cat (Rep (Cls hex_any) 1 4) (Cls (one ":"))) 1 7;
        Rep (Cls hex_any) 0 4;
        Rep (Cat (Cls (one ":")) (Rep (Cls hex_any) 1 4)) 1 7 ].

Definition _LEASES_CMD : string := "cat /var/lib/misc/dnsmasq.leases".
Definition _LEASES_REGEX : regex :=
  seq [ Many word 1; Cls space;
        Named "mac" (mac_pat hex_lower); Cls space;
        Named "ip" ipv4_pat; Cls space;
        Named "host" (Many (neg space) 1) ].

Definition _WL_CMD : string :=
  "for dev in `nvram get wl_ifnames`; do wl -i $dev assoclist; done".
Definition _WL_REGEX : regex :=
  seq [ Many word 1; Cls space; Named "mac" (mac_pat hex_upper) ].

Definition _IP_NEIGH_CMD : string := "ip neigh".
Definition _IP_NEIGH_REGEX : regex :=
  seq [ Named "ip" (Alt ipv4_pat ipv6_pat); Cls space;
        Many word 1; Cls space;
        Many word 1; Cls space;
        opt (seq [ Many word 1; Cls space; Named "mac" (mac_pat hex_lower) ]);
        Cls space;
        opt (Cls space); opt (lit "router");
        opt (Cls space); opt (lit "nud");
        Named "status" (Many word 1) ].

Definition _ARP_CMD : string := "arp -n".
Definition _ARP_REGEX : regex :=
  seq [ Many dot 1; Cls space;
        Cls (one "("); Named "ip" ipv4_pat; Cls (one ")"); Cls space;
        Many dot 1; Cls space;
        Named "mac" (mac_pat hex_lower);
        Cls space;
        Many dot 0 ].

Definition _IFCONFIG_CMD : string := "ifconfig eth0 |grep bytes".
Definition _IFCONFIG_REGEX : regex := Named "data" (Many digit 4).

End Patterns.

(** ** State and exceptions: the monad the methods run in *)

Module Eff.
Import Py.

Definition M (S A : Type) : Type := S -> result A * S.

Definition ret {S A} (a : A) : M S A := fun s => (Ok a, s).
Definition raise {S A} (e : exn) : M S A := fun s => (Raise e, s).
Definition bind {S A B} (m : M S A) (f : A -> M S B) : M S B :=
  fun s => match m s with
           | (Ok a, s') => f a s'
           | (Raise e, s') => (Raise e, s')
           end.
Definition get {S} : M S S := fun s => (Ok s, s).
Definition modify {S} (f : S -> S) : M S unit := fun s => (Ok tt, f s).
Definition lift {S A} (r : result A) : M S A := fun s => (r, s).

End Eff.

Declare Scope eff_scope.
Delimit Scope eff_scope with eff.
Notation "'let!' x ':=' c 'in' k" := (Eff.bind c (fun x => k))
  (at level 10, x pattern, c at level 100, k at level 200) : eff_scope.
Notation "c ';;' k" := (Eff.bind c (fun _ => k))
  (at level 100, k at level 200, right associativity) : eff_scope.

(** ** connection.py *)

Module Transport.
Import Py.

(** What a caller of [async_run_command] holds after [await]: the output
    lines, or a coroutine object that nobody has awaited. *)
Inductive output : Type :=
| Lines (ls : list string)
| Coroutine (command : string).

(** The call surface shared by [SshConnection] and [TelnetConnection]. *)
Class Transport (conn : Type) : Type :=
  async_run_command : string -> Eff.M conn output.

End Transport.

Module SshConnection.
Import Py Eff Transport.
Local Open Scope eff_scope.

(** What the router does to a command sent over the session. *)
Inductive reply : Type :=
| Stdout (out : string)
| ChannelOpenError
| OtherFailure.

(** The router, as seen through [asyncssh]: whether the n-th [connect]
    succeeds and how the n-th [run] is answered. *)
Record Remote : Type := {
  connect_ok : nat -> bool;
  run_reply : nat -> string -> reply
}.

Inductive event : Type :=
| Connect (accepted : bool)
| Run (command : string)
| LogError (msg : string).

Record t : Type := {
  _client : option nat;       (* the session in use, numbered by connect *)
  remote : Remote;
  trace : list event          (* what has happened so far, oldest first *)
}.

Definition __init__ (r : Remote) : t :=
  {| _client := None; remote := r; trace := [] |}.

Definition is_connect (e : event) : bool :=
  match e with Connect _ => true | _ => false end.
Definition is_run (e : event) : bool :=
  match e with Run _ => true | _ => false end.
Definition is_log (e : event) : bool :=
  match e with LogError _ => true | _ => false end.

Definition connects (c : t) : nat := length (List.filter is_connect (trace c)).
Definition runs (c : t) : nat := length (List.filter is_run (trace c)).
Definition errors_logged (c : t) : nat := length (List.filter is_log (trace c)).

Definition record (e : event) : M t unit :=
  modify (fun c => {| _client := _client c; remote := remote c;
                      trace := trace c ++ [e] |}).

(** [self._client = await asyncssh.connect(...)] *)
Definition async_init_session : M t unit :=
  let! c := get in
  let n := connects c in
  if connect_ok (remote c) n
  then record (Connect true);;
       modify (fun c => {| _client := Some n; remote := remote c;
                           trace := trace c |})
  else record (Connect false);; raise ConnectionFailure.

(** [await self._client.run(command)] *)
Definition client_run (command : string) : M t reply :=
  let! c := get in
  record (Run command);;
  ret (run_reply (remote c) (runs c) command).

(** [async_run_command(self, command, retry=False)]. The [return] in the
    handler hands back [self.async_run_command(command, retry=True)] as it
    is, a coroutine object; the method does not await it. *)
Definition async_run_command (command : string) (retry : bool) : M t output :=
  let! c := get in
  (match _client c with
   | None => async_init_session
   | Some _ => ret tt
   end);;
  let! result := client_run command in
  match result with
  | Stdout out => ret (Lines (split_nl out))
  | ChannelOpenError =>
      if negb retry
      then async_init_session;; ret (Coroutine command)
      else record (LogError "No connection to host");; ret (Lines [])
  | OtherFailure => raise ConnectionFailure
  end.

(** Awaiting the value a caller received: a coroutine object stands for the
    call with [retry=True]. No caller in the package does this. *)
Definition await (o : output) : M t output :=
  match o with
  | Lines ls => ret (Lines ls)
  | Coroutine command => async_run_command command true
  end.

#[global] Instance transport : Transport t :=
  fun command => async_run_command command false.

End SshConnection.

(** ** asuswrt.py *)

Module Asuswrt.
Import Py Eff Transport Patterns.
Local Open Scope eff_scope.

Definition CHANGE_TIME_CACHE_DEFAULT : Z := 5.

(** [Device = namedtuple('Device', ['mac', 'ip', 'name'])] *)
Record Device : Type := {
  mac : string;
  ip : option string;
  name : option string
}.

#[global] Instance Device_eq_dec : EqDecision Device.
Proof. solve_decision. Defined.

(** A parsed record, [match.groupdict()]. *)
Abbreviation record := (gmap string (option string)).
Abbreviation table := (gmap string Device).

Definition _parse_lines (lines : list string) (regex : Re.regex) : list record :=
  omap (fun line => Re.groupdict regex <$> Re.search regex line) lines.

(** [v.upper()] where [v] may be [None]. *)
Definition upper_of (v : option string) : result string :=
  match v with
  | Some s => Ok (upper s)
  | None => Raise AttributeError
  end.

(** A [for] loop over a list, the body updating an accumulator. *)
Fixpoint for_each {A B} (body : B -> A -> result B) (l : list A) (acc : B)
    : result B :=
  match l with
  | [] => Ok acc
  | x :: l' => rbind (body acc x) (for_each body l')
  end.

(** [devices.update(new)] *)
Definition update (devices new : table) : table := new ∪ devices.

(** The bodies of the four parsing loops. *)
Definition wl_body (devices : table) (device : record) : result table :=
  rbind (dict_getitem device "mac") (fun m =>
  rbind (upper_of m) (fun mac =>
  Ok (<[mac := {| mac := mac; ip := None; name := None |}]> devices))).

Definition leases_body (cur_devices devices : table) (device : record)
    : result table :=
  rbind (dict_getitem device "host") (fun host =>
  let host := if decide (host = Some "*") then Some "" else host in
  rbind (dict_getitem device "mac") (fun m =>
  rbind (upper_of m) (fun mac =>
  match cur_devices !! mac with
  | Some _ =>
      rbind (dict_getitem device "ip") (fun i =>
      Ok (<[mac := {| mac := mac; ip := i; name := host |}]> devices))
  | None => Ok devices
  end))).

Definition neigh_body (cur_devices devices : table) (device : record)
    : result table :=
  rbind (dict_getitem device "status") (fun status =>
  match status with
  | None => Ok devices
  | Some st =>
      if negb (String.eqb (upper st) "REACHABLE") then Ok devices
      else
        rbind (dict_getitem device "mac") (fun m =>
        match m with
        | None => Ok devices
        | Some m =>
            let mac := upper m in
            let old_device := cur_devices !! mac in
            let old_ip := match old_device with
                          | Some d => ip d
                          | None => None
                          end in
            Ok (<[mac := {| mac := mac; ip := dict_get device "ip" old_ip;
                            name := None |}]> devices)
        end)
  end).

Definition arp_body (devices : table) (device : record) : result table :=
  rbind (dict_getitem device "mac") (fun m =>
  match m with
  | None => Ok devices
  | Some m =>
      let mac := upper m in
      rbind (dict_getitem device "ip") (fun i =>
      Ok (<[mac := {| mac := mac; ip := i; name := None |}]> devices))
  end).

Section Client.
Context {conn : Type} `{!Transport conn}.

Record AsusWrt : Type := {
  require_ip : bool;
  mode : string;
  _rx_latest : option Z;
  _tx_latest : option Z;
  _latest_transfer_check : option Z;
  _cache_time : Z;
  _trans_cache_timer : option Z;
  _transfer_rates_cache : option (list Z);
  connection : conn;
  (* [datetime.utcnow()]: the readings the system clock will give, and how
     many have been taken *)
  clock : nat -> Z;
  clock_reads : nat
}.

Definition __init__ (connection : conn) (mode : string) (require_ip : bool)
    (time_cache : Z) (clock : nat -> Z) : AsusWrt :=
  {| require_ip := require_ip; mode := mode;
     _rx_latest := None; _tx_latest := None; _latest_transfer_check := None;
     _cache_time := time_cache;
     _trans_cache_timer := None; _transfer_rates_cache := None;
     connection := connection; clock := clock; clock_reads := 0 |}.

Definition set_connection (c : conn) (a : AsusWrt) : AsusWrt :=
  {| require_ip := require_ip a; mode := mode a;
     _rx_latest := _rx_latest a; _tx_latest := _tx_latest a;
     _latest_transfer_check := _latest_transfer_check a;
     _cache_time := _cache_time a;
     _trans_cache_timer := _trans_cache_timer a;
     _transfer_rates_cache := _transfer_rates_cache a;
     connection := c; clock := clock a; clock_reads := clock_reads a |}.

Definition set_transfer_rates_cache (ret : list Z) (a : AsusWrt) : AsusWrt :=
  {| require_ip := require_ip a; mode := mode a; _rx_latest := _rx_latest a;
     _tx_latest := _tx_latest a;
     _latest_transfer_check := _latest_transfer_check a;
     _cache_time := _cache_time a;
     _trans_cache_timer := _trans_cache_timer a;
     _transfer_rates_cache := Some ret; connection := connection a;
     clock := clock a; clock_reads := clock_reads a |}.

Definition set_trans_cache_timer (now : Z) (a : AsusWrt) : AsusWrt :=
  {| require_ip := require_ip a; mode := mode a; _rx_latest := _rx_latest a;
     _tx_latest := _tx_latest a;
     _latest_transfer_check := _latest_transfer_check a;
     _cache_time := _cache_time a; _trans_cache_timer := Some now;
     _transfer_rates_cache := _transfer_rates_cache a;
     connection := connection a; clock := clock a;
     clock_reads := clock_reads a |}.

Definition set_latest_transfer_check (now : Z) (a : AsusWrt) : AsusWrt :=
  {| require_ip := require_ip a; mode := mode a; _rx_latest := _rx_latest a;
     _tx_latest := _tx_latest a; _latest_transfer_check := Some now;
     _cache_time := _cache_time a;
     _trans_cache_timer := _trans_cache_timer a;
     _transfer_rates_cache := _transfer_rates_cache a;
     connection := connection a; clock := clock a;
     clock_reads := clock_reads a |}.

Definition set_rx_latest (v : Z) (a : AsusWrt) : AsusWrt :=
  {| require_ip := require_ip a; mode := mode a; _rx_latest := Some v;
     _tx_latest := _tx_latest a;
     _latest_transfer_check := _latest_transfer_check a;
     _cache_time := _cache_time a;
     _trans_cache_timer := _trans_cache_timer a;
     _transfer_rates_cache := _transfer_rates_cache a;
     connection := connection a; clock := clock a;
     clock_reads := clock_reads a |}.

Definition set_tx_latest (v : Z) (a : AsusWrt) : AsusWrt :=
  {| require_ip := require_ip a; mode := mode a; _rx_latest := _rx_latest a;
     _tx_latest := Some v;
     _latest_transfer_check := _latest_transfer_check a;
     _cache_time := _cache_time a;
     _trans_cache_timer := _trans_cache_timer a;
     _transfer_rates_cache := _transfer_rates_cache a;
     connection := connection a; clock := clock a;
     clock_reads := clock_reads a |}.

Definition tick (a : AsusWrt) : AsusWrt :=
  {| require_ip := require_ip a; mode := mode a;
     _rx_latest := _rx_latest a; _tx_latest := _tx_latest a;
     _latest_transfer_check := _latest_transfer_check a;
     _cache_time := _cache_time a;
     _trans_cache_timer := _trans_cache_timer a;
     _transfer_rates_cache := _transfer_rates_cache a;
     connection := connection a; clock := clock a;
     clock_reads := S (clock_reads a) |}.

(** The reading [datetime.utcnow()] gives next. *)
Definition next_reading (a : AsusWrt) : Z := clock a (clock_reads a).

(** [datetime.utcnow()] *)
Definition utcnow : M AsusWrt Z :=
  let! a := get in
  modify tick;; ret (next_reading a).

(** [await self.connection.async_run_command(command)] *)
Definition run_command (command : string) : M AsusWrt output :=
  fun a =>
    let '(r, c) := async_run_command command (connection a) in
    (r, set_connection c a).

(** Iterating over what the connection returned; a coroutine object is not
    iterable. *)
Definition iterate (o : output) : result (list string) :=
  match o with
  | Lines ls => Ok ls
  | Coroutine _ => Raise TypeError
  end.

(** [not lines] *)
Definition falsy (o : output) : bool :=
  match o with
  | Lines [] => true
  | _ => false
  end.

Definition async_get_wl : M AsusWrt table :=
  let! lines := run_command _WL_CMD in
  if falsy lines then ret ∅
  else
    let! lines := lift (iterate lines) in
    let result := _parse_lines lines _WL_REGEX in
    lift (for_each wl_body result ∅).

Definition async_get_leases (cur_devices : table) : M AsusWrt table :=
  let! lines := run_command _LEASES_CMD in
  if falsy lines then ret ∅
  else
    let! lines := lift (iterate lines) in
    let lines := List.filter (fun line => negb (startswith "duid " line)) lines in
    let result := _parse_lines lines _LEASES_REGEX in
    lift (for_each (leases_body cur_devices) result ∅).

Definition async_get_neigh (cur_devices : table) : M AsusWrt table :=
  let! lines := run_command _IP_NEIGH_CMD in
  if falsy lines then ret ∅
  else
    let! lines := lift (iterate lines) in
    let result := _parse_lines lines _IP_NEIGH_REGEX in
    lift (for_each (neigh_body cur_devices) result ∅).

Definition async_get_arp : M AsusWrt table :=
  let! lines := run_command _ARP_CMD in
  if falsy lines then ret ∅
  else
    let! lines := lift (iterate lines) in
    let result := _parse_lines lines _ARP_REGEX in
    lift (for_each arp_body result ∅).

(** The table after the wireless, ARP and IP-neighbor steps. *)
Definition devices_before_leases : M AsusWrt table :=
  let devices : table := ∅ in
  let! wl := async_get_wl in
  let devices := update devices wl in
  let! arp := async_get_arp in
  let devices := update devices arp in
  let! neigh := async_get_neigh devices in
  ret (update devices neigh).

(** The final loop of [async_get_connected_devices]. *)
Definition keep (require_ip : bool) (d : Device) : bool :=
  negb require_ip || bool_decide (ip d ≠ None).

Definition async_get_connected_devices : M AsusWrt table :=
  let! devices := devices_before_leases in
  let! a := get in
  let! devices :=
    (if negb (String.eqb (mode a) "ap")
     then let! leases := async_get_leases devices in
          ret (update devices leases)
     else ret devices) in
  ret (filter (fun kv => keep (require_ip a) kv.2 = true) devices).

(** [self._cache_time > (now - self._trans_cache_timer).total_seconds()],
    behind [use_cache and self._trans_cache_timer and ...]. *)
Definition cache_is_fresh (use_cache : bool) (a : AsusWrt) (now : Z) : bool :=
  use_cache &&
  match _trans_cache_timer a with
  | Some timer => int_gt_float (_cache_time a) (total_seconds (now - timer))
  | None => false
  end.

(** Subscripting what [async_get_packets_total] handed over. *)
Definition subscript {A} (data : option (list A)) (i : nat) : result A :=
  match data with
  | Some l => getitem l i
  | None => Raise TypeError
  end.

Definition first_line (o : output) : result string :=
  match o with
  | Lines ls => getitem ls 0
  | Coroutine _ => Raise TypeError
  end.

Definition async_get_packets_total (use_cache : bool)
    : M AsusWrt (option (list Z)) :=
  let! now := utcnow in
  let! a := get in
  if cache_is_fresh use_cache a now then ret (_transfer_rates_cache a)
  else
    let! data := run_command _IFCONFIG_CMD in
    let! line := lift (first_line data) in
    let result := Re.findall _IFCONFIG_REGEX "data" line in
    let ret_ := map int_of_str result in
    modify (set_transfer_rates_cache ret_);;
    modify (set_trans_cache_timer now);;
    ret (Some ret_).

Definition async_get_rx (use_cache : bool) : M AsusWrt Z :=
  let! data := async_get_packets_total use_cache in
  lift (subscript data 0).

Definition async_get_tx (use_cache : bool) : M AsusWrt Z :=
  let! data := async_get_packets_total use_cache in
  lift (subscript data 1).

(** [math.ceil(d / time_diff.total_seconds()) if d > 0 else 0] *)
Definition rate (d time_diff : Z) : result Z :=
  if (0 <? d)%Z
  then rbind (int_div_float d (total_seconds time_diff)) ceil
  else Ok 0%Z.

Definition async_get_current_transfer_rates (use_cache : bool)
    : M AsusWrt (option (Z * Z)) :=
  let! now := utcnow in
  let! data := async_get_packets_total use_cache in
  let! a := get in
  match _rx_latest a, _tx_latest a with
  | Some rx_latest, Some tx_latest =>
      let! time_diff := lift (match _latest_transfer_check a with
                              | Some t => Ok (now - t)%Z
                              | None => Raise TypeError
                              end) in
      modify (set_latest_transfer_check now);;
      let! d0 := lift (subscript data 0) in
      let rx := (d0 - rx_latest)%Z in
      let! d1 := lift (subscript data 1) in
      let tx := (d1 - tx_latest)%Z in
      let! d0 := lift (subscript data 0) in
      modify (set_rx_latest d0);;
      let! d1 := lift (subscript data 1) in
      modify (set_tx_latest d1);;
      let! r := lift (rate rx time_diff) in
      let! t := lift (rate tx time_diff) in
      ret (Some (r, t))
  | _, _ =>
      modify (set_latest_transfer_check now);;
      let! d0 := lift (subscript data 0) in
      modify (set_rx_latest d0);;
      let! d1 := lift (subscript data 1) in
      modify (set_tx_latest d1);;
      ret None
  end.

End Client.

End Asuswrt.

(** ** What a pattern can match: a declarative reading of the matcher *)

Module ReSem.
Import Re.

(** [n] successive matches, each starting where the previous one stopped. *)
Fixpoint Iter (M : string -> captures -> string -> captures -> Prop) (n : nat)
    (s : string) (e : captures) (s' : string) (e' : captures) : Prop :=
  match n with
  | O => s' = s /\ e' = e
  | S n' => exists s1 e1, M s e s1 e1 /\ Iter M n' s1 e1 s' e'
  end.

Fixpoint all_in (p : cls) (w : string) : Prop :=
  match w with
  | EmptyString => True
  | String c w' => p c = true /\ all_in p w'
  end.

(** [Match r s e s' e']: some way of matching [r] at the start of [s] leaves
    [s'] unread and turns the captures [e] into [e']. *)
Fixpoint Match (r : regex) (s : string) (e : captures) (s' : string)
    (e' : captures) : Prop :=
  match r with
  | Eps => s' = s /\ e' = e
  | Cls p => exists c, s = String c s' /\ p c = true /\ e' = e
  | Cat r1 r2 => exists s1 e1, Match r1 s e s1 e1 /\ Match r2 s1 e1 s' e'
  | Alt r1 r2 => Match r1 s e s' e' \/ Match r2 s e s' e'
  | Rep r lo hi => exists n, (lo <= n <= hi)%nat /\ Iter (Match r) n s e s' e'
  | Many p lo =>
      exists w, s = w +:+ s' /\ all_in p w /\ (lo <= String.length w)%nat /\ e' = e
  | Named n r => exists e1, Match r s e s' e1 /\ e' = <[n := consumed s s']> e1
  end.

(** Every group named [g] in [r] captures only texts that satisfy [Q]. *)
Fixpoint group_ok (Q : string -> Prop) (g : string) (r : regex) : Prop :=
  match r with
  | Named n r' =>
      (n = g -> forall s e s' e', Match r' s e s' e' -> Q (consumed s s'))
      /\ group_ok Q g r'
  | Cat r1 r2 | Alt r1 r2 => group_ok Q g r1 /\ group_ok Q g r2
  | Rep r' _ _ => group_ok Q g r'
  | Eps | Cls _ | Many _ _ => True
  end.

(** Every way through [r] goes through a group named [g]. *)
Fixpoint always_sets (g : string) (r : regex) : bool :=
  match r with
  | Named n r' => String.eqb n g || always_sets g r'
  | Cat r1 r2 => always_sets g r1 || always_sets g r2
  | Alt r1 r2 => always_sets g r1 && always_sets g r2
  | Rep r' lo _ => (1 <=? lo)%nat && always_sets g r'
  | Eps | Cls _ | Many _ _ => false
  end.

(** A MAC address as the patterns accept it: [pairs] pairs of characters of
    [h], a character of [sep] between two pairs. *)
Fixpoint mac_shape (h sep : cls) (pairs : nat) (w : string) : bool :=
  match pairs, w with
  | S O, String a (String b EmptyString) => h a && h b
  | S (S _ as n), String a (String b (String c w')) =>
      h a && h b && sep c && mac_shape h sep n w'
  | _, _ => false
  end.

(** The longest prefix of characters of a class, and what follows it. *)
Fixpoint span (p : cls) (s : string) : string * string :=
  match s with
  | String c s' =>
      if p c then let '(w, rest) := span p s' in (String c w, rest)
      else ("", s)
  | EmptyString => ("", "")
  end.

End ReSem.

(** ** Vocabulary for the statements *)

Module Props.
Import Py Re ReSem Patterns Asuswrt.

(** A MAC address as the lower-case patterns capture it. *)
Definition lower_mac (w : string) : Prop :=
  mac_shape hex_lower mac_sep 6 w = true.

(** Six pairs of upper-case hex digits, a colon or a dash between pairs:
    what [.upper()] makes of a captured address. *)
Definition upper_mac (w : string) : Prop :=
  mac_shape hex_upper mac_sep 6 w = true.

(** The canonical form of the specification: six pairs of upper-case hex
    digits separated by colons. *)
Definition canonical_mac (w : string) : bool :=
  mac_shape hex_upper (one ":") 6 w.

(** The record's status reads REACHABLE, in any case. *)
Definition reachable (device : record) : bool :=
  match device !! "status" with
  | Some (Some st) => String.eqb (upper st) "REACHABLE"
  | _ => false
  end.

(** The record carries the MAC address that [.upper()] turns into [k]. *)
Definition has_mac (device : record) (k : string) : bool :=
  match device !! "mac" with
  | Some (Some m) => String.eqb (upper m) k
  | _ => false
  end.

(** What one round of each parsing loop may store under key [k]. *)
Definition wl_entry (device : record) (k : string) (d : Device) : Prop :=
  has_mac device k = true /\ d = {| mac := k; ip := None; name := None |}.

Definition arp_entry (device : record) (k : string) (d : Device) : Prop :=
  has_mac device k = true /\
  exists i, device !! "ip" = Some i /\ d = {| mac := k; ip := i; name := None |}.

Definition neigh_entry (cur_devices : table) (device : record) (k : string)
    (d : Device) : Prop :=
  reachable device = true /\ has_mac device k = true /\
  d = {| mac := k;
         ip := dict_get device "ip"
                 (match cur_devices !! k with Some o => ip o | None => None end);
         name := None |}.

Definition leases_entry (cur_devices : table) (device : record) (k : string)
    (d : Device) : Prop :=
  has_mac device k = true /\ is_Some (cur_devices !! k) /\ mac d = k.

(** Every key is the [mac] field of the record stored under it. *)
Definition keyed_by_mac (t : table) : Prop :=
  forall k d, t !! k = Some d -> mac d = k.

End Props.

(** ** The specification's own formulas, for comparison with the code *)

Module SpecWords.
Import Py Re Patterns.

(** The rate as the specification words it, in exact arithmetic:
    [ceiling(byteDelta / elapsedSeconds)], zero for a negative delta; the
    elapsed time is given in microseconds. *)
Definition spec_rate (byte_delta elapsed_us : Z) : Z :=
  if (byte_delta <? 0)%Z then 0%Z
  else (- ((- (byte_delta * 1000000)) / elapsed_us))%Z.

(** The four-or-more-digit numeric tokens of a text: its maximal runs of
    digits, those of fewer than four digits left out. [run] is the run that
    ends where [s] starts. *)
Definition emit (run : string) : list string :=
  if (4 <=? String.length run)%nat then [run] else [].

Fixpoint runs_from (run : string) (s : string) : list string :=
  match s with
  | EmptyString => emit run
  | String c s' =>
      if digit c then runs_from (run +:+ String c "") s'
      else (emit run ++ runs_from "" s')%list
  end.

Definition long_digit_runs (s : string) : list string := runs_from "" s.

(** The tokens of the whole output of the command, as the specification
    words it. *)
Definition spec_tokens (output : list string) : list Z :=
  concat (map (fun line => map int_of_str (long_digit_runs line)) output).

End SpecWords.

(** ** Routers to run the client against *)

Module Fixtures.
Import Py Transport Patterns Asuswrt.

Fixpoint unlines (ls : list string) : string :=
  match ls with
  | [] => ""
  | [l] => l
  | l :: ls' => l +:+ String newline (unlines ls')
  end.

(** A router that accepts every connection and answers the n-th command
    it receives with [answer n command]. *)
Definition router (answer : nat -> string -> list string) : SshConnection.Remote :=
  {| SshConnection.connect_ok := fun _ => true;
     SshConnection.run_reply :=
       fun n command => SshConnection.Stdout (unlines (answer n command)) |}.

(** A router whose channel cannot be opened: every command fails with
    [ChannelOpenError]. *)
Definition closed_router : SshConnection.Remote :=
  {| SshConnection.connect_ok := fun _ => true;
     SshConnection.run_reply := fun _ _ => SshConnection.ChannelOpenError |}.

Definition client (r : SshConnection.Remote) (clock : nat -> Z)
    : @AsusWrt SshConnection.t :=
  __init__ (SshConnection.__init__ r) "router" false
           CHANGE_TIME_CACHE_DEFAULT clock.

(** One device in the ARP table, its address written with dashes. *)
Definition dashed_arp (n : nat) (command : string) : list string :=
  if String.eqb command _ARP_CMD
  then ["? (192.168.1.5) at aa-bb-cc-dd-ee-ff [ether]  on br0"]
  else [].

(** A wireless client, a STALE neighbour and a lease for a third address. *)
Definition home (n : nat) (command : string) : list string :=
  if String.eqb command _WL_CMD then ["assoclist 01:02:03:04:05:06"]
  else if String.eqb command _IP_NEIGH_CMD
  then ["192.168.1.10 dev br0 lladdr aa:bb:cc:dd:ee:00 REACHABLE";
        "192.168.1.11 dev br0 lladdr aa:bb:cc:dd:ee:01 STALE"]
  else if String.eqb command _LEASES_CMD
  then ["51910 01:02:03:04:05:06 192.168.1.2 TV 01:02:03:04:05:06";
        "51910 0a:0b:0c:0d:0e:0f 192.168.1.3 * 01:0a:0b:0c:0d:0e:0f"]
  else [].

(** The n-th command is answered by the n-th of the given outputs. *)
Definition scripted (outputs : list (list string)) (n : nat) (command : string)
    : list string :=
  default [] (outputs !! n).

Definition clock_of (readings : list Z) : nat -> Z :=
  fun n => default 0%Z (readings !! n).

(** Reading a result: whether the call returned, and what. *)
Definition is_ok {A} (r : result A) : bool :=
  match r with
  | Ok _ => true
  | Raise _ => false
  end.

Definition value {A} (dflt : A) (r : result A) : A :=
  match r with
  | Ok a => a
  | Raise _ => dflt
  end.

(** The entry a returned table holds for a key. *)
Definition entry_of (r : result table) (k : string) : option Device :=
  value ∅ r !! k.

(** The clients of the examples. *)
Definition at_home : @AsusWrt SshConnection.t :=
  client (router home) (fun _ => 0%Z).

Definition with_dashes : @AsusWrt SshConnection.t :=
  client (router dashed_arp) (fun _ => 0%Z).

(** Three readings of the counters, at 0 s, 2 s and 3 s; the last one after
    the router restarted its count. *)
Definition three_readings : @AsusWrt SshConnection.t :=
  client (router (scripted [ ["RX bytes:1000 (1.0 KB)  TX bytes:2000 (2.0 KB)"];
                             ["RX bytes:2000 (2.0 KB)  TX bytes:2500 (2.5 KB)"];
                             ["RX bytes:0500 (0.5 KB)  TX bytes:2600 (2.6 KB)"] ]))
         (clock_of [0; 0; 2000000; 2000000; 3000000; 3000000]%Z).

(** 21 bytes received in 0.7 s. *)
Definition slow_link : @AsusWrt SshConnection.t :=
  client (router (scripted [ ["RX bytes:1000 (1.0 KB)  TX bytes:2000 (2.0 KB)"];
                             ["RX bytes:1021 (1.0 KB)  TX bytes:2000 (2.0 KB)"] ]))
         (clock_of [0; 0; 700000; 700000]%Z).

(** A router that prints the two counters on two lines. *)
Definition two_lines : @AsusWrt SshConnection.t :=
  client (router (scripted [ ["RX bytes:1234"; "TX bytes:5678"] ]))
         (fun _ => 0%Z).



End Fixtures.

(** ** Histories of a secure-shell connection *)

Module History.
Import Py Eff Transport SshConnection.

(** The commands sent to the router, oldest first. *)
Definition sent_of (evs : list event) : list string :=
  omap (fun e => match e with Run command => Some command | _ => None end) evs.

Definition commands_sent (c : t) : list string := sent_of (trace c).

(** No command is sent before a session has been opened. [opened] tells
    whether a connect has been accepted so far. *)
Fixpoint runs_on_session (opened : bool) (evs : list event) : bool :=
  match evs with
  | [] => true
  | Connect accepted :: evs' => runs_on_session (opened || accepted) evs'
  | Run _ :: evs' => opened && runs_on_session opened evs'
  | LogError _ :: evs' => runs_on_session opened evs'
  end.

(** The session that the latest accepted connect has opened, the connects
    numbered from [n] on; [cur] when none was accepted. *)
Fixpoint session_of (n : nat) (cur : option nat) (evs : list event)
    : option nat :=
  match evs with
  | [] => cur
  | Connect accepted :: evs' =>
      session_of (S n) (if accepted then Some n else cur) evs'
  | _ :: evs' => session_of n cur evs'
  end.

(** The states of a connection to the router [r]: the one [__init__] makes,
    and those that calls of [async_run_command] lead to. *)
Inductive connection_state (r : Remote) : t -> Prop :=
| connection_made : connection_state r (__init__ r)
| connection_used c command retry :
    connection_state r c ->
    connection_state r (async_run_command command retry c).2.

End History.

(** ** Shapes of text *)

Module Shape.
Import Py Re.

(** A text without a newline. *)
Fixpoint one_line (l : string) : bool :=
  match l with
  | EmptyString => true
  | String c l' => negb (Ascii.eqb c newline) && one_line l'
  end.

(** The sign bit of a float, none for a NaN. *)
Definition sign_of (f : float) : option bool :=
  match f with
  | S754_zero s | S754_infinity s | S754_finite s _ _ => Some s
  | S754_nan => None
  end.

End Shape.

(** ** asuswrt.py, the rest: the rates in words *)

Module Readable.
Import Py Eff Transport Asuswrt.
Local Open Scope eff_scope.

Section Client.
Context {conn : Type} `{!Transport conn}.

(** [convert_size] is imported from [aioasuswrt.helpers]; it stands here
    for any function that makes a text of a number of bytes, or raises. *)
Variable convert_size : Z -> result string.

(** [rx, tx = ...]: unpacking what the estimator returned. *)
Definition unpack (rates : option (Z * Z)) : result (Z * Z) :=
  match rates with
  | Some (rx, tx) => Ok (rx, tx)
  | None => Raise TypeError
  end.

(** ["%s/s" % text] *)
Definition per_second (text : string) : string := text +:+ "/s".

Definition async_current_transfer_human_readable (use_cache : bool)
    : M AsusWrt (string * string) :=
  let! rates := async_get_current_transfer_rates use_cache in
  let! rx_tx := lift (unpack rates) in
  let rx := rx_tx.1 in
  let tx := rx_tx.2 in
  let! rx_text := lift (convert_size rx) in
  let! tx_text := lift (convert_size tx) in
  ret (per_second rx_text, per_second tx_text).

(** The methods of the client, and the states it goes through: the one
    [__init__] makes and those that calls of its methods lead to. *)
Inductive method : Type :=
| Async_get_wl
| Async_get_arp
| Async_get_neigh (cur_devices : table)
| Async_get_leases (cur_devices : table)
| Async_get_connected_devices
| Async_get_packets_total (use_cache : bool)
| Async_get_rx (use_cache : bool)
| Async_get_tx (use_cache : bool)
| Async_get_current_transfer_rates (use_cache : bool)
| Async_current_transfer_human_readable (use_cache : bool).

Definition state_after (m : method) (a : AsusWrt) : AsusWrt :=
  match m with
  | Async_get_wl => (async_get_wl a).2
  | Async_get_arp => (async_get_arp a).2
  | Async_get_neigh cur => (async_get_neigh cur a).2
  | Async_get_leases cur => (async_get_leases cur a).2
  | Async_get_connected_devices => (async_get_connected_devices a).2
  | Async_get_packets_total use_cache => (async_get_packets_total use_cache a).2
  | Async_get_rx use_cache => (async_get_rx use_cache a).2
  | Async_get_tx use_cache => (async_get_tx use_cache a).2
  | Async_get_current_transfer_rates use_cache =>
      (async_get_current_transfer_rates use_cache a).2
  | Async_current_transfer_human_readable use_cache =>
      (async_current_transfer_human_readable use_cache a).2
  end.

Inductive client_state (a0 : AsusWrt) : AsusWrt -> Prop :=
| client_made : client_state a0 a0
| client_called a m : client_state a0 a -> client_state a0 (state_after m a).

End Client.

End Readable.

(** ** What the client keeps *)

Module Invariant.
Import Py Eff Transport Asuswrt.

Section Client.
Context {conn : Type} `{!Transport conn}.

Abbreviation state := (@AsusWrt conn).

(** What the client keeps from one state to a later one: its settings and
    its clock; that a timestamp of the cache comes with cached totals; that
    a snapshot of the estimator comes with its time. *)
Definition kept (a a' : state) : Prop :=
  require_ip a' = require_ip a /\ mode a' = mode a /\
  _cache_time a' = _cache_time a /\ clock a' = clock a /\
  (clock_reads a <= clock_reads a')%nat /\
  ((is_Some (_trans_cache_timer a) -> is_Some (_transfer_rates_cache a)) ->
   (is_Some (_trans_cache_timer a') -> is_Some (_transfer_rates_cache a'))) /\
  ((is_Some (_rx_latest a) -> is_Some (_latest_transfer_check a)) ->
   (is_Some (_rx_latest a') -> is_Some (_latest_transfer_check a'))).

Definition keeps {A} (m : M state A) : Prop :=
  forall a, kept a (m a).2.

End Client.

End Invariant.

(** ** Lines that the patterns accept *)

Module Accept.
Import Py Re Patterns.

(** Every character of a text is of a class. *)
Fixpoint all_of (p : cls) (w : string) : bool :=
  match w with
  | EmptyString => true
  | String c w' => p c && all_of p w'
  end.

(** One to three digits. *)
Definition octet (w : string) : bool :=
  all_of digit w && (1 <=? String.length w)%nat && (String.length w <=? 3)%nat.

(** A word of the router's output: one character of [\w] or more. *)
Definition is_word (w : string) : bool :=
  all_of word w && (1 <=? String.length w)%nat.

(** An IPv4 address in dotted notation. *)
Definition dotted (a b c d : string) : string :=
  a +:+ "." +:+ b +:+ "." +:+ c +:+ "." +:+ d.

(** A character that is no newline, no opening parenthesis, no colon and no
    dash. *)
Definition plain : cls :=
  fun c => dot c && negb (one "(" c) && negb (mac_sep c).

(** The text does not go on with a character of the class. *)
Definition stops (p : cls) (s : string) : bool :=
  match s with
  | EmptyString => true
  | String c _ => negb (p c)
  end.

(** The way the matcher tries first through [r] from [s] ends at [s'] with
    the captures [e']: whatever follows succeeds there if it can. *)
Definition first_way (r : regex) (s : string) (e : captures)
    (s' : string) (e' : captures) : Prop :=
  forall (R : Type) (k : string -> captures -> option R) v,
    k s' e' = Some v -> rmatch r s e k = Some v.

(** There is no way through [r] from [s]. *)
Definition no_way (r : regex) (s : string) (e : captures) : Prop :=
  forall (R : Type) (k : string -> captures -> option R), rmatch r s e k = None.

End Accept.

(** ** connection.py, the Telnet transport *)

(** The stream of [asyncio] is given by what it does for this class. The
    router sends bytes when the connection opens and in answer to what is
    written to it; it does not close the connection. [readuntil] returns the
    bytes up to the first occurrence of the separator and leaves the rest
    unread; it raises [LimitOverrunError] when that occurrence lies beyond
    the limit of the reader, [2 ** 16] bytes, and it waits when the
    separator is not among the bytes the router has sent: there is no
    timeout in the class. Bytes are written as texts; a text that is not
    ASCII cannot be encoded, and bytes that are not ASCII are beyond the
    embedding. *)

Module TelnetConnection.
Import Py.

Inductive failure : Type :=
| ConnectionRefused       (* [asyncio.open_connection] raised *)
| UnicodeEncodeError      (* [.encode('ascii')] of a text that is not ASCII *)
| LimitOverrunError       (* [readuntil]: no separator within the limit *)
| ValueError              (* [readuntil] with an empty separator *)
| TypeError               (* [None + '\n'], [readuntil(None)] *)
| Waits                   (* [readuntil] waits for bytes that do not come *)
| NotAscii                (* [.decode('utf-8')] of bytes above 127 *).

Inductive outcome (A : Type) : Type :=
| Returns (a : A)
| Fails (f : failure).
Arguments Returns {A} a.
Arguments Fails {A} f.

(** The router, as seen through the stream. *)
Record Remote : Type := {
  accepts : nat -> bool;         (* whether the n-th connection is accepted *)
  banner : string;               (* what it sends when the connection opens *)
  answer : list string -> string (* what it sends on a write, given all
                                    that was written to the connection *)
}.

Record t : Type := {
  _username : option string;
  _password : option string;
  _prompt_string : option string;
  connected : bool;
  (* [_reader] and [_writer] *)
  opened : nat;                  (* connections asked for so far *)
  written : list string;         (* what was written to the writer in use *)
  unread : string;               (* bytes received and not read yet *)
  remote : Remote
}.

Definition __init__ (username password : option string) (r : Remote) : t :=
  {| _username := username; _password := password;
     _prompt_string := None; connected := false;
     opened := 0; written := []; unread := ""; remote := r |}.

Definition M (A : Type) : Type := t -> outcome A * t.

Definition ret {A} (a : A) : M A := fun c => (Returns a, c).
Definition fail {A} (f : failure) : M A := fun c => (Fails f, c).
Definition bind {A B} (m : M A) (k : A -> M B) : M B :=
  fun c => match m c with
           | (Returns a, c') => k a c'
           | (Fails f, c') => (Fails f, c')
           end.

Definition is_ascii (s : string) : bool :=
  forallb (fun c => (N_of_ascii c <? 128)%N) (list_ascii_of_string s).

(** [text + '\n'], where the text may be [None]. *)
Definition plus_newline (text : option string) : outcome string :=
  match text with
  | Some s => Returns (s +:+ String newline "")
  | None => Fails TypeError
  end.

(** [text.encode('ascii')] *)
Definition encode_ascii (text : string) : outcome string :=
  if is_ascii text then Returns text else Fails UnicodeEncodeError.

(** [data.decode('utf-8')], for ASCII bytes. *)
Definition decode_utf8 (data : string) : outcome string :=
  if is_ascii data then Returns data else Fails NotAscii.

(** [asyncio.open_connection(host, port)] *)
Definition open_connection : M unit :=
  fun c =>
    if accepts (remote c) (opened c)
    then (Returns tt,
          {| _username := _username c; _password := _password c;
             _prompt_string := _prompt_string c; connected := connected c;
             opened := S (opened c); written := [];
             unread := banner (remote c); remote := remote c |})
    else (Fails ConnectionRefused,
          {| _username := _username c; _password := _password c;
             _prompt_string := _prompt_string c; connected := connected c;
             opened := S (opened c); written := written c;
             unread := unread c; remote := remote c |}).

(** [self._writer.write(data)], and what the router sends in answer. *)
Definition write (data : string) : M unit :=
  fun c =>
    let all := (written c ++ [data])%list in
    (Returns tt,
     {| _username := _username c; _password := _password c;
        _prompt_string := _prompt_string c; connected := connected c;
        opened := opened c; written := all;
        unread := unread c +:+ answer (remote c) all; remote := remote c |}).

(** The bytes up to the end of the first occurrence of the separator, and
    the bytes after it. *)
Fixpoint cut (sep : string) (s : string) : option (string * string) :=
  if startswith sep s
  then Some (sep, substring (String.length sep)
                            (String.length s - String.length sep) s)
  else match s with
       | String c s' =>
           match cut sep s' with
           | Some (chunk, rest) => Some (String c chunk, rest)
           | None => None
           end
       | EmptyString => None
       end.

Definition limit : nat := 2 ^ 16.

(** [await self._reader.readuntil(separator)] *)
Definition readuntil (separator : option string) : M string :=
  fun c =>
    match separator with
    | None => (Fails TypeError, c)
    | Some "" => (Fails ValueError, c)
    | Some sep =>
        match cut sep (unread c) with
        | Some (chunk, rest) =>
            if (String.length chunk - String.length sep <=? limit)%nat
            then (Returns chunk,
                  {| _username := _username c; _password := _password c;
                     _prompt_string := _prompt_string c;
                     connected := connected c; opened := opened c;
                     written := written c; unread := rest;
                     remote := remote c |})
            else (Fails LimitOverrunError, c)
        | None =>
            if (limit <? String.length (unread c) + 1 - String.length sep)%nat
            then (Fails LimitOverrunError, c)
            else (Fails Waits, c)
        end
    end.

Definition set_prompt_string (p : string) : M unit :=
  fun c =>
    (Returns tt,
     {| _username := _username c; _password := _password c;
        _prompt_string := Some p; connected := connected c;
        opened := opened c; written := written c; unread := unread c;
        remote := remote c |}).

Definition set_connected : M unit :=
  fun c =>
    (Returns tt,
     {| _username := _username c; _password := _password c;
        _prompt_string := _prompt_string c; connected := true;
        opened := opened c; written := written c; unread := unread c;
        remote := remote c |}).

Definition lift {A} (o : outcome A) : M A := fun c => (o, c).
Definition get : M t := fun c => (Returns c, c).

(** [l[-1]] of a list that [split] made. *)
Definition last_line (l : list string) : string := List.last l "".

(** [l[1:-1]] *)
Definition inner {A} (l : list A) : list A := removelast (tl l).

(** A [for] over the lines, decoding each. *)
Fixpoint decode_all (data : list string) : outcome (list string) :=
  match data with
  | [] => Returns []
  | line :: data' =>
      match decode_utf8 line with
      | Returns l =>
          match decode_all data' with
          | Returns ls => Returns (l :: ls)
          | Fails f => Fails f
          end
      | Fails f => Fails f
      end
  end.

Definition async_connect : M unit :=
  bind open_connection (fun _ =>
  bind (readuntil (Some "login: ")) (fun _ =>
  bind get (fun c =>
  bind (lift (plus_newline (_username c))) (fun line =>
  bind (lift (encode_ascii line)) (fun data =>
  bind (write data) (fun _ =>
  bind (readuntil (Some "Password: ")) (fun _ =>
  bind get (fun c =>
  bind (lift (plus_newline (_password c))) (fun line =>
  bind (lift (encode_ascii line)) (fun data =>
  bind (write data) (fun _ =>
  bind (readuntil (Some "#")) (fun data =>
  bind (set_prompt_string (last_line (split_nl data))) (fun _ =>
  set_connected))))))))))))).

Definition async_run_command (command : string) : M (list string) :=
  bind get (fun c =>
  bind (if negb (connected c) then async_connect else ret tt) (fun _ =>
  bind (lift (encode_ascii (command +:+ String newline ""))) (fun data =>
  bind (write data) (fun _ =>
  bind get (fun c =>
  bind (readuntil (_prompt_string c)) (fun data =>
  let data := inner (split_nl data) in
  lift (decode_all data))))))).

(** The connection after the dialogue up to the password. *)
Definition after_password (c : t) (user_line pass_line rest2 : string) : t :=
  {| _username := _username c; _password := _password c;
     _prompt_string := _prompt_string c; connected := connected c;
     opened := S (opened c); written := [user_line; pass_line];
     unread := rest2 +:+ answer (remote c) [user_line; pass_line];
     remote := remote c |}.

(** The states of a connection: the one [__init__] makes and those that
    calls of [async_run_command] lead to. *)
Inductive session_state (username password : option string) (r : Remote)
    : t -> Prop :=
| session_made : session_state username password r
                               (__init__ username password r)
| session_used c command :
    session_state username password r c ->
    session_state username password r (async_run_command command c).2.

(** [m], started in a state of [P], returns a value and a state of [Q], or
    fails with a failure and a state of [E]. *)
Definition triple {A} (P : t -> Prop) (m : M A) (Q : A -> t -> Prop)
    (E : failure -> t -> Prop) : Prop :=
  forall c, P c ->
    match m c with
    | (Returns a, c') => Q a c'
    | (Fails f, c') => E f c'
    end.

(** A prompt as [async_connect] takes it: a text without newline that ends
    in [#]. *)
Definition prompt_like (p : option string) : Prop :=
  exists w, p = Some (w +:+ "#") /\ Shape.one_line w = true.

(** What holds of a connection made for [username] and [password] to the
    router [r], and of a failure of one of its calls: the settings stay, a
    connection that is logged in has a prompt, no call fails with
    [ValueError], and none with [TypeError] when there is a user name and a
    password. *)
Definition settled (username password : option string) (r : Remote) (c : t)
    : Prop :=
  _username c = username /\ _password c = password /\ remote c = r /\
  (connected c = true -> prompt_like (_prompt_string c)).

Definition failed (username password : option string) (r : Remote)
    (f : failure) (c : t) : Prop :=
  settled username password r c /\ f <> ValueError /\
  (f = TypeError -> username = None \/ password = None).

End TelnetConnection.

(** ** More routers *)

Module Fixtures2.
Import Py Transport Patterns Asuswrt Fixtures.

(** The home router, for a client that asks for IP addresses. *)
Definition strict_home : @AsusWrt SshConnection.t :=
  __init__ (SshConnection.__init__ (router home)) "router" true
           CHANGE_TIME_CACHE_DEFAULT (fun _ => 0%Z).

(** The home router, for a client in [ap] mode. *)
Definition access_point : @AsusWrt SshConnection.t :=
  __init__ (SshConnection.__init__ (router home)) "ap" false
           CHANGE_TIME_CACHE_DEFAULT (fun _ => 0%Z).

(** A router that knows one wireless station and nothing else about it. *)
Definition one_station (n : nat) (command : string) : list string :=
  if String.eqb command _WL_CMD then ["assoclist 01:02:03:04:05:06"] else [].

Definition wireless_only : @AsusWrt SshConnection.t :=
  client (router one_station) (fun _ => 0%Z).

(** Two readings of the counters at the same reading of the clock. *)
Definition same_instant : @AsusWrt SshConnection.t :=
  client (router (scripted [ ["RX bytes:1000 (1.0 KB)  TX bytes:2000 (2.0 KB)"];
                             ["RX bytes:2000 (2.0 KB)  TX bytes:2500 (2.5 KB)"] ]))
         (fun _ => 0%Z).

(** A stand-in for [convert_size]. *)
Definition in_bytes (n : Z) : result string :=
  Ok (if (n =? 0)%Z then "0 B" else "some B").

(** A router at the other end of a Telnet connection: it asks for the
    login and the password, greets, and answers every command line with an
    echo, one line of the ARP table and its prompt. *)
Definition telnet_prompt : string := "admin@RT-AC68U:/tmp/home/root#".

Definition arp_line : string :=
  "? (192.168.1.5) at aa:bb:cc:dd:ee:ff [ether]  on br0".

Definition telnet_router : TelnetConnection.Remote :=
  {| TelnetConnection.accepts := fun _ => true;
     TelnetConnection.banner := "RT-AC68U login: ";
     TelnetConnection.answer :=
       fun written =>
         match written with
         | [_] => "Password: "
         | [_; _] => unlines [""; "ASUSWRT RT-AC68U"; telnet_prompt]
         | _ => unlines ["arp -n"; arp_line; telnet_prompt]
         end |}.

(** The same, for a user whose prompt ends in a dollar sign. *)
Definition dollar_router : TelnetConnection.Remote :=
  {| TelnetConnection.accepts := fun _ => true;
     TelnetConnection.banner := "RT-AC68U login: ";
     TelnetConnection.answer :=
       fun written =>
         match written with
         | [_] => "Password: "
         | [_; _] => unlines [""; "ASUSWRT RT-AC68U"; "guest@RT-AC68U:~$ "]
         | _ => ""
         end |}.

Definition telnet_session (r : TelnetConnection.Remote) : TelnetConnection.t :=
  TelnetConnection.__init__ (Some "admin") (Some "secret") r.

End Fixtures2.


(** * Proofs *)

#[local] Arguments String.append : simpl nomatch.

(** ** Facts about the floats *)

Section FloatFacts.
Import Py.
Local Open Scope Z_scope.

Lemma digits2_pos_bounds p :
  2 ^ (Zpos (digits2_pos p) - 1) <= Zpos p < 2 ^ Zpos (digits2_pos p).
Proof.
  induction p as [p IH|p IH|]; simpl digits2_pos.
  - rewrite Pos2Z.inj_succ.
    replace (Z.succ (Zpos (digits2_pos p)) - 1) with (Z.succ (Zpos (digits2_pos p) - 1)) by lia.
    rewrite !Z.pow_succ_r by lia. lia.
  - rewrite Pos2Z.inj_succ.
    replace (Z.succ (Zpos (digits2_pos p)) - 1) with (Z.succ (Zpos (digits2_pos p) - 1)) by lia.
    rewrite !Z.pow_succ_r by lia. lia.
  - simpl. lia.
Qed.

Lemma Zdigits2_eq m d :
  2 ^ (d - 1) <= m < 2 ^ d -> 0 < d -> Zdigits2 m = d.
Proof.
  intros [Hlo Hhi] Hd. destruct m as [|p|p].
  - pose proof (Z.pow_pos_nonneg 2 (d - 1)). lia.
  - simpl. pose proof (digits2_pos_bounds p) as [Hl Hh].
    set (k := Zpos (digits2_pos p)) in *.
    assert (k - 1 < d) by (apply (Z.pow_lt_mono_r_iff 2); lia).
    assert (d - 1 < k) by (apply (Z.pow_lt_mono_r_iff 2); lia).
    lia.
  - pose proof (Z.pow_pos_nonneg 2 (d - 1)). lia.
Qed.

Lemma loc_of_shr_record_of_loc m l :
  loc_of_shr_record (shr_record_of_loc m l) = l.
Proof. by destruct l as [|[]]. Qed.

Lemma shr_fexp_53 m e l :
  2 ^ 52 <= m < 2 ^ 53 -> -1000 <= e ->
  shr_fexp prec emax m e l = (shr_record_of_loc m l, e).
Proof.
  intros Hm He. unfold shr_fexp. rewrite (Zdigits2_eq m 53) by lia.
  unfold fexp, SpecFloat.emin, prec, emax.
  replace (Z.max (53 + e - 53) (3 - 1024 - 53) - e) with 0 by lia.
  reflexivity.
Qed.

Lemma shr_fexp_54 m e l :
  2 ^ 53 <= m < 2 ^ 54 -> -1000 <= e ->
  shr_fexp prec emax m e l = (shr_1 (shr_record_of_loc m l), e + 1).
Proof.
  intros Hm He. unfold shr_fexp. rewrite (Zdigits2_eq m 54) by lia.
  unfold fexp, SpecFloat.emin, prec, emax.
  replace (Z.max (54 + e - 53) (3 - 1024 - 53) - e) with 1 by lia.
  reflexivity.
Qed.


(** The last step of [binary_round_aux] on a mantissa of 53 bits, or on
    [2^53]: the value is kept. *)
Lemma renormalize sx m1 e1 :
  2 ^ 52 <= m1 <= 2 ^ 53 -> -1000 <= e1 <= -2 ->
  exists m e,
    (let '(mrs, e) := shr_fexp prec emax m1 e1 loc_Exact in
     match shr_m mrs with
     | Z0 => S754_zero sx
     | Zpos m => if e <=? emax - prec then S754_finite sx m e
                 else S754_infinity sx
     | Zneg _ => S754_nan
     end) = S754_finite sx m e
    /\ e1 <= e <= e1 + 1 /\ Zpos m * 2 ^ (e - e1) = m1.
Proof.
  intros Hm He. destruct (Z.eq_dec m1 (2 ^ 53)) as [->|Hne].
  - rewrite shr_fexp_54 by lia. simpl shr_m.
    exists (2 ^ 52)%positive, (e1 + 1).
    destruct (Z.leb_spec (e1 + 1) (emax - prec)); [|unfold emax, prec in *; lia].
    split; [done|]. split; [lia|].
    replace (e1 + 1 - e1) with 1 by lia. reflexivity.
  - rewrite shr_fexp_53 by lia. simpl shr_m.
    destruct m1 as [|m|m]; [lia| |lia].
    exists m, e1.
    destruct (Z.leb_spec e1 (emax - prec)); [|unfold emax, prec in *; lia].
    split; [done|]. split; [lia|].
    replace (e1 - e1) with 0 by lia. lia.
Qed.

Lemma round_nearest_even_near m l :
  m <= round_nearest_even m l <= m + 1 /\
  (l = loc_Exact -> round_nearest_even m l = m).
Proof.
  destruct l as [|[]]; simpl; try (split; [lia|done]).
  - destruct (Z.even m); split; try lia; done.
Qed.

(** Rounding a mantissa of 53 or 54 bits moves it by one unit at most, and
    not at all when it is even and the location exact. *)
Lemma binary_round_aux_near sx mx ex lx :
  2 ^ 52 <= mx < 2 ^ 54 -> -1000 <= ex <= -3 ->
  exists m e,
    binary_round_aux prec emax sx mx ex lx = S754_finite sx m e /\
    ex <= e <= ex + 2 /\
    mx - 1 <= Zpos m * 2 ^ (e - ex) <= mx + 1 /\
    (lx = loc_Exact -> Z.even mx = true -> Zpos m * 2 ^ (e - ex) = mx).
Proof.
  intros Hm He. unfold binary_round_aux.
  destruct (Z.lt_ge_cases mx (2 ^ 53)) as [Hlt|Hge].
  - rewrite shr_fexp_53 by lia. rewrite loc_of_shr_record_of_loc.
    assert (shr_m (shr_record_of_loc mx lx) = mx) as -> by (by destruct lx as [|[]]).
    pose proof (round_nearest_even_near mx lx) as [Hr Hx].
    destruct (renormalize sx (round_nearest_even mx lx) ex ltac:(lia) ltac:(lia))
      as (m & e & -> & Hee & HV).
    exists m, e. split; [done|]. split; [lia|]. rewrite HV.
    split; [lia|]. intros Hl _. by apply Hx.
  - rewrite shr_fexp_54 by lia.
    destruct mx as [|[q|q|]|]; try lia.
    + (* odd *)
      assert (2 ^ 52 <= Zpos q < 2 ^ 53) as Hq by lia.
      assert (exists l', shr_1 (shr_record_of_loc (Zpos q~1) lx)
                = shr_record_of_loc (Zpos q) l' /\ l' <> loc_Exact) as (l' & -> & _).
      { destruct lx as [|[]]; simpl;
          [exists (loc_Inexact Eq)|exists (loc_Inexact Gt)
          |exists (loc_Inexact Gt)|exists (loc_Inexact Gt)]; done. }
      rewrite loc_of_shr_record_of_loc.
      assert (shr_m (shr_record_of_loc (Zpos q) l') = Zpos q) as ->
        by (by destruct l' as [|[]]).
      pose proof (round_nearest_even_near (Zpos q) l') as [Hr _].
      destruct (renormalize sx (round_nearest_even (Zpos q) l') (ex + 1)
                  ltac:(lia) ltac:(lia)) as (m & e & -> & Hee & HV).
      exists m, e. split; [done|]. split; [lia|].
      replace (e - ex) with (Z.succ (e - (ex + 1))) by lia.
      rewrite Z.pow_succ_r by lia.
      split; [lia|]. intros _ Hev. discriminate Hev.
    + (* even *)
      assert (2 ^ 52 <= Zpos q < 2 ^ 53) as Hq by lia.
      assert (exists l', shr_1 (shr_record_of_loc (Zpos q~0) lx)
                = shr_record_of_loc (Zpos q) l'
                /\ (l' = loc_Exact \/ l' = loc_Inexact Lt)) as (l' & -> & Hl').
      { destruct lx as [|[]]; simpl;
          [exists loc_Exact|exists (loc_Inexact Lt)
          |exists (loc_Inexact Lt)|exists (loc_Inexact Lt)]; auto. }
      rewrite loc_of_shr_record_of_loc.
      assert (shr_m (shr_record_of_loc (Zpos q) l') = Zpos q) as ->
        by (by destruct l' as [|[]]).
      assert (round_nearest_even (Zpos q) l' = Zpos q) as ->
        by (by destruct Hl' as [-> | ->]).
      destruct (renormalize sx (Zpos q) (ex + 1) ltac:(lia) ltac:(lia))
        as (m & e & -> & Hee & HV).
      exists m, e. split; [done|]. split; [lia|].
      replace (e - ex) with (Z.succ (e - (ex + 1))) by lia.
      rewrite Z.pow_succ_r by lia. lia.
Qed.


(** The quotient that [total_seconds] rounds. *)
Lemma total_seconds_quotient p :
  Zpos p < 2 ^ 53 ->
  exists s q r l,
    SFdiv_core_binary prec emax (Zpos p) 0 1000000 0 = (q, - s, l) /\
    20 <= s <= 72 /\
    Zpos p * 2 ^ s = 1000000 * q + r /\ 0 <= r < 1000000 /\
    2 ^ 52 <= q < 2 ^ 54 /\
    (r = 0 -> l = loc_Exact).
Proof.
  intros Hp. pose proof (digits2_pos_bounds p) as [Hlo Hhi].
  set (d := Zpos (digits2_pos p)) in *.
  assert (1 <= d) by (unfold d; lia).
  assert (d <= 53).
  { assert (d - 1 < 53); [|lia]. apply (Z.pow_lt_mono_r_iff 2); lia. }
  unfold SFdiv_core_binary. change (Zdigits2 (Zpos p)) with d.
  change (Zdigits2 1000000) with 20.
  unfold fexp, SpecFloat.emin, prec, emax.
  replace (Z.min (Z.max (d + 0 - (20 + 0) - 53) (3 - 1024 - 53)) (0 - 0))
    with (- (73 - d)) by lia.
  replace (0 - 0 - - (73 - d)) with (73 - d) by lia.
  set (s := 73 - d) in *. assert (20 <= s <= 72) by (unfold s; lia).
  assert (match s with
          | Z0 => Zpos p
          | Zpos _ => Z.shiftl (Zpos p) s
          | Zneg _ => 0
          end = Zpos p * 2 ^ s) as ->.
  { destruct s eqn:Hs; try lia. by rewrite Z.shiftl_mul_pow2. }
  pose proof (Z_div_mod (Zpos p * 2 ^ s) 1000000 ltac:(lia)) as Hdiv.
  destruct (Z.div_eucl (Zpos p * 2 ^ s) 1000000) as [q r].
  destruct Hdiv as [Hq Hr].
  exists s, q, r, (new_location 1000000 r).
  split; [done|]. split; [done|]. split; [done|]. split; [lia|].
  assert (2 ^ 72 <= Zpos p * 2 ^ s < 2 ^ 73) as Hm.
  { replace 72 with ((d - 1) + s) by (unfold s; lia).
    replace 73 with (d + s) by (unfold s; lia).
    rewrite !Z.pow_add_r by lia.
    pose proof (Z.pow_pos_nonneg 2 s ltac:(lia) ltac:(lia)). nia. }
  split; [lia|].
  intros ->. reflexivity.
Qed.

(** For a delta of less than [2^53] microseconds, a whole number of seconds
    exceeds [total_seconds] exactly when it exceeds the delta. *)
Lemma window_in_microseconds (c us : Z) :
  0 <= c -> - 2 ^ 53 < us < 2 ^ 53 ->
  int_gt_float c (total_seconds us) = (us <? c * 1000000).
Proof.
  intros Hc Hus. unfold total_seconds, round_quotient.
  destruct us as [|p|p].
  - simpl. destruct (Z.ltb_spec 0 c), (Z.ltb_spec 0 (c * 1000000)); lia.
  - destruct (total_seconds_quotient p ltac:(lia))
      as (s & q & r & l & -> & Hs & Hq & Hr & Hqb & Hl).
    destruct (binary_round_aux_near false q (- s) l ltac:(lia) ltac:(lia))
      as (m & e & -> & He & HV & Hex).
    unfold int_gt_float. destruct e as [|e'|k] eqn:Hek; try lia.
    set (V := Zpos m * 2 ^ (Zneg k - - s)) in *.
    assert (0 < 2 ^ (Zneg k - - s)) by (apply Z.pow_pos_nonneg; lia).
    assert (2 ^ s = 2 ^ Zpos k * 2 ^ (Zneg k - - s)) as Hpow.
    { rewrite <- Z.pow_add_r by lia. f_equal. lia. }
    assert (2 ^ 20 <= 2 ^ s) by (apply Z.pow_le_mono_r; lia).
    assert (0 < 2 ^ Zpos k) by (apply Z.pow_pos_nonneg; lia).
    destruct (Z.ltb_spec (Zpos p) (c * 1000000)) as [Hlt|Hge].
    + (* the delta is below the window: so is its rounded quotient *)
      apply Z.ltb_lt.
      assert (V < c * 2 ^ s); [|nia].
      assert (q + 1 < c * 2 ^ s); [|lia].
      assert (1000000 * (c * 2 ^ s) - (1000000 * q + r) >= 2 ^ s) by nia.
      nia.
    + apply Z.ltb_ge.
      assert (c * 2 ^ s <= V); [|nia].
      destruct (Z.eq_dec (Zpos p) (c * 1000000)) as [Heq|Hne].
      * assert (1000000 * q + r = 1000000 * (c * 2 ^ s)) as Hx by nia.
        assert (r = 0) as -> by lia.
        assert (q = c * 2 ^ s) as Hqc by lia.
        rewrite Hex; [lia|by apply Hl|].
        rewrite Hqc. replace s with (Z.succ (s - 1)) by lia.
        rewrite Z.pow_succ_r by lia.
        replace (c * (2 * 2 ^ (s - 1))) with (2 * (c * 2 ^ (s - 1))) by lia.
        by rewrite Z.even_mul.
      * assert (q - 1 >= c * 2 ^ s); [|lia].
        assert (1000000 * q + r - 1000000 * (c * 2 ^ s) >= 2 ^ s) by nia.
        nia.
  - destruct (total_seconds_quotient p ltac:(lia))
      as (s & q & r & l & -> & Hs & Hq & Hr & Hqb & Hl).
    destruct (binary_round_aux_near true q (- s) l ltac:(lia) ltac:(lia))
      as (m & e & -> & He & _).
    unfold int_gt_float. destruct e as [|e'|k]; try lia.
    assert (0 < 2 ^ Zpos k) by (apply Z.pow_pos_nonneg; lia).
    destruct (Z.ltb_spec (Zneg m) (c * 2 ^ Zpos k)),
             (Z.ltb_spec (Zneg p) (c * 1000000)); try done; nia.
Qed.

End FloatFacts.

(** ** Facts about the matcher *)

Section MatcherFacts.
Import Re ReSem.
Context {R : Type}.

Lemma orelse_Some (x y : option R) v :
  orelse x y = Some v -> x = Some v \/ y = Some v.
Proof. destruct x; simpl; auto. Qed.

Lemma rep_sound (m : string -> captures -> (string -> captures -> option R) -> option R)
    (M : string -> captures -> string -> captures -> Prop) :
  (forall s e k v, m s e k = Some v -> exists s' e', M s e s' e' /\ k s' e' = Some v) ->
  forall hi lo s e k v,
    rep m lo hi s e k = Some v ->
    exists n s' e', (lo <= n <= hi)%nat /\ Iter M n s e s' e' /\ k s' e' = Some v.
Proof.
  intros Hm. induction hi as [|hi IH]; intros lo s e k v H; simpl in H.
  - destruct lo; [|discriminate]. exists 0%nat, s, e. simpl. auto with lia.
  - apply orelse_Some in H as [H|H].
    + apply Hm in H as (s1 & e1 & HM & H).
      apply IH in H as (n & s' & e' & Hn & HI & Hk).
      exists (S n), s', e'. split; [lia|]. split; [|done].
      simpl. eauto.
    + destruct lo; [|discriminate]. exists 0%nat, s, e. simpl. auto with lia.
Qed.

Lemma many_sound p : forall s lo e (k : string -> captures -> option R) v,
  many p lo s e k = Some v ->
  exists w s', s = w +:+ s' /\ all_in p w /\ (lo <= String.length w)%nat
               /\ k s' e = Some v.
Proof.
  induction s as [|c s IH]; intros lo e k v H; simpl in H.
  - destruct lo; [|discriminate]. exists "", "". simpl. auto with lia.
  - destruct (p c) eqn:Hc.
    + apply orelse_Some in H as [H|H].
      * apply IH in H as (w & s' & -> & Hw & Hl & Hk).
        exists (String c w), s'. simpl. repeat split; auto with lia.
      * destruct lo; [|discriminate]. exists "", (String c s). simpl. auto with lia.
    + destruct lo; [|discriminate]. exists "", (String c s). simpl. auto with lia.
Qed.

(** Whatever the matcher answers, it answers through its continuation, at
    the end of a match of the pattern. *)
Lemma rmatch_sound : forall r s e (k : string -> captures -> option R) v,
  rmatch r s e k = Some v ->
  exists s' e', Match r s e s' e' /\ k s' e' = Some v.
Proof.
  induction r as [|p|r1 IH1 r2 IH2|r1 IH1 r2 IH2|r IH lo hi|p lo|n r IH];
    intros s e k v H; simpl in H.
  - exists s, e. simpl. auto.
  - destruct s as [|c s]; [discriminate|]. destruct (p c) eqn:Hc; [|discriminate].
    exists s, e. simpl. eauto.
  - apply IH1 in H as (s1 & e1 & H1 & H). apply IH2 in H as (s' & e' & H2 & H).
    exists s', e'. simpl. eauto.
  - apply orelse_Some in H as [H|H]; [apply IH1 in H|apply IH2 in H];
      destruct H as (s' & e' & HM & H); exists s', e'; simpl; auto.
  - apply (rep_sound _ (Match r) IH) in H as (n & s' & e' & Hn & HI & Hk).
    exists s', e'. simpl. eauto.
  - apply many_sound in H as (w & s' & -> & Hw & Hl & Hk).
    exists s', e. simpl. eauto 10.
  - apply IH in H as (s' & e' & HM & H). eexists _, _. simpl. eauto.
Qed.

End MatcherFacts.

Section MatchFacts.
Import Re ReSem.

Lemma append_assoc (a b c : string) : (a +:+ b) +:+ c = a +:+ (b +:+ c).
Proof. induction a; simpl; congruence. Qed.

Lemma length_append (a b : string) :
  String.length (a +:+ b) = (String.length a + String.length b)%nat.
Proof. induction a; simpl; congruence. Qed.

Lemma substring_prefix (w s : string) :
  substring 0 (String.length w) (w +:+ s) = w.
Proof.
  induction w as [|c w IH]; simpl.
  - destruct s; reflexivity.
  - congruence.
Qed.

Lemma consumed_app (w s : string) : consumed (w +:+ s) s = w.
Proof.
  unfold consumed. rewrite length_append.
  replace (String.length w + String.length s - String.length s)%nat
    with (String.length w) by lia.
  apply substring_prefix.
Qed.

Lemma Iter_ind_prop (M : string -> captures -> string -> captures -> Prop)
    (P : string -> captures -> string -> captures -> Prop) :
  (forall s e, P s e s e) ->
  (forall s e s1 e1 s2 e2, M s e s1 e1 -> P s1 e1 s2 e2 -> P s e s2 e2) ->
  forall n s e s' e', Iter M n s e s' e' -> P s e s' e'.
Proof.
  intros H0 HS. induction n as [|n IH]; intros s e s' e' H; simpl in H.
  - destruct H as [-> ->]. apply H0.
  - destruct H as (s1 & e1 & H1 & H2). eapply HS; eauto.
Qed.

(** A match reads a prefix of its input. *)
Lemma Match_prefix : forall r s e s' e',
  Match r s e s' e' -> exists w, s = w +:+ s'.
Proof.
  induction r as [|p|r1 IH1 r2 IH2|r1 IH1 r2 IH2|r IH lo hi|p lo|n r IH];
    intros s e s' e' H; simpl in H.
  - destruct H as [-> _]. by exists "".
  - destruct H as (c & -> & _). by exists (String c "").
  - destruct H as (s1 & e1 & H1 & H2).
    apply IH1 in H1 as [w1 ->]. apply IH2 in H2 as [w2 ->].
    exists (w1 +:+ w2). by rewrite append_assoc.
  - destruct H as [H|H]; eauto.
  - destruct H as (n & _ & H). revert H.
    apply (Iter_ind_prop (Match r) (fun s _ s' _ => exists w, s = w +:+ s')).
    + intros. by exists "".
    + intros s0 e0 s1 e1 s2 e2 H1 [w2 ->]. apply IH in H1 as [w1 ->].
      exists (w1 +:+ w2). by rewrite append_assoc.
  - destruct H as (w & -> & _). by exists w.
  - destruct H as (e1 & H & _). eauto.
Qed.

(** A match leaves alone the groups the pattern does not name. *)
Lemma Match_frame g : forall r s e s' e',
  g ∉ group_names r -> Match r s e s' e' -> e' !! g = e !! g.
Proof.
  induction r as [|p|r1 IH1 r2 IH2|r1 IH1 r2 IH2|r IH lo hi|p lo|n r IH];
    intros s e s' e' Hg H; simpl in H, Hg.
  - by destruct H as [_ ->].
  - by destruct H as (c & _ & _ & ->).
  - destruct H as (s1 & e1 & H1 & H2). rewrite elem_of_app in Hg.
    rewrite (IH2 _ _ _ _ ltac:(tauto) H2). apply (IH1 _ _ _ _ ltac:(tauto) H1).
  - rewrite elem_of_app in Hg. destruct H as [H|H]; [eapply IH1|eapply IH2]; eauto.
  - destruct H as (n & _ & H). revert H.
    apply (Iter_ind_prop (Match r) (fun _ e _ e' => e' !! g = e !! g)); [done|].
    intros s0 e0 s1 e1 s2 e2 H1 ->. eauto.
  - by destruct H as (w & _ & _ & _ & ->).
  - destruct H as (e1 & H & ->). rewrite elem_of_cons in Hg.
    rewrite lookup_insert_ne; [|intros ->; tauto]. eapply IH; eauto.
Qed.

(** A match never forgets a group. *)
Lemma Match_keeps g : forall r s e s' e',
  Match r s e s' e' -> is_Some (e !! g) -> is_Some (e' !! g).
Proof.
  induction r as [|p|r1 IH1 r2 IH2|r1 IH1 r2 IH2|r IH lo hi|p lo|n r IH];
    intros s e s' e' H Hg; simpl in H.
  - by destruct H as [_ ->].
  - by destruct H as (c & _ & _ & ->).
  - destruct H as (s1 & e1 & H1 & H2). eauto.
  - destruct H as [H|H]; eauto.
  - destruct H as (n & _ & H). revert H Hg.
    apply (Iter_ind_prop (Match r)
             (fun _ e _ e' => is_Some (e !! g) -> is_Some (e' !! g))); eauto.
  - by destruct H as (w & _ & _ & _ & ->).
  - destruct H as (e1 & H & ->). destruct (decide (n = g)) as [->|Hn].
    + rewrite lookup_insert_eq. eauto.
    + rewrite lookup_insert_ne by done. eauto.
Qed.

Lemma Match_sets g : forall r s e s' e',
  always_sets g r = true -> Match r s e s' e' -> is_Some (e' !! g).
Proof.
  induction r as [|p|r1 IH1 r2 IH2|r1 IH1 r2 IH2|r IH lo hi|p lo|n r IH];
    intros s e s' e' Hg H; simpl in H, Hg; try discriminate.
  - destruct H as (s1 & e1 & H1 & H2). apply orb_true_iff in Hg as [Hg|Hg].
    + eapply Match_keeps; eauto.
    + eauto.
  - apply andb_true_iff in Hg as [Hg1 Hg2]. destruct H as [H|H]; eauto.
  - apply andb_true_iff in Hg as [Hlo Hg].
    destruct H as (n & Hn & H). destruct lo as [|lo]; [discriminate|].
    destruct n as [|n]; [lia|].
    simpl in H. destruct H as (s1 & e1 & H1 & H2).
    apply IH in H1; [|done]. revert H2 H1.
    apply (Iter_ind_prop (Match r)
             (fun _ e _ e' => is_Some (e !! g) -> is_Some (e' !! g)));
      eauto using Match_keeps.
  - destruct H as (e1 & H & ->). apply orb_true_iff in Hg as [Hg|Hg].
    + apply String.eqb_eq in Hg as ->. rewrite lookup_insert_eq. eauto.
    + destruct (decide (n = g)) as [->|Hn].
      * rewrite lookup_insert_eq. eauto.
      * rewrite lookup_insert_ne by done. eauto.
Qed.

(** What a group holds after a match satisfies what its pattern ensures. *)
Lemma Match_group_ok (Q : string -> Prop) g : forall r s e s' e',
  group_ok Q g r -> Match r s e s' e' ->
  (forall v, e !! g = Some v -> Q v) ->
  forall v, e' !! g = Some v -> Q v.
Proof.
  induction r as [|p|r1 IH1 r2 IH2|r1 IH1 r2 IH2|r IH lo hi|p lo|n r IH];
    intros s e s' e' Hok H He; simpl in H, Hok.
  - by destruct H as [_ ->].
  - by destruct H as (c & _ & _ & ->).
  - destruct H as (s1 & e1 & H1 & H2). destruct Hok. eauto.
  - destruct Hok. destruct H as [H|H]; eauto.
  - destruct H as (n & _ & H). revert H He.
    apply (Iter_ind_prop (Match r)
             (fun _ e _ e' => (forall v, e !! g = Some v -> Q v) ->
                              forall v, e' !! g = Some v -> Q v)); eauto.
  - by destruct H as (w & _ & _ & _ & ->).
  - destruct H as (e1 & H & ->). destruct Hok as [Hn Hok].
    intros v. destruct (decide (n = g)) as [->|Hne].
    + rewrite lookup_insert_eq. intros [= <-]. eapply Hn; eauto.
    + rewrite lookup_insert_ne by done. eapply IH; eauto.
Qed.

Lemma search_sound r : forall s e,
  search r s = Some e -> exists s0 s', Match r s0 ∅ s' e.
Proof.
  induction s as [|c s IH]; intros e H; simpl in H.
  - destruct (match_here r "") as [[e0 rest]|] eqn:Hm; [|discriminate].
    injection H as <-. unfold match_here in Hm.
    apply rmatch_sound in Hm as (s' & e' & HM & [= <- <-]). eauto.
  - destruct (match_here r (String c s)) as [[e0 rest]|] eqn:Hm; [|eauto].
    injection H as <-. unfold match_here in Hm.
    apply rmatch_sound in Hm as (s' & e' & HM & [= <- <-]). eauto.
Qed.

Lemma groupdict_lookup r (e : captures) g :
  g ∈ group_names r -> groupdict r e !! g = Some (e !! g).
Proof.
  unfold groupdict. induction (group_names r) as [|n l IH]; intros H.
  - by apply elem_of_nil in H.
  - simpl. destruct (decide (n = g)) as [->|Hn].
    + by rewrite lookup_insert_eq.
    + rewrite lookup_insert_ne by done. apply IH.
      apply elem_of_cons in H as [->|H]; done.
Qed.

Lemma groupdict_lookup_Some r (e : captures) g v :
  groupdict r e !! g = Some v -> v = e !! g.
Proof.
  unfold groupdict. induction (group_names r) as [|n l IH]; simpl.
  - by rewrite lookup_empty.
  - destruct (decide (n = g)) as [->|Hn].
    + rewrite lookup_insert_eq. congruence.
    + by rewrite lookup_insert_ne.
Qed.

End MatchFacts.

(** ** Facts about the fixed patterns *)

Section PatternFacts.
Import Py Re ReSem Patterns Props.

Lemma Iter_exactly M n lo s e s' e' :
  (exists k, (lo <= k <= n)%nat /\ Iter M k s e s' e') -> lo = n ->
  Iter M n s e s' e'.
Proof. intros (k & Hk & H) ->. by replace n with k by lia. Qed.

Lemma Match_two h s e s' e' :
  Match (Rep (Cls h) 2 2) s e s' e' ->
  exists a b, s = String a (String b s') /\ h a = true /\ h b = true /\ e' = e.
Proof.
  intros H. apply Iter_exactly in H; [|done]. simpl in H.
  destruct H as (s1 & e1 & (a & -> & Ha & ->) & s2 & e2 & (b & -> & Hb & ->)
                 & -> & ->).
  eauto 10.
Qed.

Lemma Match_two_sep h s e s' e' :
  Match (Cat (Rep (Cls h) 2 2) (Cls mac_sep)) s e s' e' ->
  exists a b c, s = String a (String b (String c s'))
                /\ h a = true /\ h b = true /\ mac_sep c = true /\ e' = e.
Proof.
  intros (s1 & e1 & H2 & (c & -> & Hc & ->)).
  apply Match_two in H2 as (a & b & -> & Ha & Hb & ->). eauto 10.
Qed.

(** The text matched by the MAC pattern is six pairs from the class, with a
    colon or a dash between two pairs. *)
Lemma mac_pat_shape h s e s' e' :
  Match (mac_pat h) s e s' e' ->
  mac_shape h mac_sep 6 (consumed s s') = true.
Proof.
  unfold mac_pat. intros (s5 & e5 & H5 & H2).
  apply Match_two in H2 as (a6 & b6 & -> & Ha6 & Hb6 & ->).
  apply Iter_exactly in H5; [|done]. cbv beta iota delta [Iter] in H5.
  destruct H5 as (s1 & e1 & H1 & s2 & e2 & H2 & s3 & e3 & H3 & s4 & e4 & H4
                  & s6 & e6 & H5 & Hs & He).
  subst s6 e6.
  apply Match_two_sep in H1 as (a1 & b1 & c1 & -> & Ha1 & Hb1 & Hc1 & ->).
  apply Match_two_sep in H2 as (a2 & b2 & c2 & -> & Ha2 & Hb2 & Hc2 & ->).
  apply Match_two_sep in H3 as (a3 & b3 & c3 & -> & Ha3 & Hb3 & Hc3 & ->).
  apply Match_two_sep in H4 as (a4 & b4 & c4 & -> & Ha4 & Hb4 & Hc4 & ->).
  apply Match_two_sep in H5 as (a5 & b5 & c5 & -> & Ha5 & Hb5 & Hc5 & ->).
  change (String a1 (String b1 (String c1 (String a2 (String b2 (String c2
         (String a3 (String b3 (String c3 (String a4 (String b4 (String c4
         (String a5 (String b5 (String c5 (String a6 (String b6 s')))))))))))))))))
    with ((String a1 (String b1 (String c1 (String a2 (String b2 (String c2
          (String a3 (String b3 (String c3 (String a4 (String b4 (String c4
          (String a5 (String b5 (String c5 (String a6 (String b6 "")))))))))))))))))
          +:+ s').
  rewrite consumed_app. simpl.
  by rewrite Ha1, Hb1, Hc1, Ha2, Hb2, Hc2, Ha3, Hb3, Hc3, Ha4, Hb4, Hc4,
             Ha5, Hb5, Hc5, Ha6, Hb6.
Qed.

Lemma upper_hex_lower c : hex_lower c = true -> hex_upper (upper_char c) = true.
Proof.
  destruct c as [[] [] [] [] [] [] [] []]; vm_compute; congruence.
Qed.

Lemma upper_hex_upper c : hex_upper c = true -> hex_upper (upper_char c) = true.
Proof.
  destruct c as [[] [] [] [] [] [] [] []]; vm_compute; congruence.
Qed.

Lemma upper_mac_sep c : mac_sep c = true -> mac_sep (upper_char c) = true.
Proof.
  destruct c as [[] [] [] [] [] [] [] []]; vm_compute; congruence.
Qed.

Lemma mac_shape_upper (h h' sep : cls) :
  (forall c, h c = true -> h' (upper_char c) = true) ->
  (forall c, sep c = true -> sep (upper_char c) = true) ->
  forall n w, mac_shape h sep n w = true -> mac_shape h' sep n (upper w) = true.
Proof.
  intros Hh Hs. induction n as [|n IH]; intros w H; [done|].
  destruct w as [|a [|b w]]; try done. destruct n as [|n].
  - destruct w; [|done]. simpl in *.
    apply andb_true_iff in H as [Ha Hb]. by rewrite (Hh a), (Hh b).
  - destruct w as [|c w]; [done|]. simpl in H.
    repeat (apply andb_true_iff in H as [H ?]).
    change (upper (String a (String b (String c w))))
      with (String (upper_char a) (String (upper_char b)
              (String (upper_char c) (upper w)))).
    change (h' (upper_char a) && h' (upper_char b) && sep (upper_char c)
            && mac_shape h' sep (S n) (upper w) = true).
    rewrite (Hh a), (Hh b), (Hs c), IH; done.
Qed.

Lemma group_ok_seq Q g rs :
  Forall (group_ok Q g) rs -> group_ok Q g (seq rs).
Proof. induction 1; simpl; auto. Qed.

Lemma group_ok_no_groups Q g r : group_names r = [] -> group_ok Q g r.
Proof.
  induction r; simpl; intros H; auto.
  - apply app_eq_nil in H as [??]. auto.
  - apply app_eq_nil in H as [??]. auto.
  - discriminate.
Qed.

Lemma group_ok_mac Q h :
  (forall w, mac_shape h mac_sep 6 w = true -> Q w) ->
  group_ok Q "mac" (Named "mac" (mac_pat h)).
Proof.
  intros HQ. split.
  - intros _ s e s' e' H. by apply HQ, (mac_pat_shape h s e s' e').
  - by apply group_ok_no_groups.
Qed.

Lemma group_ok_other Q g n r :
  n ≠ g -> group_names r = [] -> group_ok Q g (Named n r).
Proof. intros Hn Hr. split; [done|]. by apply group_ok_no_groups. Qed.

Ltac solve_group_ok :=
  repeat first
    [ apply group_ok_seq
    | apply group_ok_mac; intros ? Hshape; exact Hshape
    | apply group_ok_other; [discriminate|reflexivity]
    | apply group_ok_no_groups; reflexivity
    | constructor ].

Lemma leases_group_ok : group_ok lower_mac "mac" _LEASES_REGEX.
Proof. unfold _LEASES_REGEX. solve_group_ok. Qed.

Lemma wl_group_ok : group_ok upper_mac "mac" _WL_REGEX.
Proof. unfold _WL_REGEX. solve_group_ok. Qed.

Lemma arp_group_ok : group_ok lower_mac "mac" _ARP_REGEX.
Proof. unfold _ARP_REGEX. solve_group_ok. Qed.

Lemma neigh_group_ok : group_ok lower_mac "mac" _IP_NEIGH_REGEX.
Proof.
  unfold _IP_NEIGH_REGEX. solve_group_ok.
Qed.

(** What [search] captured under a name satisfies what the pattern ensures. *)
Lemma search_group_ok Q g r line e v :
  group_ok Q g r -> search r line = Some e -> e !! g = Some v -> Q v.
Proof.
  intros Hok Hs. apply search_sound in Hs as (s0 & s' & HM).
  eapply Match_group_ok; eauto. intros v'. by rewrite lookup_empty.
Qed.

Lemma search_sets g r line e :
  always_sets g r = true -> search r line = Some e -> is_Some (e !! g).
Proof.
  intros Hg Hs. apply search_sound in Hs as (s0 & s' & HM).
  eapply Match_sets; eauto.
Qed.

End PatternFacts.

(** ** The counters pattern and the runs of digits *)

Section DigitRuns.
Import Py Re ReSem Patterns SpecWords.

Lemma span_app p s : (span p s).1 +:+ (span p s).2 = s.
Proof.
  induction s as [|c s IH]; [done|]. simpl. destruct (p c); [|done].
  destruct (span p s) as [w rest]. simpl in *. by rewrite IH.
Qed.

Lemma span_length p s : (String.length (span p s).2 <= String.length s)%nat.
Proof.
  induction s as [|c s IH]; [done|]. simpl. destruct (p c); [|done].
  destruct (span p s) as [w rest]. simpl in *. lia.
Qed.

(** The greedy repetition of a class, before a continuation that always
    accepts, takes the longest run. *)
Lemma many_greedy {R} p : forall s lo e (k : string -> captures -> option R),
  (forall s' e', is_Some (k s' e')) ->
  many p lo s e k =
    if (lo <=? String.length (span p s).1)%nat then k (span p s).2 e else None.
Proof.
  induction s as [|c s IH]; intros lo e k Hk; simpl.
  - by destruct lo.
  - destruct (p c) eqn:Hc.
    + rewrite IH by done. destruct (span p s) as [w rest]. simpl.
      destruct lo as [|lo]; simpl.
      * by destruct (Hk rest e) as [v ->].
      * destruct (lo <=? String.length w)%nat; [|done].
        by destruct (Hk rest e) as [v ->].
    + simpl. by destruct lo.
Qed.

Lemma match_here_ifconfig s :
  match_here _IFCONFIG_REGEX s =
    if (4 <=? String.length (span digit s).1)%nat
    then Some (<["data" := (span digit s).1]> ∅, (span digit s).2)
    else None.
Proof.
  unfold match_here, _IFCONFIG_REGEX. cbn [rmatch].
  rewrite many_greedy by eauto.
  destruct (4 <=? String.length (span digit s).1)%nat; [|done].
  rewrite <- (span_app digit s) at 1. by rewrite consumed_app.
Qed.

Lemma runs_from_span run s :
  runs_from run s
  = (emit (run +:+ (span digit s).1) ++ runs_from "" (span digit s).2)%list.
Proof.
  revert run. induction s as [|c s IH]; intros run; simpl.
  - assert (run +:+ "" = run) as -> by (induction run; simpl; congruence).
    unfold emit at 3. simpl. by rewrite app_nil_r.
  - destruct (digit c) eqn:Hc.
    + rewrite IH. destruct (span digit s) as [w rest]. simpl.
      by rewrite append_assoc.
    + simpl. rewrite Hc.
      assert (run +:+ "" = run) as -> by (induction run; simpl; congruence).
      done.
Qed.

Lemma emit_short run : (String.length run < 4)%nat -> emit run = [].
Proof. unfold emit. intros H. by destruct (Nat.leb_spec 4 (String.length run)); [lia|]. Qed.

Lemma runs_from_skip c s :
  (String.length (span digit (String c s)).1 < 4)%nat ->
  runs_from "" (String c s) = runs_from "" s.
Proof.
  intros Hshort. rewrite (runs_from_span "" (String c s)).
  revert Hshort. simpl. destruct (digit c) eqn:Hc.
  - rewrite (runs_from_span "" s). destruct (span digit s) as [w rest].
    simpl. intros Hshort. rewrite !emit_short by (simpl; lia). done.
  - intros _. simpl. by rewrite Hc.
Qed.

(** [findall] with the counters pattern yields the maximal runs of four
    digits or more. *)
Lemma findall_from_digit_runs : forall fuel s,
  (String.length s < fuel)%nat ->
  findall_from fuel _IFCONFIG_REGEX "data" s = runs_from "" s.
Proof.
  induction fuel as [|fuel IH]; intros s Hlen; [lia|].
  simpl findall_from. rewrite match_here_ifconfig.
  destruct (Nat.leb_spec 4 (String.length (span digit s).1)) as [Hlong|Hshort].
  - rewrite lookup_insert_eq. simpl default.
    pose proof (span_app digit s) as Happ.
    pose proof (span_length digit s) as Hle.
    assert (String.length (span digit s).2 < String.length s)%nat as Hlt.
    { rewrite <- Happ at 2. rewrite length_append. lia. }
    destruct (Nat.ltb_spec (String.length (span digit s).2) (String.length s));
      [|lia].
    rewrite IH by lia. rewrite (runs_from_span "" s). simpl.
    unfold emit. by destruct (Nat.leb_spec 4 (String.length (span digit s).1)); [|lia].
  - destruct s as [|c s]; [done|].
    rewrite IH by (simpl in Hlen; lia). by rewrite runs_from_skip.
Qed.

Lemma findall_digit_runs s :
  findall _IFCONFIG_REGEX "data" s = long_digit_runs s.
Proof. apply findall_from_digit_runs. lia. Qed.

End DigitRuns.

(** ** Facts about the effects and the loops *)

Section EffFacts.
Import Py Eff.
Context {S : Type}.

Lemma bind_Ok {A B} (m : M S A) (f : A -> M S B) s b s' :
  bind m f s = (Ok b, s') ->
  exists a s1, m s = (Ok a, s1) /\ f a s1 = (Ok b, s').
Proof.
  unfold bind. destruct (m s) as [[a|e] s1]; [eauto|discriminate].
Qed.

Lemma lift_Ok {A} (r : result A) (s : S) a s' :
  lift r s = (Ok a, s') -> r = Ok a /\ s' = s.
Proof. unfold lift. by intros [= -> ->]. Qed.

Lemma ret_Ok {A} (x : A) (s : S) a s' :
  ret x s = (Ok a, s') -> a = x /\ s' = s.
Proof. unfold ret. by intros [= -> ->]. Qed.

Lemma bind_eq {A B} (m : M S A) (f : A -> M S B) s a s1 :
  m s = (Ok a, s1) -> bind m f s = f a s1.
Proof. unfold bind. by intros ->. Qed.

Lemma bind_get {B} (f : S -> M S B) s : bind get f s = f s s.
Proof. reflexivity. Qed.

Lemma bind_modify {B} (g : S -> S) (f : unit -> M S B) s :
  bind (modify g) f s = f tt (g s).
Proof. reflexivity. Qed.

Lemma bind_lift_Ok {A B} (x : A) (f : A -> M S B) s :
  bind (lift (Ok x)) f s = f x s.
Proof. reflexivity. Qed.

Lemma fst_Ok {A} (m : M S A) s x :
  (m s).1 = Ok x -> m s = (Ok x, (m s).2).
Proof. destruct (m s) as [r s']. simpl. by intros ->. Qed.

Lemma rbind_Ok {A B} (x : result A) (f : A -> result B) b :
  rbind x f = Ok b -> exists a, x = Ok a /\ f a = Ok b.
Proof. destruct x; simpl; [eauto|discriminate]. Qed.

End EffFacts.

Section LoopFacts.
Import Py Re Patterns Asuswrt Props.

Lemma dict_getitem_Ok {V} (d : gmap string V) k v :
  dict_getitem d k = Ok v -> d !! k = Some v.
Proof. unfold dict_getitem. destruct (d !! k); congruence. Qed.

Lemma upper_of_Ok v k : upper_of v = Ok k -> exists m, v = Some m /\ upper m = k.
Proof. destruct v; simpl; [|discriminate]. intros [= <-]. eauto. Qed.

(** A loop whose rounds either leave the table alone or store one entry
    yields a table of entries stored by some round. *)
Lemma for_each_entries (body : table -> record -> result table)
    (entry : record -> string -> Device -> Prop) :
  (forall acc device acc', body acc device = Ok acc' ->
     acc' = acc \/ exists k d, acc' = <[k := d]> acc /\ entry device k d) ->
  forall records acc t, for_each body records acc = Ok t ->
  forall k d, t !! k = Some d ->
    acc !! k = Some d \/ exists device, device ∈ records /\ entry device k d.
Proof.
  intros Hbody records.
  induction records as [|device records IH]; intros acc t H k d Hk.
  - simpl in H. injection H as <-. auto.
  - simpl in H. apply rbind_Ok in H as (acc' & Hb & H).
    destruct (IH _ _ H _ _ Hk) as [Hacc|(dev & Hin & He)].
    + apply Hbody in Hb as [->|(k' & d' & -> & He)]; [auto|].
      destruct (decide (k' = k)) as [->|Hne].
      * rewrite lookup_insert_eq in Hacc. injection Hacc as ->.
        right. exists device. split; [left|done].
      * rewrite lookup_insert_ne in Hacc by done. auto.
    + right. exists dev. split; [by right|done].
Qed.

Lemma has_mac_intro (device : record) m :
  device !! "mac" = Some (Some m) -> has_mac device (upper m) = true.
Proof. unfold has_mac. intros ->. apply String.eqb_refl. Qed.

Lemma has_mac_elim (device : record) k :
  has_mac device k = true ->
  exists m, device !! "mac" = Some (Some m) /\ upper m = k.
Proof.
  unfold has_mac. destruct (device !! "mac") as [[m|]|]; try discriminate.
  intros H%String.eqb_eq. eauto.
Qed.

Lemma reachable_intro (device : record) st :
  device !! "status" = Some (Some st) -> upper st = "REACHABLE" ->
  reachable device = true.
Proof. unfold reachable. intros -> ->. reflexivity. Qed.

Lemma wl_body_entry acc device acc' :
  wl_body acc device = Ok acc' ->
  acc' = acc \/ exists k d, acc' = <[k := d]> acc /\ wl_entry device k d.
Proof.
  unfold wl_body. intros H.
  apply rbind_Ok in H as (m & Hm%dict_getitem_Ok & H).
  apply rbind_Ok in H as (k & (m' & -> & <-)%upper_of_Ok & [= <-]).
  right. eexists _, _. split; [done|]. split; [|done]. by apply has_mac_intro.
Qed.

Lemma arp_body_entry acc device acc' :
  arp_body acc device = Ok acc' ->
  acc' = acc \/ exists k d, acc' = <[k := d]> acc /\ arp_entry device k d.
Proof.
  unfold arp_body. intros H.
  apply rbind_Ok in H as ([m|] & Hm%dict_getitem_Ok & H).
  - apply rbind_Ok in H as (i & Hi%dict_getitem_Ok & [= <-]).
    right. eexists _, _. split; [done|]. split; [by apply has_mac_intro|eauto].
  - injection H as <-. auto.
Qed.

Lemma neigh_body_entry cur acc device acc' :
  neigh_body cur acc device = Ok acc' ->
  acc' = acc \/ exists k d, acc' = <[k := d]> acc /\ neigh_entry cur device k d.
Proof.
  unfold neigh_body. intros H.
  apply rbind_Ok in H as ([st|] & Hst%dict_getitem_Ok & H);
    [|injection H as <-; auto].
  destruct (String.eqb (upper st) "REACHABLE") eqn:Hr; simpl in H;
    [|injection H as <-; auto].
  apply String.eqb_eq in Hr.
  apply rbind_Ok in H as ([m|] & Hm%dict_getitem_Ok & H);
    [|injection H as <-; auto].
  injection H as <-. right. eexists _, _. split; [done|].
  split; [by eapply reachable_intro|]. split; [by apply has_mac_intro|]. done.
Qed.

Lemma leases_body_entry cur acc device acc' :
  leases_body cur acc device = Ok acc' ->
  acc' = acc \/ exists k d, acc' = <[k := d]> acc /\ leases_entry cur device k d.
Proof.
  unfold leases_body. intros H.
  apply rbind_Ok in H as (host & _ & H).
  apply rbind_Ok in H as (m & Hm%dict_getitem_Ok & H).
  apply rbind_Ok in H as (k & (m' & -> & <-)%upper_of_Ok & H).
  destruct (cur !! upper m') as [o|] eqn:Hcur; [|injection H as <-; auto].
  apply rbind_Ok in H as (i & _ & [= <-]).
  right. eexists _, _. split; [done|].
  split; [by apply has_mac_intro|]. split; [by rewrite Hcur|done].
Qed.

Lemma parsed_record lines regex device :
  device ∈ _parse_lines lines regex ->
  exists line e, line ∈ lines /\ Re.search regex line = Some e
                 /\ device = Re.groupdict regex e.
Proof.
  unfold _parse_lines. intros (line & Hin & H)%list_elem_of_omap.
  destruct (Re.search regex line) as [e|] eqn:Hs; [|discriminate].
  injection H as <-. eauto.
Qed.

End LoopFacts.

(** ** The four sources and their reconciliation *)

Section Reconciler.
Import Py Eff Transport Re ReSem Patterns Asuswrt Props.
Context {conn : Type} `{!Transport conn}.

Abbreviation state := (@AsusWrt conn).

Ltac getter_Ok H :=
  apply bind_Ok in H as ([ls|c] & a1 & Hrun & H);
  [ destruct ls as [|l ls];
    [ apply ret_Ok in H as [-> ->]; exists []; by split
    | simpl in H; apply bind_Ok in H as (ls' & a2 & [[= <-] ->]%lift_Ok & H);
      apply lift_Ok in H as [H ->]; eexists; by split ]
  | simpl in H; apply bind_Ok in H as (ls' & a2 & [[=] _]%lift_Ok & _) ].

Lemma async_get_wl_Ok (a : state) t a' :
  async_get_wl a = (Ok t, a') ->
  exists lines,
    run_command _WL_CMD a = (Ok (Lines lines), a') /\
    for_each wl_body (_parse_lines lines _WL_REGEX) ∅ = Ok t.
Proof. unfold async_get_wl. intros H. getter_Ok H. Qed.

Lemma async_get_arp_Ok (a : state) t a' :
  async_get_arp a = (Ok t, a') ->
  exists lines,
    run_command _ARP_CMD a = (Ok (Lines lines), a') /\
    for_each arp_body (_parse_lines lines _ARP_REGEX) ∅ = Ok t.
Proof. unfold async_get_arp. intros H. getter_Ok H. Qed.

Lemma async_get_neigh_Ok cur (a : state) t a' :
  async_get_neigh cur a = (Ok t, a') ->
  exists lines,
    run_command _IP_NEIGH_CMD a = (Ok (Lines lines), a') /\
    for_each (neigh_body cur) (_parse_lines lines _IP_NEIGH_REGEX) ∅ = Ok t.
Proof. unfold async_get_neigh. intros H. getter_Ok H. Qed.

Lemma async_get_leases_Ok cur (a : state) t a' :
  async_get_leases cur a = (Ok t, a') ->
  exists lines,
    run_command _LEASES_CMD a = (Ok (Lines lines), a') /\
    for_each (leases_body cur)
      (_parse_lines
         (List.filter (fun line => negb (startswith "duid " line)) lines)
         _LEASES_REGEX) ∅ = Ok t.
Proof. unfold async_get_leases. intros H. getter_Ok H. Qed.

(** The entries of each source, traced back to the parsed records. *)
Lemma wl_entries (a : state) t a' :
  async_get_wl a = (Ok t, a') ->
  exists lines,
    run_command _WL_CMD a = (Ok (Lines lines), a') /\
    forall k d, t !! k = Some d ->
      exists device, device ∈ _parse_lines lines _WL_REGEX /\ wl_entry device k d.
Proof.
  intros (lines & Hrun & H)%async_get_wl_Ok. exists lines. split; [done|].
  intros k d Hk.
  destruct (for_each_entries _ _ wl_body_entry _ _ _ H _ _ Hk) as [He|He];
    [by rewrite lookup_empty in He|done].
Qed.

Lemma arp_entries (a : state) t a' :
  async_get_arp a = (Ok t, a') ->
  exists lines,
    run_command _ARP_CMD a = (Ok (Lines lines), a') /\
    forall k d, t !! k = Some d ->
      exists device, device ∈ _parse_lines lines _ARP_REGEX /\ arp_entry device k d.
Proof.
  intros (lines & Hrun & H)%async_get_arp_Ok. exists lines. split; [done|].
  intros k d Hk.
  destruct (for_each_entries _ _ arp_body_entry _ _ _ H _ _ Hk) as [He|He];
    [by rewrite lookup_empty in He|done].
Qed.

Lemma neigh_entries cur (a : state) t a' :
  async_get_neigh cur a = (Ok t, a') ->
  exists lines,
    run_command _IP_NEIGH_CMD a = (Ok (Lines lines), a') /\
    forall k d, t !! k = Some d ->
      exists device, device ∈ _parse_lines lines _IP_NEIGH_REGEX
                     /\ neigh_entry cur device k d.
Proof.
  intros (lines & Hrun & H)%async_get_neigh_Ok. exists lines. split; [done|].
  intros k d Hk.
  destruct (for_each_entries _ _ (neigh_body_entry cur) _ _ _ H _ _ Hk)
    as [He|He]; [by rewrite lookup_empty in He|done].
Qed.

Lemma leases_entries cur (a : state) t a' :
  async_get_leases cur a = (Ok t, a') ->
  exists lines,
    run_command _LEASES_CMD a = (Ok (Lines lines), a') /\
    forall k d, t !! k = Some d ->
      exists device,
        device ∈ _parse_lines
                   (List.filter (fun line => negb (startswith "duid " line)) lines)
                   _LEASES_REGEX
        /\ leases_entry cur device k d.
Proof.
  intros (lines & Hrun & H)%async_get_leases_Ok. exists lines. split; [done|].
  intros k d Hk.
  destruct (for_each_entries _ _ (leases_body_entry cur) _ _ _ H _ _ Hk)
    as [He|He]; [by rewrite lookup_empty in He|done].
Qed.

(** How a run of the reconciler decomposes. *)
Lemma devices_before_leases_Ok (a : state) D a3 :
  devices_before_leases a = (Ok D, a3) ->
  exists wl a1 arp a2 neigh,
    async_get_wl a = (Ok wl, a1) /\
    async_get_arp a1 = (Ok arp, a2) /\
    async_get_neigh (update (update ∅ wl) arp) a2 = (Ok neigh, a3) /\
    D = update (update (update ∅ wl) arp) neigh.
Proof.
  unfold devices_before_leases. intros H.
  apply bind_Ok in H as (wl & a1 & Hwl & H).
  apply bind_Ok in H as (arp & a2 & Harp & H).
  apply bind_Ok in H as (neigh & a3' & Hneigh & H).
  apply ret_Ok in H as [-> ->]. eauto 10.
Qed.

Lemma async_get_connected_devices_Ok (a : state) T a' :
  async_get_connected_devices a = (Ok T, a') ->
  exists D a3,
    devices_before_leases a = (Ok D, a3) /\
    (T = filter (fun kv => keep (require_ip a3) kv.2 = true) D
     \/ exists L, async_get_leases D a3 = (Ok L, a')
                  /\ T = filter (fun kv => keep (require_ip a3) kv.2 = true)
                           (update D L)).
Proof.
  unfold async_get_connected_devices. intros H.
  apply bind_Ok in H as (D & a3 & HD & H).
  apply bind_Ok in H as (a3' & a3'' & [= <- <-] & H).
  apply bind_Ok in H as (D' & a4 & Hl & H).
  apply ret_Ok in H as [-> ->]. exists D, a3. split; [done|].
  destruct (negb (String.eqb (mode a3) "ap")).
  - apply bind_Ok in Hl as (L & a5 & HL & Hl).
    apply ret_Ok in Hl as [-> ->]. right. eauto.
  - apply ret_Ok in Hl as [-> ->]. by left.
Qed.

Lemma update_lookup_Some (devices new : table) k d :
  update devices new !! k = Some d -> new !! k = Some d \/ devices !! k = Some d.
Proof.
  unfold update. intros H%lookup_union_Some_raw. tauto.
Qed.

Lemma filter_lookup_Some (P : string * Device -> Prop) `{!forall x, Decision (P x)}
    (t : table) k d :
  filter P t !! k = Some d -> t !! k = Some d.
Proof. intros Hf%map_lookup_filter_Some. tauto. Qed.

(** *** Keys and [mac] fields *)

Lemma keyed_by_mac_update devices new :
  keyed_by_mac devices -> keyed_by_mac new -> keyed_by_mac (update devices new).
Proof. intros H1 H2 k d [H|H]%update_lookup_Some; eauto. Qed.

Lemma wl_keyed (a : state) t a' :
  async_get_wl a = (Ok t, a') -> keyed_by_mac t.
Proof.
  intros (lines & _ & H)%wl_entries k d Hk.
  by destruct (H _ _ Hk) as (device & _ & _ & ->).
Qed.

Lemma arp_keyed (a : state) t a' :
  async_get_arp a = (Ok t, a') -> keyed_by_mac t.
Proof.
  intros (lines & _ & H)%arp_entries k d Hk.
  by destruct (H _ _ Hk) as (device & _ & _ & i & _ & ->).
Qed.

Lemma neigh_keyed cur (a : state) t a' :
  async_get_neigh cur a = (Ok t, a') -> keyed_by_mac t.
Proof.
  intros (lines & _ & H)%neigh_entries k d Hk.
  by destruct (H _ _ Hk) as (device & _ & _ & _ & ->).
Qed.

Lemma leases_keyed cur (a : state) t a' :
  async_get_leases cur a = (Ok t, a') -> keyed_by_mac t.
Proof.
  intros (lines & _ & H)%leases_entries k d Hk.
  by destruct (H _ _ Hk) as (device & _ & _ & _ & ?).
Qed.

Lemma before_leases_keyed (a : state) D a' :
  devices_before_leases a = (Ok D, a') -> keyed_by_mac D.
Proof.
  intros (wl & a1 & arp & a2 & neigh & Hwl & Harp & Hn & ->)%devices_before_leases_Ok.
  repeat apply keyed_by_mac_update;
    eauto using wl_keyed, arp_keyed, neigh_keyed.
  intros k d. by rewrite lookup_empty.
Qed.

(** C10. In the mapping returned by [async_get_connected_devices] and in
    the mapping returned by each of [async_get_wl], [async_get_arp],
    [async_get_neigh] and [async_get_leases], every key equals the [mac]
    field of the [Device] stored under it. *)
Theorem keys_are_mac_fields (a : state) :
  (forall t, (async_get_wl a).1 = Ok t -> keyed_by_mac t) /\
  (forall t, (async_get_arp a).1 = Ok t -> keyed_by_mac t) /\
  (forall cur t, (async_get_neigh cur a).1 = Ok t -> keyed_by_mac t) /\
  (forall cur t, (async_get_leases cur a).1 = Ok t -> keyed_by_mac t) /\
  (forall t, (async_get_connected_devices a).1 = Ok t -> keyed_by_mac t).
Proof.
  split_and!.
  - intros t Ht%fst_Ok. eauto using wl_keyed.
  - intros t Ht%fst_Ok. eauto using arp_keyed.
  - intros cur t Ht%fst_Ok. eauto using neigh_keyed.
  - intros cur t Ht%fst_Ok. eauto using leases_keyed.
  - intros t Ht%fst_Ok.
    apply async_get_connected_devices_Ok in Ht
      as (D & a3 & HD & [->|(L & HL & ->)]); intros k d Hk%filter_lookup_Some.
    + eapply before_leases_keyed; eauto.
    + eapply (keyed_by_mac_update D L);
        eauto using before_leases_keyed, leases_keyed.
Qed.

(** *** Leases *)

Lemma leases_known cur (a : state) L a' k :
  async_get_leases cur a = (Ok L, a') -> cur !! k = None -> L !! k = None.
Proof.
  intros (lines & _ & H)%leases_entries Hcur.
  destruct (L !! k) as [d|] eqn:Hk; [|done].
  destruct (H _ _ Hk) as (device & _ & _ & [o Ho] & _). congruence.
Qed.

Lemma connected_keys_known (a : state) D a3 T a' k :
  devices_before_leases a = (Ok D, a3) ->
  async_get_connected_devices a = (Ok T, a') ->
  D !! k = None ->
  T !! k = None.
Proof.
  intros HD (D' & a3' & HD' & HT)%async_get_connected_devices_Ok Hk.
  rewrite HD in HD'. injection HD' as <- <-.
  destruct (T !! k) as [d|] eqn:HTk; [exfalso|done].
  destruct HT as [->|(L & HL & ->)]; apply filter_lookup_Some in HTk.
  - congruence.
  - apply update_lookup_Some in HTk as [HLk|HDk]; [|congruence].
    rewrite (leases_known _ _ _ _ _ HL Hk) in HLk. discriminate.
Qed.

(** C2. A lease cannot create a device: a MAC address that is not a key of
    the table built from the wireless, ARP and IP-neighbor steps is not a
    key of the table [async_get_connected_devices] returns, whatever the
    lease file holds. *)
Theorem lease_alone_creates_no_device (a : state) D T k :
  (devices_before_leases a).1 = Ok D ->
  (async_get_connected_devices a).1 = Ok T ->
  D !! k = None ->
  T !! k = None.
Proof. intros HD%fst_Ok HT%fst_Ok. eapply connected_keys_known; eauto. Qed.

End Reconciler.

(** ** Where the keys and the IP addresses of the table come from *)

Section Provenance.
Import Py Eff Transport Re ReSem Patterns Asuswrt Props.
Context {conn : Type} `{!Transport conn}.

Abbreviation state := (@AsusWrt conn).

(** The key made from a captured MAC address. *)
Lemma parsed_mac_upper (Q : string -> Prop) lines regex device k :
  group_ok Q "mac" regex ->
  (forall m, Q m -> upper_mac (upper m)) ->
  device ∈ _parse_lines lines regex -> has_mac device k = true -> upper_mac k.
Proof.
  intros Hok HQ (line & e & _ & Hs & ->)%parsed_record
         (m & Hm%groupdict_lookup_Some & <-)%has_mac_elim.
  eapply HQ, search_group_ok; eauto.
Qed.

Lemma lower_mac_upper m : lower_mac m -> upper_mac (upper m).
Proof. apply mac_shape_upper; auto using upper_hex_lower, upper_mac_sep. Qed.

Lemma upper_mac_upper m : upper_mac m -> upper_mac (upper m).
Proof. apply mac_shape_upper; auto using upper_hex_upper, upper_mac_sep. Qed.

Lemma wl_keys_upper (a : state) t a' k :
  async_get_wl a = (Ok t, a') -> is_Some (t !! k) -> upper_mac k.
Proof.
  intros (lines & _ & H)%wl_entries [d Hk].
  destruct (H _ _ Hk) as (device & Hin & Hmac & _).
  eapply parsed_mac_upper; eauto using wl_group_ok, upper_mac_upper.
Qed.

Lemma arp_keys_upper (a : state) t a' k :
  async_get_arp a = (Ok t, a') -> is_Some (t !! k) -> upper_mac k.
Proof.
  intros (lines & _ & H)%arp_entries [d Hk].
  destruct (H _ _ Hk) as (device & Hin & Hmac & _).
  eapply parsed_mac_upper; eauto using arp_group_ok, lower_mac_upper.
Qed.

Lemma neigh_keys_upper cur (a : state) t a' k :
  async_get_neigh cur a = (Ok t, a') -> is_Some (t !! k) -> upper_mac k.
Proof.
  intros (lines & _ & H)%neigh_entries [d Hk].
  destruct (H _ _ Hk) as (device & Hin & _ & Hmac & _).
  eapply parsed_mac_upper; eauto using neigh_group_ok, lower_mac_upper.
Qed.

Lemma leases_keys_upper cur (a : state) t a' k :
  async_get_leases cur a = (Ok t, a') -> is_Some (t !! k) -> upper_mac k.
Proof.
  intros (lines & _ & H)%leases_entries [d Hk].
  destruct (H _ _ Hk) as (device & Hin & Hmac & _).
  eapply parsed_mac_upper; eauto using leases_group_ok, lower_mac_upper.
Qed.

Lemma before_leases_keys_upper (a : state) D a' k :
  devices_before_leases a = (Ok D, a') -> is_Some (D !! k) -> upper_mac k.
Proof.
  intros (wl & a1 & arp & a2 & neigh & Hwl & Harp & Hn & ->)%devices_before_leases_Ok
         [d Hk].
  apply update_lookup_Some in Hk as [Hk|Hk];
    [by eapply neigh_keys_upper; eauto|].
  apply update_lookup_Some in Hk as [Hk|Hk];
    [by eapply arp_keys_upper; eauto|].
  apply update_lookup_Some in Hk as [Hk|Hk];
    [by eapply wl_keys_upper; eauto|].
  by rewrite lookup_empty in Hk.
Qed.

(** C4, as the code has it. Every key of the table returned by
    [async_get_connected_devices] is six pairs of upper-case hex digits; the
    character between two pairs is the colon or the dash of the router's
    output, kept as it was. *)
Theorem keys_are_upper_case_macs (a : state) T k :
  (async_get_connected_devices a).1 = Ok T ->
  is_Some (T !! k) ->
  upper_mac k.
Proof.
  intros HT%fst_Ok.
  apply async_get_connected_devices_Ok in HT
    as (D & a3 & HD & [->|(L & HL & ->)]); intros [d Hk%filter_lookup_Some].
  - eapply before_leases_keys_upper; eauto.
  - apply update_lookup_Some in Hk as [Hk|Hk].
    + eapply leases_keys_upper; eauto.
    + eapply before_leases_keys_upper; eauto.
Qed.

(** *** The IP-neighbor step *)

Lemma neigh_always_has_ip : always_sets "ip" _IP_NEIGH_REGEX = true.
Proof. reflexivity. Qed.

Lemma neigh_record_ip lines device :
  device ∈ _parse_lines lines _IP_NEIGH_REGEX ->
  exists i, device !! "ip" = Some (Some i).
Proof.
  intros (line & e & _ & Hs & ->)%parsed_record.
  destruct (search_sets "ip" _ _ _ neigh_always_has_ip Hs) as [i Hi].
  exists i. rewrite groupdict_lookup, Hi; [done|].
  unfold _IP_NEIGH_REGEX. simpl. set_solver.
Qed.


(** C7. Only the records whose status reads REACHABLE, in any case, put
    entries in the table of the IP-neighbor step; and a MAC address that the
    wireless list and the ARP table do not show, and that no REACHABLE
    record of the IP-neighbor output carries, is not a key of the table
    [async_get_connected_devices] returns. *)
Theorem only_reachable_neighbours_count (a : state) :
  (forall cur t a', async_get_neigh cur a = (Ok t, a') ->
     exists lines,
       run_command _IP_NEIGH_CMD a = (Ok (Lines lines), a') /\
       forall k, is_Some (t !! k) ->
         exists device, device ∈ _parse_lines lines _IP_NEIGH_REGEX /\
                        reachable device = true /\ has_mac device k = true) /\
  (forall wl a1 arp a2 lines a3 T a' k,
     async_get_wl a = (Ok wl, a1) ->
     async_get_arp a1 = (Ok arp, a2) ->
     run_command _IP_NEIGH_CMD a2 = (Ok (Lines lines), a3) ->
     async_get_connected_devices a = (Ok T, a') ->
     wl !! k = None ->
     arp !! k = None ->
     existsb (fun device => has_mac device k && reachable device)
       (_parse_lines lines _IP_NEIGH_REGEX) = false ->
     T !! k = None).
Proof.
  split.
  - intros cur t a' (lines & Hrun & H)%neigh_entries. exists lines.
    split; [done|]. intros k [d Hk].
    destruct (H _ _ Hk) as (device & Hin & Hr & Hm & _). eauto.
  - intros wl a1 arp a2 lines a3 T a' k Hwl Harp Hrun HT Hkw Hka Hnone.
    pose proof HT as (D & a3' & HD & _)%async_get_connected_devices_Ok.
    apply (connected_keys_known a D a3' T a' k HD HT).
    apply devices_before_leases_Ok in HD
      as (wl' & a1' & arp' & a2' & neigh & Hwl' & Harp' & Hn & ->).
    rewrite Hwl in Hwl'. injection Hwl' as <- <-.
    rewrite Harp in Harp'. injection Harp' as <- <-.
    apply neigh_entries in Hn as (lines' & Hrun' & Hn).
    rewrite Hrun in Hrun'. injection Hrun' as <- <-.
    destruct (update _ neigh !! k) as [d|] eqn:Hk; [exfalso|done].
    apply update_lookup_Some in Hk as [Hk|Hk].
    + destruct (Hn _ _ Hk) as (device & Hin & Hr & Hm & _).
      apply not_true_iff_false in Hnone. apply Hnone.
      apply existsb_exists. exists device.
      split; [by apply list_elem_of_In|]. by rewrite Hm, Hr.
    + apply update_lookup_Some in Hk as [Hk|Hk]; [congruence|].
      apply update_lookup_Some in Hk as [Hk|Hk]; [congruence|].
      by rewrite lookup_empty in Hk.
Qed.

End Provenance.

(** ** The counter cache and the rate estimator *)

Section Counters.
Import Py Eff Transport Re Patterns Asuswrt SpecWords.
Context {conn : Type} `{!Transport conn}.

Abbreviation state := (@AsusWrt conn).

Lemma packets_total_hit (a : state) use_cache :
  cache_is_fresh use_cache a (next_reading a) = true ->
  async_get_packets_total use_cache a = (Ok (_transfer_rates_cache a), tick a).
Proof.
  intros H. unfold async_get_packets_total, utcnow, bind, get, modify, ret.
  simpl. change (cache_is_fresh use_cache (tick a) (next_reading a))
    with (cache_is_fresh use_cache a (next_reading a)).
  by rewrite H.
Qed.

Lemma packets_total_miss (a : state) use_cache line rest a1 :
  cache_is_fresh use_cache a (next_reading a) = false ->
  run_command _IFCONFIG_CMD (tick a) = (Ok (Lines (line :: rest)), a1) ->
  let totals := map int_of_str (findall _IFCONFIG_REGEX "data" line) in
  async_get_packets_total use_cache a =
    (Ok (Some totals),
     set_trans_cache_timer (next_reading a) (set_transfer_rates_cache totals a1)).
Proof.
  intros H Hrun. unfold async_get_packets_total, utcnow, bind, get, modify, ret.
  simpl. change (cache_is_fresh use_cache (tick a) (next_reading a))
    with (cache_is_fresh use_cache a (next_reading a)).
  rewrite H, Hrun. reflexivity.
Qed.

Lemma run_command_frame (a : state) command r a1 :
  run_command command a = (r, a1) ->
  a1 = set_connection (connection a1) a.
Proof.
  unfold run_command. destruct (async_run_command command (connection a)).
  by intros [= <- <-].
Qed.

(** What [async_get_packets_total] returns is what the cache holds
    afterwards, and the call leaves the estimator's snapshot alone. *)
Lemma packets_total_Ok (a : state) use_cache r a1 :
  async_get_packets_total use_cache a = (Ok r, a1) ->
  _transfer_rates_cache a1 = r /\
  _rx_latest a1 = _rx_latest a /\ _tx_latest a1 = _tx_latest a /\
  _latest_transfer_check a1 = _latest_transfer_check a /\
  _cache_time a1 = _cache_time a /\
  clock a1 = clock a /\ clock_reads a1 = S (clock_reads a) /\
  is_Some (_trans_cache_timer a1).
Proof.
  destruct (cache_is_fresh use_cache a (next_reading a)) eqn:Hf.
  - rewrite (packets_total_hit _ _ Hf). intros [= <- <-]. simpl.
    split_and!; try done. unfold cache_is_fresh in Hf.
    destruct (_trans_cache_timer a); [eauto|].
    by rewrite andb_false_r in Hf.
  - unfold async_get_packets_total, utcnow, bind, get, modify, ret. simpl.
    change (cache_is_fresh use_cache (tick a) (next_reading a))
      with (cache_is_fresh use_cache a (next_reading a)).
    rewrite Hf.
    destruct (run_command _IFCONFIG_CMD (tick a)) as [[o|e] a2] eqn:Hrun;
      [|discriminate].
    apply run_command_frame in Hrun.
    unfold lift. destruct (first_line o) as [line|e]; [|discriminate].
    intros [= <- <-]. rewrite Hrun. simpl. split_and!; eauto.
Qed.

(** The window test of the code, in microseconds. *)
Lemma cache_is_fresh_window (a : state) use_cache now :
  (0 <= _cache_time a)%Z ->
  cache_is_fresh use_cache a now =
    use_cache &&
    match _trans_cache_timer a with
    | Some timer =>
        if decide (- 2 ^ 53 < now - timer < 2 ^ 53)%Z
        then (now - timer <? _cache_time a * 1000000)%Z
        else int_gt_float (_cache_time a) (total_seconds (now - timer))
    | None => false
    end.
Proof.
  intros Hc. unfold cache_is_fresh. destruct (_trans_cache_timer a); [|done].
  destruct (decide _); [|done]. by rewrite window_in_microseconds.
Qed.


(** C8, as the code has it. When [async_get_packets_total] runs the
    command, the totals are the four-or-more-digit tokens of the first line
    of the output, the other lines are not read; when that line holds two
    tokens or more, [async_get_rx] is the first and [async_get_tx] the
    second. *)
Theorem totals_from_first_line (a : state) (use_cache : bool) line rest a1 :
  cache_is_fresh use_cache a (next_reading a) = false ->
  run_command _IFCONFIG_CMD (tick a) = (Ok (Lines (line :: rest)), a1) ->
  (async_get_packets_total use_cache a).1
    = Ok (Some (map int_of_str (long_digit_runs line))) /\
  forall rx tx more,
    map int_of_str (long_digit_runs line) = rx :: tx :: more ->
    (async_get_rx use_cache a).1 = Ok rx /\
    (async_get_tx use_cache a).1 = Ok tx.
Proof.
  intros Hf Hrun.
  pose proof (packets_total_miss a use_cache line rest a1 Hf Hrun) as Ht.
  simpl in Ht. rewrite findall_digit_runs in Ht. split; [by rewrite Ht|].
  intros rx tx more Hm. unfold async_get_rx, async_get_tx, bind.
  rewrite Ht, Hm. done.
Qed.

Lemma subscript_Ok {A} (data : option (list A)) i x :
  subscript data i = Ok x -> exists l, data = Some l /\ l !! i = Some x.
Proof.
  destruct data as [l|]; [|discriminate]. unfold subscript, getitem.
  destruct (l !! i) eqn:Hl; [|discriminate]. intros [= <-]. eauto.
Qed.

Lemma rate_of_no_increase d time_diff : (d <= 0)%Z -> rate d time_diff = Ok 0%Z.
Proof.
  intros Hd. unfold rate. by destruct (Z.ltb_spec 0 d); [lia|].
Qed.

Lemma subscript_Some {A} (l : list A) i x :
  l !! i = Some x -> subscript (Some l) i = Ok x.
Proof. unfold subscript, getitem. by intros ->. Qed.

Lemma bind_utcnow {B} (f : Z -> M state B) (a : state) :
  bind utcnow f a = f (next_reading a) (tick a).
Proof. reflexivity. Qed.

(** A positive delta over no time at all: [float division by zero]. *)
Example rate_over_no_time : rate 1 0 = Raise ZeroDivisionError.
Proof. reflexivity. Qed.

Lemma rates_first_call (a : state) use_cache data a1 d0 d1 :
  async_get_packets_total use_cache (tick a) = (Ok (Some data), a1) ->
  data !! 0%nat = Some d0 -> data !! 1%nat = Some d1 ->
  _rx_latest a = None \/ _tx_latest a = None ->
  async_get_current_transfer_rates use_cache a
    = (Ok None,
       set_tx_latest d1 (set_rx_latest d0
         (set_latest_transfer_check (next_reading a) a1))).
Proof.
  intros Ht H0 H1 Hnone.
  destruct (packets_total_Ok _ _ _ _ Ht) as (_ & Hrx & Htx & _).
  change (_rx_latest (tick a)) with (_rx_latest a) in Hrx.
  change (_tx_latest (tick a)) with (_tx_latest a) in Htx.
  unfold async_get_current_transfer_rates.
  rewrite bind_utcnow, (bind_eq _ _ _ _ _ Ht), bind_get, Hrx, Htx.
  assert (forall s : state,
    (modify (set_latest_transfer_check (next_reading a));;
     let! d0 := lift (subscript (Some data) 0) in
     modify (set_rx_latest d0);;
     let! d1 := lift (subscript (Some data) 1) in
     modify (set_tx_latest d1);; ret None)%eff s
    = (Ok (None : option (Z * Z)),
       set_tx_latest d1 (set_rx_latest d0
         (set_latest_transfer_check (next_reading a) s)))) as Hfirst.
  { intros s. rewrite bind_modify, (subscript_Some _ _ _ H0), bind_lift_Ok,
      bind_modify, (subscript_Some _ _ _ H1), bind_lift_Ok, bind_modify.
    reflexivity. }
  destruct Hnone as [-> | ->]; [apply Hfirst|].
  destruct (_rx_latest a); apply Hfirst.
Qed.

Lemma rates_later_call (a : state) use_cache data a1 d0 d1 rx0 tx0 t0 r t :
  async_get_packets_total use_cache (tick a) = (Ok (Some data), a1) ->
  data !! 0%nat = Some d0 -> data !! 1%nat = Some d1 ->
  _rx_latest a = Some rx0 -> _tx_latest a = Some tx0 ->
  _latest_transfer_check a = Some t0 ->
  rate (d0 - rx0) (next_reading a - t0) = Ok r ->
  rate (d1 - tx0) (next_reading a - t0) = Ok t ->
  async_get_current_transfer_rates use_cache a
    = (Ok (Some (r, t)),
       set_tx_latest d1 (set_rx_latest d0
         (set_latest_transfer_check (next_reading a) a1))).
Proof.
  intros Ht H0 H1 Hrx0 Htx0 Ht0 Hr Hrt.
  destruct (packets_total_Ok _ _ _ _ Ht) as (_ & Hrx & Htx & Hc & _).
  change (_rx_latest (tick a)) with (_rx_latest a) in Hrx.
  change (_tx_latest (tick a)) with (_tx_latest a) in Htx.
  change (_latest_transfer_check (tick a)) with (_latest_transfer_check a) in Hc.
  unfold async_get_current_transfer_rates.
  rewrite bind_utcnow, (bind_eq _ _ _ _ _ Ht), bind_get, Hrx, Htx, Hrx0, Htx0,
    Hc, Ht0.
  rewrite bind_lift_Ok, bind_modify, (subscript_Some _ _ _ H0), bind_lift_Ok,
    (subscript_Some _ _ _ H1), !bind_lift_Ok, bind_modify, bind_lift_Ok,
    bind_modify, Hr, bind_lift_Ok, Hrt, bind_lift_Ok.
  reflexivity.
Qed.

(** What a successful call of the estimator leaves behind: the snapshot is
    the head of the cached totals. *)
Lemma rates_Ok (a : state) use_cache res a2 :
  async_get_current_transfer_rates use_cache a = (Ok res, a2) ->
  exists data d0 d1 now,
    _transfer_rates_cache a2 = Some data /\
    data !! 0%nat = Some d0 /\ data !! 1%nat = Some d1 /\
    _rx_latest a2 = Some d0 /\ _tx_latest a2 = Some d1 /\
    _latest_transfer_check a2 = Some now /\
    _trans_cache_timer a2 <> None /\
    clock a2 = clock a /\ clock_reads a2 = S (S (clock_reads a)).
Proof.
  unfold async_get_current_transfer_rates. intros H.
  apply bind_Ok in H as (now & a0 & Hnow & H).
  unfold utcnow, bind, get, modify, ret in Hnow. simpl in Hnow.
  injection Hnow as <- <-.
  apply bind_Ok in H as (data & a1 & Ht & H).
  destruct (packets_total_Ok _ _ _ _ Ht)
    as (Hcache & _ & _ & _ & _ & Hck & Hcr & Hti).
  apply bind_Ok in H as (a1' & a1'' & [= <- <-] & H).
  assert (is_Some (_trans_cache_timer a1) -> _trans_cache_timer a1 <> None)
    as Hne by (intros [? ->]; done).
  destruct (_rx_latest a1) as [rx0|], (_tx_latest a1) as [tx0|];
    repeat (let x := fresh "x" in let s := fresh "s" in let Hx := fresh "Hx" in
            apply bind_Ok in H as (x & s & Hx & H);
            first [ apply lift_Ok in Hx as [Hx ->]
                  | unfold modify in Hx; injection Hx as <- ]);
    apply ret_Ok in H as [_ ->];
    repeat match goal with
           | Hs : subscript data _ = Ok _ |- _ =>
               apply subscript_Ok in Hs as (? & ? & ?)
           end;
    simplify_eq; eexists _, _, _, _; simpl;
    (split_and!; [done|eassumption|eassumption|done|done|done|auto|done|done]).
Qed.

(** C9. After a call of [async_get_current_transfer_rates] that returned,
    a call with [use_cache] set that falls within the cache window (a whole
    number of seconds, the timestamps less than [2^53] microseconds apart)
    is served from the cache: it reads the totals the first call read, both
    deltas are zero and it returns (0, 0), whatever the router has
    transferred in between. *)
Theorem second_call_within_window_reads_zero (a : state) use_cache res a1 timer :
  let now := clock a1 (S (clock_reads a1)) in
  async_get_current_transfer_rates use_cache a = (Ok res, a1) ->
  (0 <= _cache_time a1)%Z ->
  _trans_cache_timer a1 = Some timer ->
  (- 2 ^ 53 < now - timer < 2 ^ 53)%Z ->
  (now - timer < _cache_time a1 * 1000000)%Z ->
  (async_get_current_transfer_rates true a1).1 = Ok (Some (0, 0)%Z).
Proof.
  intros now
    (data & d0 & d1 & t & Hcache & H0 & H1 & Hrx & Htx & Hck & _)%rates_Ok
    Hc Ht Hb Hw.
  assert (cache_is_fresh true (tick a1) (next_reading (tick a1)) = true)
    as Hfresh.
  { rewrite cache_is_fresh_window by done.
    change (_trans_cache_timer (tick a1)) with (_trans_cache_timer a1).
    change (_cache_time (tick a1)) with (_cache_time a1).
    change (next_reading (tick a1)) with now. rewrite Ht.
    destruct (decide _); [|done]. by apply Z.ltb_lt. }
  pose proof (packets_total_hit (tick a1) true Hfresh) as Hhit.
  change (_transfer_rates_cache (tick a1)) with (_transfer_rates_cache a1) in Hhit.
  rewrite Hcache in Hhit.
  erewrite (rates_later_call a1 true data _ d0 d1 d0 d1 t 0%Z 0%Z);
    eauto using rate_of_no_increase with lia.
Qed.

(** C1, as the code has it. On a call that finds no snapshot,
    [async_get_current_transfer_rates] returns nothing and stores the totals
    and the time. On a later call it returns, for each direction, [rate] of
    the byte delta and the time since the previous call: zero when the delta
    is not positive, otherwise [math.ceil] of the double-precision quotient
    of the delta by the elapsed seconds; so 1000 and 500 bytes in 2 s give
    500 and 250, and -1500 and 100 bytes in 1 s give 0 and 100. *)
Theorem transfer_rates (a : state) use_cache data a1 d0 d1 :
  let now := next_reading a in
  let stored :=
    set_tx_latest d1 (set_rx_latest d0 (set_latest_transfer_check now a1)) in
  async_get_packets_total use_cache (tick a) = (Ok (Some data), a1) ->
  data !! 0%nat = Some d0 -> data !! 1%nat = Some d1 ->
  (_rx_latest a = None \/ _tx_latest a = None ->
   async_get_current_transfer_rates use_cache a = (Ok None, stored)) /\
  (forall rx0 tx0 t0 r t,
     _rx_latest a = Some rx0 -> _tx_latest a = Some tx0 ->
     _latest_transfer_check a = Some t0 ->
     rate (d0 - rx0) (now - t0) = Ok r ->
     rate (d1 - tx0) (now - t0) = Ok t ->
     async_get_current_transfer_rates use_cache a = (Ok (Some (r, t)), stored)) /\
  (forall d time_diff, (d <= 0)%Z -> rate d time_diff = Ok 0%Z) /\
  (forall d time_diff x,
     (0 < d)%Z -> float_of_int d = Ok x ->
     is_zero (total_seconds time_diff) = false ->
     rate d time_diff = ceil (SFdiv prec emax x (total_seconds time_diff))) /\
  rate 1000 2000000 = Ok 500%Z /\ rate 500 2000000 = Ok 250%Z /\
  rate (-1500) 1000000 = Ok 0%Z /\ rate 100 1000000 = Ok 100%Z.
Proof.
  intros now stored Ht H0 H1. split_and!.
  - intros. by eapply rates_first_call.
  - intros. by eapply rates_later_call.
  - apply rate_of_no_increase.
  - intros d time_diff x Hd Hx Hz. unfold rate, int_div_float.
    destruct (Z.ltb_spec 0 d); [|lia]. rewrite Hx. simpl. by rewrite Hz.
  - by vm_compute.
  - by vm_compute.
  - by vm_compute.
  - by vm_compute.
Qed.

End Counters.

(** ** The secure-shell transport *)

Section Ssh.
Import Py Eff Transport SshConnection.

(** What the handler of [ChannelOpenError] does on a fresh connection: the
    session is opened, the command fails, the session is opened again, and
    the caller gets the coroutine object of the second attempt, which has
    not run. *)
Lemma first_failure_returns_coroutine r command :
  connect_ok r 0 = true -> connect_ok r 1 = true ->
  run_reply r 0 command = ChannelOpenError ->
  async_run_command command false (__init__ r)
    = (Ok (Coroutine command),
       {| _client := Some 1%nat; remote := r;
          trace := [Connect true; Run command; Connect true] |}).
Proof.
  intros H0 H1 Hrun.
  unfold async_run_command, async_init_session, client_run, record, bind, get,
    modify, ret, connects, runs. simpl. rewrite H0. simpl. rewrite Hrun. simpl.
  rewrite H1. reflexivity.
Qed.

(** Had the caller awaited that object, the second failure would have
    given the empty list. *)
Lemma awaited_retry_gives_empty r command c :
  _client c <> None ->
  run_reply r (runs c) command = ChannelOpenError -> remote c = r ->
  (await (Coroutine command) c).1 = Ok (Lines []).
Proof.
  intros Hc Hrun <-.
  unfold await, async_run_command, client_run, record, bind, get, modify, ret.
  destruct (_client c); [|done]. simpl. by rewrite Hrun.
Qed.

End Ssh.

(** ** Runs against the routers *)

Section Runs.
Import Py Eff Transport Re Patterns Asuswrt Props SpecWords Fixtures.

Lemma is_Some_intro {A} (x : A) : is_Some (Some x).
Proof. by exists x. Qed.

Lemma ok_value {A} (dflt : A) (r : result A) :
  is_ok r = true -> r = Ok (value dflt r).
Proof. by destruct r. Qed.

Lemma run_eq {S A} (m : M S A) (s : S) r : (m s).1 = r -> m s = (r, (m s).2).
Proof. destruct (m s). simpl. by intros ->. Qed.

(** A call returned; a call returned and left its state; a call gave the
    result written in the goal. *)
Ltac ran :=
  lazymatch goal with
  | |- _ = Ok (value ?d _) => apply (ok_value d); vm_compute; reflexivity
  end.
Ltac ran_to :=
  lazymatch goal with
  | |- ?m ?s = (Ok (value ?d _), _) =>
      apply (run_eq m s); apply (ok_value d); vm_compute; reflexivity
  end.
Ltac gave :=
  lazymatch goal with
  | |- ?m ?s = (?r, _) => apply (run_eq m s r); vm_compute; reflexivity
  end.

(** *** The reconciler at home *)

Example home_entries :
  let T := (async_get_connected_devices at_home).1 in
  is_ok T = true /\
  entry_of T "01:02:03:04:05:06"
    = Some {| mac := "01:02:03:04:05:06"; ip := Some "192.168.1.2";
              name := Some "TV" |} /\
  entry_of T "AA:BB:CC:DD:EE:00"
    = Some {| mac := "AA:BB:CC:DD:EE:00"; ip := Some "192.168.1.10";
              name := None |} /\
  entry_of T "AA:BB:CC:DD:EE:01" = None /\
  entry_of T "0A:0B:0C:0D:0E:0F" = None.
Proof. vm_compute. tauto. Qed.

(** The lease of 0a:0b:0c:0d:0e:0f, an address no other source shows. *)
Lemma lease_alone_creates_no_device_witness :
  entry_of (async_get_connected_devices at_home).1 "0A:0B:0C:0D:0E:0F" = None.
Proof.
  apply (lease_alone_creates_no_device at_home
           (value ∅ (devices_before_leases at_home).1)
           (value ∅ (async_get_connected_devices at_home).1)
           "0A:0B:0C:0D:0E:0F");
    [ran | ran | vm_compute; reflexivity].
Defined.

(** The neighbour aa:bb:cc:dd:ee:01 is STALE and shows nowhere else. *)
Lemma only_reachable_neighbours_count_witness :
  entry_of (async_get_connected_devices at_home).1 "AA:BB:CC:DD:EE:01" = None.
Proof.
  set (a1 := (async_get_wl at_home).2).
  set (a2 := (async_get_arp a1).2).
  apply (proj2 (only_reachable_neighbours_count at_home)
           (value ∅ (async_get_wl at_home).1) a1
           (value ∅ (async_get_arp a1).1) a2
           [ "192.168.1.10 dev br0 lladdr aa:bb:cc:dd:ee:00 REACHABLE";
             "192.168.1.11 dev br0 lladdr aa:bb:cc:dd:ee:01 STALE" ]
           (run_command _IP_NEIGH_CMD a2).2
           (value ∅ (async_get_connected_devices at_home).1)
           (async_get_connected_devices at_home).2
           "AA:BB:CC:DD:EE:01");
    [ran_to | ran_to | gave | ran_to | vm_compute; reflexivity ..].
Defined.

Lemma keys_are_mac_fields_witness :
  keyed_by_mac (value ∅ (async_get_connected_devices at_home).1).
Proof.
  apply (proj2 (proj2 (proj2 (proj2 (keys_are_mac_fields at_home))))). ran.
Defined.



(** *** Dashes *)

(** C4 fails as stated: a MAC address that the ARP table prints with dashes
    becomes a key with dashes, which is not the canonical form. *)
Lemma dashed_mac_is_kept :
  let k := "AA-BB-CC-DD-EE-FF" in
  entry_of (async_get_connected_devices with_dashes).1 k
    = Some {| mac := k; ip := Some "192.168.1.5"; name := None |}
  /\ canonical_mac k = false.
Proof. vm_compute. tauto. Qed.

Lemma keys_are_upper_case_macs_witness : upper_mac "AA-BB-CC-DD-EE-FF".
Proof.
  apply (keys_are_upper_case_macs with_dashes
           (value ∅ (async_get_connected_devices with_dashes).1));
    [ran | vm_compute; apply is_Some_intro].
Defined.

(** *** The counters *)

(** Polled with [use_cache=False] at 0 s, 2 s and 3 s, the estimator
    returns nothing, then (500, 250), then (0, 100). *)
Example three_readings_rates :
  let call := async_get_current_transfer_rates false in
  let a1 := (call three_readings).2 in
  let a2 := (call a1).2 in
  (call three_readings).1 = Ok None /\
  (call a1).1 = Ok (Some (500, 250)%Z) /\
  (call a2).1 = Ok (Some (0, 100)%Z).
Proof. vm_compute. tauto. Qed.

(** C1 fails as stated: 21 bytes in 0.7 s are reported as 31 bytes per
    second, where the ceiling of 21 / 0.7 is 30. Python computes the
    quotient in double precision, 30.000000000000004. *)
Lemma rate_is_not_the_exact_ceiling :
  let call := async_get_current_transfer_rates false in
  let a1 := (call slow_link).2 in
  (call slow_link).1 = Ok None /\
  (_rx_latest a1, _tx_latest a1, _latest_transfer_check a1)
    = (Some 1000, Some 2000, Some 0)%Z /\
  (async_get_packets_total false (tick a1)).1 = Ok (Some [1021; 2000]%Z) /\
  next_reading a1 = 700000%Z /\
  (call a1).1 = Ok (Some (31, 0)%Z) /\
  spec_rate (1021 - 1000) (700000 - 0) = 30%Z.
Proof. vm_compute. tauto. Qed.

Lemma transfer_rates_witness :
  let call := async_get_current_transfer_rates false in
  let a1 := (call three_readings).2 in
  (call three_readings).1 = Ok None /\
  (call a1).1 = Ok (Some (500, 250)%Z) /\
  rate (-1500) 1000000 = Ok 0%Z.
Proof.
  intros call a1.
  pose proof (transfer_rates three_readings false [1000; 2000]%Z
                (async_get_packets_total false (tick three_readings)).2
                1000%Z 2000%Z ltac:(gave) eq_refl eq_refl)
    as (Hfirst & _).
  pose proof (transfer_rates a1 false [2000; 2500]%Z
                (async_get_packets_total false (tick a1)).2
                2000%Z 2500%Z ltac:(gave) eq_refl eq_refl)
    as (_ & Hlater & Hzero & _).
  split_and!.
  - unfold call. by rewrite Hfirst; [|left].
  - unfold call.
    by rewrite (Hlater 1000 2000 0 500 250 ltac:(vm_compute; reflexivity)
                  ltac:(vm_compute; reflexivity) ltac:(vm_compute; reflexivity)
                  ltac:(vm_compute; reflexivity) ltac:(vm_compute; reflexivity))%Z.
  - apply Hzero. lia.
Defined.

(** Polled with the default [use_cache=True], the second call falls in the
    window of five seconds and reports no traffic. *)
Lemma second_call_within_window_reads_zero_witness :
  let a1 := (async_get_current_transfer_rates true three_readings).2 in
  (async_get_current_transfer_rates true a1).1 = Ok (Some (0, 0)%Z).
Proof.
  intros a1.
  assert (async_get_current_transfer_rates true three_readings = (Ok None, a1))
    as Hfirst by gave.
  exact (second_call_within_window_reads_zero three_readings true None a1 0%Z
           Hfirst ltac:(vm_compute; discriminate) ltac:(vm_compute; reflexivity)
           ltac:(vm_compute; split; reflexivity) ltac:(vm_compute; reflexivity)).
Defined.


(** The second of two calls within the window sends nothing to the router,
    the third, after the window, sends the command again. *)
Example cached_call_sends_nothing :
  let a0 := client (router (scripted [ ["RX bytes:1000  TX bytes:2000"];
                                       ["RX bytes:3000  TX bytes:4000"] ]))
                   (clock_of [0; 4999999; 5000000]%Z) in
  let a1 := (async_get_packets_total true a0).2 in
  let a2 := (async_get_packets_total true a1).2 in
  let a3 := (async_get_packets_total true a2).2 in
  SshConnection.runs (connection a1) = 1%nat /\
  (async_get_packets_total true a1).1 = Ok (Some [1000; 2000]%Z) /\
  SshConnection.runs (connection a2) = 1%nat /\
  _trans_cache_timer a2 = Some 0%Z /\
  (async_get_packets_total true a2).1 = Ok (Some [3000; 4000]%Z) /\
  SshConnection.runs (connection a3) = 2%nat /\
  _trans_cache_timer a3 = Some 5000000%Z.
Proof. vm_compute. tauto. Qed.

(** C8 fails as stated: with one counter per line, the output holds the
    tokens 1234 and 5678, and [async_get_tx] raises [IndexError]. *)
Lemma second_line_is_not_read :
  let output := ["RX bytes:1234"; "TX bytes:5678"] in
  (run_command _IFCONFIG_CMD (tick two_lines)).1 = Ok (Lines output) /\
  spec_tokens output = [1234; 5678]%Z /\
  (async_get_rx false two_lines).1 = Ok 1234%Z /\
  (async_get_tx false two_lines).1 = Raise IndexError.
Proof. vm_compute. tauto. Qed.

Lemma totals_from_first_line_witness :
  (async_get_rx false three_readings).1 = Ok 1000%Z /\
  (async_get_tx false three_readings).1 = Ok 2000%Z.
Proof.
  apply (proj2 (totals_from_first_line three_readings false
                  "RX bytes:1000 (1.0 KB)  TX bytes:2000 (2.0 KB)" []
                  (run_command _IFCONFIG_CMD (tick three_readings)).2
                  ltac:(reflexivity) ltac:(gave))
           1000%Z 2000%Z []).
  vm_compute. reflexivity.
Defined.

(** *** The secure-shell transport *)

(** C5 fails on the code. On a router whose channel cannot be opened, the
    command is sent once and the session opened twice; the caller holds a
    coroutine object, no second attempt is made and nothing is logged; the
    getter that iterates over what it was given raises [TypeError]. Awaiting
    the object would have given the empty list. *)
Theorem retry_is_not_awaited :
  let c := SshConnection.__init__ closed_router in
  let '(r, c') := SshConnection.async_run_command _ARP_CMD false c in
  r = Ok (Coroutine _ARP_CMD) /\
  SshConnection.trace c'
    = [SshConnection.Connect true; SshConnection.Run _ARP_CMD;
       SshConnection.Connect true] /\
  SshConnection.runs c' = 1%nat /\
  SshConnection.errors_logged c' = 0%nat /\
  (async_get_arp (client closed_router (fun _ => 0%Z))).1 = Raise TypeError /\
  (SshConnection.await (Coroutine _ARP_CMD) c').1 = Ok (Lines []).
Proof. vm_compute. tauto. Qed.

End Runs.

(** ** What the parsing loops cannot do: fail *)

Section Totality.
Import Py Eff Transport Re ReSem Patterns Asuswrt Props.
Context {conn : Type} `{!Transport conn}.

Abbreviation state := (@AsusWrt conn).

Lemma parsed_key regex g lines device :
  g ∈ group_names regex -> device ∈ _parse_lines lines regex ->
  exists v, device !! g = Some v.
Proof.
  intros Hg (line & e & _ & _ & ->)%parsed_record.
  rewrite groupdict_lookup by done. eauto.
Qed.

Lemma parsed_value regex g lines device :
  g ∈ group_names regex -> always_sets g regex = true ->
  device ∈ _parse_lines lines regex ->
  exists v, device !! g = Some (Some v).
Proof.
  intros Hg Hs (line & e & _ & Hm & ->)%parsed_record.
  destruct (search_sets g _ _ _ Hs Hm) as [v Hv].
  exists v. by rewrite groupdict_lookup, Hv.
Qed.

Lemma for_each_total {A B} (body : B -> A -> result B) (l : list A) :
  (forall acc x, x ∈ l -> exists acc', body acc x = Ok acc') ->
  forall acc, exists t, for_each body l acc = Ok t.
Proof.
  induction l as [|x l IH]; intros Hbody acc; simpl; [eauto|].
  destruct (Hbody acc x) as [acc' ->]; [by left|]. simpl.
  apply IH. intros acc0 y Hy. apply Hbody. by right.
Qed.

Lemma wl_loop_total lines :
  exists t, for_each wl_body (_parse_lines lines _WL_REGEX) ∅ = Ok t.
Proof.
  apply for_each_total. intros acc device Hin.
  destruct (parsed_value _WL_REGEX "mac" lines device) as [m Hm];
    [set_solver | reflexivity | done |].
  unfold wl_body, dict_getitem. rewrite Hm. simpl. eauto.
Qed.

Lemma arp_loop_total lines :
  exists t, for_each arp_body (_parse_lines lines _ARP_REGEX) ∅ = Ok t.
Proof.
  apply for_each_total. intros acc device Hin.
  destruct (parsed_key _ARP_REGEX "mac" lines device) as [m Hm];
    [set_solver | done |].
  destruct (parsed_key _ARP_REGEX "ip" lines device) as [i Hi];
    [set_solver | done |].
  unfold arp_body, dict_getitem. rewrite Hm. simpl.
  destruct m; [rewrite Hi|]; simpl; eauto.
Qed.

Lemma neigh_loop_total cur lines :
  exists t,
    for_each (neigh_body cur) (_parse_lines lines _IP_NEIGH_REGEX) ∅ = Ok t.
Proof.
  apply for_each_total. intros acc device Hin.
  destruct (parsed_key _IP_NEIGH_REGEX "mac" lines device) as [m Hm];
    [set_solver | done |].
  destruct (parsed_key _IP_NEIGH_REGEX "status" lines device) as [st Hst];
    [set_solver | done |].
  unfold neigh_body, dict_getitem. rewrite Hst. simpl.
  destruct st as [st|]; [|eauto].
  destruct (negb _); [eauto|]. rewrite Hm. simpl. destruct m; eauto.
Qed.

Lemma leases_loop_total cur lines :
  exists t,
    for_each (leases_body cur) (_parse_lines lines _LEASES_REGEX) ∅ = Ok t.
Proof.
  apply for_each_total. intros acc device Hin.
  destruct (parsed_value _LEASES_REGEX "mac" lines device) as [m Hm];
    [set_solver | reflexivity | done |].
  destruct (parsed_key _LEASES_REGEX "host" lines device) as [h Hh];
    [set_solver | done |].
  destruct (parsed_key _LEASES_REGEX "ip" lines device) as [i Hi];
    [set_solver | done |].
  unfold leases_body, dict_getitem. rewrite Hh, Hm. simpl.
  destruct (cur !! upper m); [rewrite Hi|]; simpl; eauto.
Qed.

(** A getter on the lines the connection handed over. *)
Lemma getter_on_lines (cmd : string) (a a' : state) lines
    (parse : list string -> result table) :
  run_command cmd a = (Ok (Lines lines), a') ->
  (exists t, parse lines = Ok t) ->
  exists t,
    (let! lines := run_command cmd in
     if falsy lines then ret ∅
     else let! lines := lift (iterate lines) in lift (parse lines))%eff a
    = (Ok t, a').
Proof.
  intros Hrun [t Ht]. rewrite (bind_eq _ _ _ _ _ Hrun).
  destruct lines as [|l ls]; simpl; [by exists ∅|].
  rewrite bind_lift_Ok. unfold lift. rewrite Ht. eauto.
Qed.

(** A getter fails only as the connection does. *)
Lemma getter_raises (cmd : string) (a a' : state) e
    (parse : list string -> result table) :
  (forall lines, exists t, parse lines = Ok t) ->
  (let! lines := run_command cmd in
   if falsy lines then ret ∅
   else let! lines := lift (iterate lines) in lift (parse lines))%eff a
  = (Raise e, a') ->
  run_command cmd a = (Raise e, a') \/
  (e = TypeError /\ exists c, run_command cmd a = (Ok (Coroutine c), a')).
Proof.
  intros Hparse. unfold bind at 1.
  destruct (run_command cmd a) as [[[ls|c]|e'] a1]; simpl.
  - destruct ls as [|l ls]; [discriminate|]. simpl.
    rewrite bind_lift_Ok. unfold lift.
    destruct (Hparse (l :: ls)) as [t ->]. discriminate.
  - unfold bind, lift. simpl. intros [= <- <-]. right. eauto.
  - intros [= <- <-]. by left.
Qed.

(** X1. Parsing never fails: whenever the connection hands over a list of
    lines, whatever they hold, each of [async_get_wl], [async_get_arp],
    [async_get_neigh] and [async_get_leases] returns a table; no line makes
    a loop raise [KeyError] or [AttributeError]. *)
Theorem getters_return_on_any_lines (a : state) lines a' :
  (run_command _WL_CMD a = (Ok (Lines lines), a') ->
   exists t, async_get_wl a = (Ok t, a')) /\
  (run_command _ARP_CMD a = (Ok (Lines lines), a') ->
   exists t, async_get_arp a = (Ok t, a')) /\
  (forall cur, run_command _IP_NEIGH_CMD a = (Ok (Lines lines), a') ->
   exists t, async_get_neigh cur a = (Ok t, a')) /\
  (forall cur, run_command _LEASES_CMD a = (Ok (Lines lines), a') ->
   exists t, async_get_leases cur a = (Ok t, a')).
Proof.
  split_and!.
  - intros Hrun.
    apply (getter_on_lines _ _ _ _
             (fun ls => for_each wl_body (_parse_lines ls _WL_REGEX) ∅) Hrun),
      wl_loop_total.
  - intros Hrun.
    apply (getter_on_lines _ _ _ _
             (fun ls => for_each arp_body (_parse_lines ls _ARP_REGEX) ∅) Hrun),
      arp_loop_total.
  - intros cur Hrun.
    apply (getter_on_lines _ _ _ _
             (fun ls => for_each (neigh_body cur)
                          (_parse_lines ls _IP_NEIGH_REGEX) ∅) Hrun),
      neigh_loop_total.
  - intros cur Hrun.
    apply (getter_on_lines _ _ _ _
             (fun ls => for_each (leases_body cur)
                          (_parse_lines
                             (List.filter
                                (fun line => negb (startswith "duid " line)) ls)
                             _LEASES_REGEX) ∅) Hrun),
      leases_loop_total.
Qed.

(** X2. A getter that raises passes on the failure of the connection, or
    was handed a coroutine object, over which it cannot iterate
    ([TypeError]); the connection is left as the command left it. *)
Theorem getters_fail_only_as_the_connection (a : state) e a' :
  let failed cmd :=
    run_command cmd a = (Raise e, a') \/
    (e = TypeError /\ exists c, run_command cmd a = (Ok (Coroutine c), a')) in
  (async_get_wl a = (Raise e, a') -> failed _WL_CMD) /\
  (async_get_arp a = (Raise e, a') -> failed _ARP_CMD) /\
  (forall cur, async_get_neigh cur a = (Raise e, a') -> failed _IP_NEIGH_CMD) /\
  (forall cur, async_get_leases cur a = (Raise e, a') -> failed _LEASES_CMD).
Proof.
  intros failed. split_and!.
  - apply (getter_raises _ _ _ _
             (fun ls => for_each wl_body (_parse_lines ls _WL_REGEX) ∅)).
    intros. apply wl_loop_total.
  - apply (getter_raises _ _ _ _
             (fun ls => for_each arp_body (_parse_lines ls _ARP_REGEX) ∅)).
    intros. apply arp_loop_total.
  - intros cur.
    apply (getter_raises _ _ _ _
             (fun ls => for_each (neigh_body cur)
                          (_parse_lines ls _IP_NEIGH_REGEX) ∅)).
    intros. apply neigh_loop_total.
  - intros cur.
    apply (getter_raises _ _ _ _
             (fun ls => for_each (leases_body cur)
                          (_parse_lines
                             (List.filter
                                (fun line => negb (startswith "duid " line)) ls)
                             _LEASES_REGEX) ∅)).
    intros. apply leases_loop_total.
Qed.

End Totality.

(** ** The reconciled table: what is kept, what wins, who is named *)

Section Reconciled.
Import Py Eff Transport Re ReSem Patterns Asuswrt Props.
Context {conn : Type} `{!Transport conn}.

Abbreviation state := (@AsusWrt conn).

(** The getters touch nothing of the client but its connection. *)
Lemma set_connection_twice c1 c2 (a : state) :
  set_connection c2 (set_connection c1 a) = set_connection c2 a.
Proof. reflexivity. Qed.

Lemma getter_frame (cmd : string) (a a' : state) r
    (parse : list string -> result table) :
  (let! lines := run_command cmd in
   if falsy lines then ret ∅
   else let! lines := lift (iterate lines) in lift (parse lines))%eff a
  = (r, a') ->
  a' = set_connection (connection a') a.
Proof.
  unfold bind at 1.
  destruct (run_command cmd a) as [[o|e] a1] eqn:Hrun;
    apply run_command_frame in Hrun.
  - destruct (falsy o); [by intros [= <- <-]|].
    unfold bind, lift. destruct (iterate o); by intros [= <- <-].
  - by intros [= <- <-].
Qed.

Lemma wl_frame (a a' : state) r :
  async_get_wl a = (r, a') -> a' = set_connection (connection a') a.
Proof.
  apply (getter_frame _ _ _ _
           (fun ls => for_each wl_body (_parse_lines ls _WL_REGEX) ∅)).
Qed.

Lemma arp_frame (a a' : state) r :
  async_get_arp a = (r, a') -> a' = set_connection (connection a') a.
Proof.
  apply (getter_frame _ _ _ _
           (fun ls => for_each arp_body (_parse_lines ls _ARP_REGEX) ∅)).
Qed.

Lemma neigh_frame cur (a a' : state) r :
  async_get_neigh cur a = (r, a') -> a' = set_connection (connection a') a.
Proof.
  apply (getter_frame _ _ _ _
           (fun ls => for_each (neigh_body cur)
                        (_parse_lines ls _IP_NEIGH_REGEX) ∅)).
Qed.

Lemma leases_frame cur (a a' : state) r :
  async_get_leases cur a = (r, a') -> a' = set_connection (connection a') a.
Proof.
  apply (getter_frame _ _ _ _
           (fun ls => for_each (leases_body cur)
                        (_parse_lines
                           (List.filter
                              (fun line => negb (startswith "duid " line)) ls)
                           _LEASES_REGEX) ∅)).
Qed.

Lemma before_leases_frame (a a' : state) D :
  devices_before_leases a = (Ok D, a') ->
  a' = set_connection (connection a') a.
Proof.
  intros (wl & a1 & arp & a2 & neigh & Hwl%wl_frame & Harp%arp_frame
          & Hn%neigh_frame & _)%devices_before_leases_Ok.
  rewrite Hn, Harp, Hwl. reflexivity.
Qed.

(** A run of the reconciler that returned, in full: the merged table
    before the lease step, the lease table (none in [ap] mode), and the
    final loop under the client's own [require_ip]. *)
Lemma connected_devices_run (a : state) T a' :
  async_get_connected_devices a = (Ok T, a') ->
  exists D a3 L,
    devices_before_leases a = (Ok D, a3) /\
    (if String.eqb (mode a) "ap" then L = ∅ /\ a' = a3
     else async_get_leases D a3 = (Ok L, a')) /\
    T = filter (fun kv => keep (require_ip a) kv.2 = true) (update D L).
Proof.
  unfold async_get_connected_devices. intros H.
  apply bind_Ok in H as (D & a3 & HD & H).
  pose proof (before_leases_frame _ _ _ HD) as Hf.
  assert (require_ip a3 = require_ip a) as Hr by by rewrite Hf.
  assert (mode a3 = mode a) as Hm by by rewrite Hf.
  rewrite bind_get, Hr, Hm in H.
  apply bind_Ok in H as (D' & a4 & Hl & H).
  apply ret_Ok in H as [-> ->]. exists D, a3.
  destruct (String.eqb (mode a) "ap"); simpl in Hl.
  - apply ret_Ok in Hl as [-> ->]. exists ∅. split_and!; try done.
    unfold update. by rewrite (left_id_L ∅ (∪)).
  - apply bind_Ok in Hl as (L & a5 & HL & Hl).
    apply ret_Ok in Hl as [-> ->]. exists L. by split_and!.
Qed.

Lemma keep_lookup (b : bool) (t : table) k d :
  filter (fun kv => keep b kv.2 = true) t !! k = Some d <->
  t !! k = Some d /\ keep b d = true.
Proof. by rewrite map_lookup_filter_Some. Qed.

(** X3. With [require_ip] set, every device that
    [async_get_connected_devices] returns has an IP address. *)
Theorem require_ip_keeps_only_addressed_devices (a : state) T k d :
  require_ip a = true ->
  (async_get_connected_devices a).1 = Ok T ->
  T !! k = Some d ->
  exists i, ip d = Some i.
Proof.
  intros Hr (D & a3 & L & _ & _ & ->)%fst_Ok%connected_devices_run
         [_ Hk]%keep_lookup.
  rewrite Hr in Hk. unfold keep in Hk. simpl in Hk.
  apply bool_decide_eq_true in Hk. destruct (ip d); [eauto|done].
Qed.

(** X4. Without [require_ip] nothing is dropped and the lease step adds
    nothing: the keys of the returned table are the keys of the table built
    from the wireless, ARP and IP-neighbor steps. *)
Theorem without_require_ip_keys_are_those_before_leases (a : state) D T k :
  require_ip a = false ->
  (devices_before_leases a).1 = Ok D ->
  (async_get_connected_devices a).1 = Ok T ->
  is_Some (T !! k) <-> is_Some (D !! k).
Proof.
  intros Hr HD%fst_Ok HT%fst_Ok.
  pose proof (connected_keys_known _ _ _ _ _ k HD HT) as Hknown.
  apply connected_devices_run in HT as (D' & a3 & L & HD' & _ & ->).
  rewrite HD in HD'. injection HD' as <- _.
  split.
  - intros [d Hd]. destruct (D !! k) eqn:HDk; [eauto|].
    rewrite Hknown in Hd; done.
  - intros [d Hd].
    destruct (L !! k) as [l|] eqn:HL.
    + exists l. apply keep_lookup. rewrite Hr. split; [|done].
      unfold update. apply lookup_union_Some_raw. by left.
    + exists d. apply keep_lookup. rewrite Hr. split; [|done].
      unfold update. apply lookup_union_Some_raw. by right.
Qed.

(** *** The fields of the entries, source by source *)

Lemma wl_entry_fields (a : state) t a' k d :
  async_get_wl a = (Ok t, a') -> t !! k = Some d ->
  d = {| mac := k; ip := None; name := None |}.
Proof.
  intros (lines & _ & H)%wl_entries Hk.
  by destruct (H _ _ Hk) as (device & _ & _ & ->).
Qed.

Lemma arp_entry_fields (a : state) t a' k d :
  async_get_arp a = (Ok t, a') -> t !! k = Some d ->
  exists i, d = {| mac := k; ip := Some i; name := None |}.
Proof.
  intros (lines & _ & H)%arp_entries Hk.
  destruct (H _ _ Hk) as (device & Hin & _ & i & Hi & ->).
  destruct (parsed_value _ARP_REGEX "ip" lines device) as [v Hv];
    [set_solver | reflexivity | done |].
  exists v. congruence.
Qed.

Lemma neigh_entry_fields cur (a : state) t a' k d :
  async_get_neigh cur a = (Ok t, a') -> t !! k = Some d ->
  exists i, d = {| mac := k; ip := Some i; name := None |}.
Proof.
  intros (lines & _ & H)%neigh_entries Hk.
  destruct (H _ _ Hk) as (device & Hin & _ & _ & ->).
  destruct (neigh_record_ip _ _ Hin) as [i Hi].
  exists i. unfold dict_get. by rewrite Hi.
Qed.

(** What one round of the lease loop stores. *)
Lemma leases_body_fields cur acc device acc' :
  leases_body cur acc device = Ok acc' ->
  acc' = acc \/
  exists k d, acc' = <[k := d]> acc /\
    exists m i h,
      device !! "mac" = Some (Some m) /\ device !! "ip" = Some i /\
      device !! "host" = Some h /\ k = upper m /\ is_Some (cur !! k) /\
      d = {| mac := k; ip := i;
             name := if decide (h = Some "*") then Some "" else h |}.
Proof.
  unfold leases_body. intros H.
  apply rbind_Ok in H as (h & Hh%dict_getitem_Ok & H).
  apply rbind_Ok in H as (m & Hm%dict_getitem_Ok & H).
  apply rbind_Ok in H as (k & (m' & -> & <-)%upper_of_Ok & H).
  destruct (cur !! upper m') as [o|] eqn:Hcur; [|injection H as <-; auto].
  apply rbind_Ok in H as (i & Hi%dict_getitem_Ok & [= <-]).
  right. eexists _, _. split; [done|]. exists m', i, h.
  split_and!; first [done | by rewrite Hcur].
Qed.

Lemma elem_of_filter_list {A} (P : A -> bool) (l : list A) x :
  x ∈ List.filter P l -> x ∈ l /\ P x = true.
Proof. rewrite !list_elem_of_In. apply filter_In. Qed.

Lemma lease_provenance cur (a : state) L a' k d :
  async_get_leases cur a = (Ok L, a') -> L !! k = Some d ->
  exists lines line e m i h,
    run_command _LEASES_CMD a = (Ok (Lines lines), a') /\
    line ∈ lines /\ startswith "duid " line = false /\
    search _LEASES_REGEX line = Some e /\
    e !! "mac" = Some m /\ e !! "ip" = Some i /\ e !! "host" = Some h /\
    k = upper m /\ is_Some (cur !! k) /\
    d = {| mac := k; ip := Some i;
           name := Some (if decide (h = "*") then "" else h) |}.
Proof.
  intros (lines & Hrun & H)%async_get_leases_Ok Hk.
  destruct (for_each_entries _ _ (leases_body_fields cur) _ _ _ H _ _ Hk)
    as [He|(device & Hin & m & i & h & Hm & Hi & Hh & -> & Hcur & ->)];
    [by rewrite lookup_empty in He|].
  pose proof Hin as (line & e & [Hl Hd]%elem_of_filter_list & Hs & ->)%parsed_record.
  apply negb_true_iff in Hd.
  apply groupdict_lookup_Some in Hm, Hi, Hh.
  destruct (search_sets "ip" _LEASES_REGEX _ _ eq_refl Hs) as [i' Hi'].
  destruct (search_sets "host" _LEASES_REGEX _ _ eq_refl Hs) as [h' Hh'].
  exists lines, line, e, m, i', h'. split_and!; try done.
  rewrite Hi, Hi', Hh, Hh'. f_equal.
  destruct (decide (h' = "*")) as [->|Hne]; [done|].
  destruct (decide (Some h' = Some "*")); [congruence|done].
Qed.

(** X5. Where a lease entry comes from: a line of the lease file that does
    not start with [duid ], on which the lease pattern matches; the key is
    the captured MAC address in upper case, a key of the table handed in;
    the entry holds the captured IP address, and the captured host name,
    the empty name when the host name is [*]. *)
Theorem lease_entries_come_from_lease_lines cur (a : state) L k d :
  (async_get_leases cur a).1 = Ok L -> L !! k = Some d ->
  exists lines line e m i h,
    (run_command _LEASES_CMD a).1 = Ok (Lines lines) /\
    line ∈ lines /\ startswith "duid " line = false /\
    search _LEASES_REGEX line = Some e /\
    e !! "mac" = Some m /\ e !! "ip" = Some i /\ e !! "host" = Some h /\
    k = upper m /\ is_Some (cur !! k) /\
    d = {| mac := k; ip := Some i;
           name := Some (if decide (h = "*") then "" else h) |}.
Proof.
  intros HL%fst_Ok Hk.
  destruct (lease_provenance _ _ _ _ _ _ HL Hk)
    as (lines & line & e & m & i & h & Hrun & H).
  exists lines, line, e, m, i, h. by rewrite Hrun.
Qed.

Lemma before_leases_unnamed (a : state) D a' k d :
  devices_before_leases a = (Ok D, a') -> D !! k = Some d -> name d = None.
Proof.
  intros (wl & a1 & arp & a2 & neigh & Hwl & Harp & Hn & ->)%devices_before_leases_Ok
         [H|[H|[H|H]%update_lookup_Some]%update_lookup_Some]%update_lookup_Some.
  - by destruct (neigh_entry_fields _ _ _ _ _ _ Hn H) as [i ->].
  - by destruct (arp_entry_fields _ _ _ _ _ Harp H) as [i ->].
  - by rewrite (wl_entry_fields _ _ _ _ _ Hwl H).
  - by rewrite lookup_empty in H.
Qed.

(** X6. A device has a name only from the lease file: a named device of
    the returned table is the entry of the lease table for its key, its
    name is not [*], and the client is not in [ap] mode; in [ap] mode no
    device has a name. *)
Theorem names_come_from_leases (a : state) T k d :
  (async_get_connected_devices a).1 = Ok T -> T !! k = Some d ->
  (mode a = "ap" -> name d = None) /\
  (forall n, name d = Some n ->
     n <> "*" /\
     exists D a3 L,
       devices_before_leases a = (Ok D, a3) /\
       (async_get_leases D a3).1 = Ok L /\ L !! k = Some d).
Proof.
  intros (D & a3 & L & HD & HL & ->)%fst_Ok%connected_devices_run
         [[Hk|Hk]%update_lookup_Some _]%keep_lookup.
  - destruct (String.eqb (mode a) "ap") eqn:Hm.
    { destruct HL as [-> _]. by rewrite lookup_empty in Hk. }
    apply String.eqb_neq in Hm. split; [done|]. intros n Hn.
    destruct (lease_provenance _ _ _ _ _ _ HL Hk)
      as (lines & line & e & m & i & h & _ & _ & _ & _ & _ & _ & _ & _ & _ & Hd).
    split.
    + rewrite Hd in Hn. simpl in Hn. injection Hn as <-.
      destruct (decide (h = "*")); done.
    + exists D, a3, L. by rewrite HL.
  - rewrite (before_leases_unnamed _ _ _ _ _ HD Hk). done.
Qed.

(** *** Which source wins *)

Lemma devices_before_leases_intro (a : state) wl a1 arp a2 neigh a3 :
  async_get_wl a = (Ok wl, a1) ->
  async_get_arp a1 = (Ok arp, a2) ->
  async_get_neigh (update (update ∅ wl) arp) a2 = (Ok neigh, a3) ->
  devices_before_leases a
    = (Ok (update (update (update ∅ wl) arp) neigh), a3).
Proof.
  intros Hwl Harp Hn. unfold devices_before_leases.
  by rewrite (bind_eq _ _ _ _ _ Hwl), (bind_eq _ _ _ _ _ Harp),
    (bind_eq _ _ _ _ _ Hn).
Qed.

Lemma update_lookup (devices new : table) k :
  update devices new !! k
  = match new !! k with Some d => Some d | None => devices !! k end.
Proof.
  unfold update. destruct (new !! k) as [d|] eqn:Hn.
  - apply lookup_union_Some_raw. by left.
  - destruct (devices !! k) as [d|] eqn:Hd.
    + apply lookup_union_Some_raw. by right.
    + by apply lookup_union_None.
Qed.

Lemma keep_lookup_eq (b : bool) (t : table) k :
  filter (fun kv => keep b kv.2 = true) t !! k
  = match t !! k with
    | Some d => if keep b d then Some d else None
    | None => None
    end.
Proof.
  destruct (t !! k) as [d|] eqn:Ht.
  - destruct (keep b d) eqn:Hk.
    + by apply keep_lookup.
    + apply map_lookup_filter_None. right. intros d' Hd'. simplify_eq.
      simpl. by rewrite Hk.
  - apply map_lookup_filter_None. by left.
Qed.

(** X7. Which source wins. For a key, the returned table holds the entry
    of the last of the steps wireless, ARP, IP-neighbor, leases that has
    one, the lease step left out in [ap] mode; under [require_ip] that entry
    is returned only if it has an IP address, and an entry of an earlier
    step does not stand in for it. *)
Theorem later_sources_override (a : state) wl a1 arp a2 neigh a3 T k :
  async_get_wl a = (Ok wl, a1) ->
  async_get_arp a1 = (Ok arp, a2) ->
  async_get_neigh (update (update ∅ wl) arp) a2 = (Ok neigh, a3) ->
  (async_get_connected_devices a).1 = Ok T ->
  exists L,
    (if String.eqb (mode a) "ap" then L = ∅
     else (async_get_leases (update (update (update ∅ wl) arp) neigh) a3).1
          = Ok L) /\
    T !! k
    = match
        match L !! k with
        | Some d => Some d
        | None =>
            match neigh !! k with
            | Some d => Some d
            | None =>
                match arp !! k with
                | Some d => Some d
                | None => wl !! k
                end
            end
        end
      with
      | Some d => if keep (require_ip a) d then Some d else None
      | None => None
      end.
Proof.
  intros Hwl Harp Hn (D & a3' & L & HD & HL & ->)%fst_Ok%connected_devices_run.
  rewrite (devices_before_leases_intro _ _ _ _ _ _ _ Hwl Harp Hn) in HD.
  injection HD as <- <-. exists L. split.
  - destruct (String.eqb (mode a) "ap"); [by destruct HL|by rewrite HL].
  - rewrite keep_lookup_eq, !update_lookup, lookup_empty.
    by destruct (L !! k), (neigh !! k), (arp !! k), (wl !! k).
Qed.

(** X8. A returned device without an IP address is one that only the
    wireless step has seen: the ARP and the IP-neighbor tables have no entry
    for its key, and it has no name. *)
Theorem device_without_address_is_wireless_only
    (a : state) wl a1 arp a2 neigh a3 T k d :
  async_get_wl a = (Ok wl, a1) ->
  async_get_arp a1 = (Ok arp, a2) ->
  async_get_neigh (update (update ∅ wl) arp) a2 = (Ok neigh, a3) ->
  (async_get_connected_devices a).1 = Ok T ->
  T !! k = Some d -> ip d = None ->
  wl !! k = Some d /\ arp !! k = None /\ neigh !! k = None /\
  d = {| mac := k; ip := None; name := None |}.
Proof.
  intros Hwl Harp Hn (D & a3' & L & HD & HL & ->)%fst_Ok%connected_devices_run
         [Hk _]%keep_lookup Hip.
  rewrite (devices_before_leases_intro _ _ _ _ _ _ _ Hwl Harp Hn) in HD.
  injection HD as <- <-.
  rewrite !update_lookup, lookup_empty in Hk.
  destruct (L !! k) as [l|] eqn:HLk.
  { exfalso. injection Hk as ->.
    destruct (String.eqb (mode a) "ap").
    - destruct HL as [-> _]. by rewrite lookup_empty in HLk.
    - destruct (lease_provenance _ _ _ _ _ _ HL HLk)
        as (lines & line & e & m & i & h & _ & _ & _ & _ & _ & _ & _ & _ & _ & ->).
      discriminate. }
  destruct (neigh !! k) as [n|] eqn:Hnk.
  { exfalso. injection Hk as ->.
    destruct (neigh_entry_fields _ _ _ _ _ _ Hn Hnk) as [i ->]. discriminate. }
  destruct (arp !! k) as [r|] eqn:Hak.
  { exfalso. injection Hk as ->.
    destruct (arp_entry_fields _ _ _ _ _ Harp Hak) as [i ->]. discriminate. }
  destruct (wl !! k) as [w|] eqn:Hwk; [|done]. injection Hk as ->.
  split_and!; try done. eapply wl_entry_fields; eauto.
Qed.

End Reconciled.

(** ** The secure-shell transport: sessions, commands and lines *)

Section Lines.
Import Py Fixtures Shape.

Lemma split_nl_cons s : exists l ls, split_nl s = l :: ls.
Proof.
  induction s as [|c s (l & ls & IH)]; simpl; [eauto|].
  destruct (Ascii.eqb c newline); [eauto|]. rewrite IH. eauto.
Qed.

Lemma split_nl_nonempty s : split_nl s <> [].
Proof. destruct (split_nl_cons s) as (l & ls & ->). done. Qed.

Lemma unlines_cons l l' ls :
  unlines (l :: l' :: ls) = l +:+ String newline (unlines (l' :: ls)).
Proof. reflexivity. Qed.

Lemma unlines_String c l ls :
  unlines (String c l :: ls) = String c (unlines (l :: ls)).
Proof. destruct ls; reflexivity. Qed.

Lemma unlines_empty_cons l ls :
  unlines ("" :: l :: ls) = String newline (unlines (l :: ls)).
Proof. reflexivity. Qed.

Lemma unlines_split_nl s : unlines (split_nl s) = s.
Proof.
  induction s as [|c s IH]; [done|]. simpl.
  destruct (split_nl_cons s) as (l & ls & Hs). rewrite Hs in *.
  destruct (Ascii.eqb_spec c newline) as [->|Hc].
  - by rewrite unlines_empty_cons, IH.
  - by rewrite unlines_String, IH.
Qed.

Lemma split_nl_one_line l : one_line l = true -> split_nl l = [l].
Proof.
  induction l as [|c l IH]; [done|]. simpl.
  intros [Hc Hl]%andb_true_iff. apply negb_true_iff in Hc.
  by rewrite Hc, IH.
Qed.

Lemma split_nl_app_line l s :
  one_line l = true ->
  split_nl (l +:+ String newline s) = l :: split_nl s.
Proof.
  induction l as [|c l IH]; simpl.
  - done.
  - intros [Hc Hl]%andb_true_iff. apply negb_true_iff in Hc.
    by rewrite Hc, IH.
Qed.

Lemma split_nl_unlines ls :
  ls <> [] -> forallb one_line ls = true -> split_nl (unlines ls) = ls.
Proof.
  induction ls as [|l ls IH]; [done|]. intros _.
  simpl. intros [Hl Hls]%andb_true_iff.
  destruct ls as [|l' ls]; [by apply split_nl_one_line|].
  rewrite split_nl_app_line by done. f_equal. by apply IH.
Qed.

End Lines.

Section Sessions.
Import Py Eff Transport SshConnection History Fixtures Shape.

(** What one call of [async_run_command] adds to the history. *)
Lemma call_history command retry c :
  exists evs,
    trace (async_run_command command retry c).2 = (trace c ++ evs)%list /\
    remote (async_run_command command retry c).2 = remote c /\
    _client (async_run_command command retry c).2
      = session_of (connects c) (_client c) evs /\
    runs_on_session (bool_decide (is_Some (_client c))) evs = true /\
    (sent_of evs = [command] \/
     sent_of evs = [] /\
     (async_run_command command retry c).1 = Raise ConnectionFailure /\
     _client c = None /\ evs = [Connect false] /\
     connect_ok (remote c) (connects c) = false) /\
    (List.filter is_log evs = [] \/
     retry = true /\
     (async_run_command command retry c).1 = Ok (Lines [])).
Proof.
  unfold async_run_command, async_init_session, client_run, record, bind, get,
    modify, ret, raise.
  destruct c as [cl r tr]. simpl.
  destruct cl as [n|]; simpl.
  - destruct (run_reply r _ command) as [out| |]; simpl.
    + exists [Run command]. split_and!; auto.
    + destruct retry; simpl.
      * exists [Run command; LogError "No connection to host"].
        rewrite <- app_assoc. split_and!; auto.
      * unfold connects. simpl.
        destruct (connect_ok r _) eqn:Hc; simpl.
        -- exists [Run command; Connect true]. rewrite <- app_assoc.
           split_and!; auto. simpl.
           rewrite List.filter_app, length_app. simpl.
           by rewrite Nat.add_0_r.
        -- exists [Run command; Connect false]. rewrite <- app_assoc.
           split_and!; auto.
    + exists [Run command]. split_and!; auto.
  - unfold connects. simpl. destruct (connect_ok r _) eqn:Hc; simpl.
    + unfold runs. simpl. rewrite List.filter_app. simpl. rewrite app_nil_r.
      destruct (run_reply r _ command) as [out| |]; simpl.
      * exists [Connect true; Run command]. rewrite <- app_assoc.
        split_and!; auto.
      * destruct retry; simpl.
        -- exists [Connect true; Run command; LogError "No connection to host"].
           rewrite <- !app_assoc. split_and!; auto.
        -- rewrite !List.filter_app, !length_app. simpl.
           rewrite Nat.add_0_r.
           destruct (connect_ok r (_ + 1)) eqn:Hc'; simpl.
           ++ exists [Connect true; Run command; Connect true].
              rewrite <- !app_assoc. split_and!; auto. simpl.
              by rewrite Nat.add_1_r.
           ++ exists [Connect true; Run command; Connect false].
              rewrite <- !app_assoc. split_and!; auto.
      * exists [Connect true; Run command]. rewrite <- app_assoc.
        split_and!; auto.
    + exists [Connect false]. split_and!; auto. right. by split_and!.
Qed.

End Sessions.

Section SessionFacts.
Import Py Eff Transport SshConnection History Fixtures Shape.

(** X9. The lines of standard output. When the router answers a command,
    [async_run_command] hands over the lines that, joined by newlines, make
    up what the router printed; there is at least one. Whatever list of
    lines the router printed that way is the list handed over. *)
Theorem ssh_hands_over_the_lines_printed c command retry out :
  _client c <> None \/ connect_ok (remote c) (connects c) = true ->
  run_reply (remote c) (runs c) command = Stdout out ->
  exists ls,
    (async_run_command command retry c).1 = Ok (Lines ls) /\
    ls <> [] /\ unlines ls = out /\
    forall printed,
      printed <> [] -> forallb one_line printed = true ->
      out = unlines printed -> ls = printed.
Proof.
  intros Hs Hrun. exists (split_nl out). split_and!.
  - unfold async_run_command, async_init_session, client_run, record, bind,
      get, modify, ret, raise.
    destruct c as [[n|] r tr]; unfold runs, connects in *; simpl in *.
    + by rewrite Hrun.
    + destruct Hs as [Hs|Hs]; [done|]. rewrite Hs. simpl.
      rewrite List.filter_app. simpl. rewrite app_nil_r. by rewrite Hrun.
  - apply split_nl_nonempty.
  - apply unlines_split_nl.
  - intros printed Hne Hl ->. by apply split_nl_unlines.
Qed.

Lemma errors_logged_app c c' evs :
  trace c' = (trace c ++ evs)%list -> List.filter is_log evs = [] ->
  errors_logged c' = errors_logged c.
Proof.
  intros Ht H. unfold errors_logged.
  by rewrite Ht, List.filter_app, H, app_nil_r.
Qed.

(** X10. Called as the client calls it, without [retry], the secure-shell
    [async_run_command] never returns an empty list and never logs an
    error: over this transport the test [if not lines] of the getters
    never holds. *)
Theorem ssh_never_hands_over_an_empty_list (c : SshConnection.t) command :
  (forall o, (Transport.async_run_command command c).1 = Ok o ->
             Asuswrt.falsy o = false) /\
  errors_logged (Transport.async_run_command command c).2 = errors_logged c.
Proof.
  change (Transport.async_run_command command c)
    with (SshConnection.async_run_command command false c).
  split.
  - unfold async_run_command, async_init_session, client_run, record, bind,
      get, modify, ret, raise.
    destruct c as [[n|] r tr]; simpl.
    + destruct (run_reply r _ command) as [out| |]; simpl.
      * intros o [= <-].
        by destruct (split_nl_cons out) as (l & ls & ->).
      * destruct (connect_ok r _); simpl; [by intros o [= <-]|done].
      * done.
    + destruct (connect_ok r _); simpl; [|done].
      destruct (run_reply r _ command) as [out| |]; simpl.
      * intros o [= <-].
        by destruct (split_nl_cons out) as (l & ls & ->).
      * destruct (connect_ok r _); simpl; [by intros o [= <-]|done].
      * done.
  - destruct (call_history command false c)
      as (evs & Ht & _ & _ & _ & _ & [Hl|[? _]]); [|done].
    by eapply errors_logged_app.
Qed.

Lemma call_sent c command retry :
  let c' := (async_run_command command retry c).2 in
  commands_sent c' = (commands_sent c ++ [command])%list \/
  (commands_sent c' = commands_sent c /\
   (async_run_command command retry c).1 = Raise ConnectionFailure /\
   _client c = None /\ _client c' = None /\
   connect_ok (remote c) (connects c) = false).
Proof.
  intros c'. unfold c', commands_sent.
  destruct (call_history command retry c)
    as (evs & -> & _ & Hcl & _ & [Hs|(Hs & Hr & Hn & -> & Hc)] & _).
  - left. unfold sent_of in *. by rewrite omap_app, Hs.
  - right. unfold sent_of in *. rewrite omap_app. simpl.
    rewrite app_nil_r. split_and!; try done.
    by rewrite Hcl, Hn.
Qed.

(** X11. A call sends its command at most once. [async_run_command] sends
    the command exactly once, unless no session was open and the router
    refused the connection: then nothing is sent, the call raises, and
    there is still no session. *)
Theorem a_call_sends_its_command_at_most_once c command retry :
  let c' := (async_run_command command retry c).2 in
  commands_sent c' = (commands_sent c ++ [command])%list \/
  (commands_sent c' = commands_sent c /\
   (async_run_command command retry c).1 = Raise ConnectionFailure /\
   _client c = None /\ _client c' = None /\
   connect_ok (remote c) (connects c) = false).
Proof. apply call_sent. Qed.

(** *** What holds of every state of a connection *)

Lemma runs_on_session_mono b1 b2 evs :
  (b1 = true -> b2 = true) ->
  runs_on_session b1 evs = true -> runs_on_session b2 evs = true.
Proof.
  revert b1 b2. induction evs as [|[ok|cmd|msg] evs IH]; intros b1 b2 Hb;
    simpl; try done.
  - apply IH. destruct b1, b2, ok; simpl; auto.
  - intros [-> H]%andb_true_iff. rewrite Hb by done. simpl. by eapply IH.
  - by apply IH.
Qed.

Lemma runs_on_session_app evs1 : forall b n cur evs2,
  (is_Some cur -> b = true) ->
  runs_on_session b evs1 = true ->
  runs_on_session (bool_decide (is_Some (session_of n cur evs1))) evs2 = true ->
  runs_on_session b (evs1 ++ evs2) = true.
Proof.
  induction evs1 as [|[ok|cmd|msg] evs1 IH]; intros b n cur evs2 Hb H1 H2;
    simpl in *.
  - eapply runs_on_session_mono; [|done].
    intros Hs%bool_decide_eq_true. auto.
  - eapply IH; [|done|done]. destruct ok; [by rewrite orb_true_r|].
    intros Hs. by rewrite Hb.
  - apply andb_true_iff in H1 as [-> H1]. simpl. eapply IH; eauto.
  - eapply IH; eauto.
Qed.

Lemma session_of_app evs1 : forall n cur evs2,
  session_of n cur (evs1 ++ evs2)
  = session_of (n + length (List.filter is_connect evs1))
               (session_of n cur evs1) evs2.
Proof.
  induction evs1 as [|[ok|cmd|msg] evs1 IH]; intros n cur evs2; simpl.
  - by rewrite Nat.add_0_r.
  - by rewrite IH, Nat.add_succ_r.
  - apply IH.
  - apply IH.
Qed.

Lemma connection_state_inv r c :
  connection_state r c ->
  remote c = r /\
  _client c = session_of 0 None (trace c) /\
  runs_on_session false (trace c) = true.
Proof.
  induction 1 as [|c command retry Hc (Hr & Hs & Ho)]; [done|].
  destruct (call_history command retry c)
    as (evs & -> & -> & -> & Hruns & _).
  split_and!; [done| |].
  - by rewrite session_of_app, <- Hs.
  - eapply (runs_on_session_app _ _ 0 None); [by intros [? ?]|done|].
    by rewrite <- Hs.
Qed.

(** X12. In every state that a connection reaches from [__init__] by
    calls of [async_run_command], the session in use is the one opened by
    the latest connect that the router accepted, none if it accepted none,
    and no command has been sent before a session was opened. *)
Theorem sessions_and_commands r c :
  connection_state r c ->
  remote c = r /\
  _client c = session_of 0 None (trace c) /\
  runs_on_session false (trace c) = true.
Proof. apply connection_state_inv. Qed.

End SessionFacts.

(** ** A scan over the secure shell: the commands it sends *)

Section Scan.
Import Py Eff Transport Patterns Asuswrt SshConnection History.

Abbreviation ssh_client := (@AsusWrt SshConnection.t).
Abbreviation sent_by a := (commands_sent (connection a)).

Lemma run_command_sent (a : ssh_client) cmd :
  sent_by (run_command cmd a).2 = (sent_by a ++ [cmd])%list \/
  sent_by (run_command cmd a).2 = sent_by a /\
  exists e, (run_command cmd a).1 = Raise e.
Proof.
  unfold run_command.
  change (Transport.async_run_command cmd (connection a))
    with (SshConnection.async_run_command cmd false (connection a)).
  destruct (call_sent (connection a) cmd false) as [H|(H & Hr & _)];
    destruct (SshConnection.async_run_command cmd false (connection a))
      as [r c]; simpl in *; [by left|right]. subst r. eauto.
Qed.

(** A getter sends its command and nothing else; it has sent it when it
    returns. *)
Lemma getter_sent (cmd : string) (a : ssh_client)
    (parse : list string -> result table) :
  let g := (let! lines := run_command cmd in
            if falsy lines then ret ∅
            else let! lines := lift (iterate lines) in lift (parse lines))%eff in
  sent_by (g a).2 = (sent_by a ++ [cmd])%list \/
  sent_by (g a).2 = sent_by a /\ exists e, (g a).1 = Raise e.
Proof.
  intros g. unfold g, bind.
  destruct (run_command_sent a cmd) as [H|(H & e & He)];
    destruct (run_command cmd a) as [[o|e'] a1]; simpl in *; try done.
  - left. destruct (falsy o); [done|]. unfold lift.
    by destruct (iterate o).
  - by left.
  - right. eauto.
Qed.

Lemma wl_sent (a : ssh_client) :
  sent_by (async_get_wl a).2 = (sent_by a ++ [_WL_CMD])%list \/
  sent_by (async_get_wl a).2 = sent_by a /\
  exists e, (async_get_wl a).1 = Raise e.
Proof.
  apply (getter_sent _ _
           (fun ls => for_each wl_body (_parse_lines ls _WL_REGEX) ∅)).
Qed.

Lemma arp_sent (a : ssh_client) :
  sent_by (async_get_arp a).2 = (sent_by a ++ [_ARP_CMD])%list \/
  sent_by (async_get_arp a).2 = sent_by a /\
  exists e, (async_get_arp a).1 = Raise e.
Proof.
  apply (getter_sent _ _
           (fun ls => for_each arp_body (_parse_lines ls _ARP_REGEX) ∅)).
Qed.

Lemma neigh_sent cur (a : ssh_client) :
  sent_by (async_get_neigh cur a).2 = (sent_by a ++ [_IP_NEIGH_CMD])%list \/
  sent_by (async_get_neigh cur a).2 = sent_by a /\
  exists e, (async_get_neigh cur a).1 = Raise e.
Proof.
  apply (getter_sent _ _
           (fun ls => for_each (neigh_body cur)
                        (_parse_lines ls _IP_NEIGH_REGEX) ∅)).
Qed.

Lemma leases_sent cur (a : ssh_client) :
  sent_by (async_get_leases cur a).2 = (sent_by a ++ [_LEASES_CMD])%list \/
  sent_by (async_get_leases cur a).2 = sent_by a /\
  exists e, (async_get_leases cur a).1 = Raise e.
Proof.
  apply (getter_sent _ _
           (fun ls => for_each (leases_body cur)
                        (_parse_lines
                           (List.filter
                              (fun line => negb (startswith "duid " line)) ls)
                           _LEASES_REGEX) ∅)).
Qed.

Lemma sent_when_returned {A} (m : M ssh_client A) (a a' : ssh_client) x cmd :
  m a = (Ok x, a') ->
  (sent_by (m a).2 = (sent_by a ++ [cmd])%list \/
   sent_by (m a).2 = sent_by a /\ exists e, (m a).1 = Raise e) ->
  sent_by a' = (sent_by a ++ [cmd])%list.
Proof.
  intros Hm. rewrite Hm. simpl. by intros [H|(_ & e & [=])].
Qed.

(** X13. A scan that returns has sent, over the secure shell, the wireless,
    the ARP, the IP-neighbor and the lease command, each once and in that
    order, and nothing else; in [ap] mode the lease command is not sent. *)
Theorem commands_of_a_scan (a : ssh_client) T :
  (async_get_connected_devices a).1 = Ok T ->
  commands_sent (connection (async_get_connected_devices a).2)
  = (commands_sent (connection a)
       ++ [_WL_CMD; _ARP_CMD; _IP_NEIGH_CMD]
       ++ (if String.eqb (mode a) "ap" then [] else [_LEASES_CMD]))%list.
Proof.
  intros HT%fst_Ok.
  destruct (connected_devices_run _ _ _ HT) as (D & a3 & L & HD & HL & _).
  destruct (devices_before_leases_Ok _ _ _ HD)
    as (wl & a1 & arp & a2 & neigh & Hwl & Harp & Hn & _).
  pose proof (sent_when_returned _ _ _ _ _ Hwl (wl_sent a)) as H1.
  pose proof (sent_when_returned _ _ _ _ _ Harp (arp_sent a1)) as H2.
  pose proof (sent_when_returned _ _ _ _ _ Hn (neigh_sent _ a2)) as H3.
  destruct (String.eqb (mode a) "ap").
  - destruct HL as [_ ->]. rewrite H3, H2, H1, <- !app_assoc. by simpl.
  - pose proof (sent_when_returned _ _ _ _ _ HL (leases_sent _ a3)) as H4.
    rewrite H4, H3, H2, H1, <- !app_assoc. by simpl.
Qed.

End Scan.

(** ** More on the counters: failures, warm-up and signs *)

Section FloatSigns.
Import Py Shape.
Local Open Scope Z_scope.

Lemma binary_round_aux_sign sx mx ex lx s :
  sign_of (binary_round_aux prec emax sx mx ex lx) = Some s -> s = sx.
Proof.
  unfold binary_round_aux.
  destruct (shr_fexp prec emax mx ex lx) as [mrs e].
  destruct (shr_fexp prec emax _ e loc_Exact) as [mrs' e'].
  destruct (shr_m mrs'); simpl; try congruence.
  destruct (e' <=? emax - prec); simpl; congruence.
Qed.

Lemma total_seconds_sign us s :
  0 < us -> sign_of (total_seconds us) = Some s -> s = false.
Proof.
  intros Hus. unfold total_seconds, round_quotient.
  destruct us as [|p|p]; try lia.
  destruct (SFdiv_core_binary _ _ _ _ _ _) as [[q e] l].
  apply binary_round_aux_sign.
Qed.

Lemma float_of_int_sign d x s :
  0 < d -> float_of_int d = Ok x -> sign_of x = Some s -> s = false.
Proof.
  intros Hd. unfold float_of_int, binary_normalize.
  destruct d as [|p|p]; try lia. unfold binary_round.
  destruct (shl_align p 0 _) as [mz ez].
  destruct (binary_round_aux prec emax false (Z.pos mz) ez loc_Exact) eqn:Hb;
    intros [= <-] Hs; try done;
    apply (binary_round_aux_sign false (Z.pos mz) ez loc_Exact);
    by rewrite Hb.
Qed.

Lemma SFdiv_sign x y s :
  (forall sx, sign_of x = Some sx -> sx = false) ->
  (forall sy, sign_of y = Some sy -> sy = false) ->
  sign_of (SFdiv prec emax x y) = Some s -> s = false.
Proof.
  intros Hx Hy. unfold SFdiv.
  destruct x as [sx|sx| |sx mx ex], y as [sy|sy| |sy my ey]; simpl;
    try done;
    try (rewrite (Hx sx eq_refl), (Hy sy eq_refl); simpl; congruence).
  rewrite (Hx sx eq_refl), (Hy sy eq_refl).
  destruct (SFdiv_core_binary _ _ _ _ _ _) as [[q e] l].
  apply binary_round_aux_sign.
Qed.

Lemma ceil_nonneg f r :
  (forall s, sign_of f = Some s -> s = false) -> ceil f = Ok r -> 0 <= r.
Proof.
  intros Hs. unfold ceil. destruct f as [s|s| |s m e]; try done.
  - intros [= <-]. lia.
  - rewrite (Hs s eq_refl). destruct e as [|e|k]; intros [= <-].
    + lia.
    + pose proof (Z.pow_pos_nonneg 2 (Z.pos e)). nia.
    + pose proof (Z.pow_pos_nonneg 2 (Z.pos k) ltac:(lia) ltac:(lia)).
      assert (- Z.pos m / 2 ^ Z.pos k <= 0); [|lia].
      apply Z.div_le_upper_bound; lia.
Qed.

Lemma rate_nonneg d time_diff r :
  0 < time_diff -> Asuswrt.rate d time_diff = Ok r -> 0 <= r.
Proof.
  intros Ht. unfold Asuswrt.rate. destruct (Z.ltb_spec 0 d) as [Hd|Hd].
  - intros (q & Hq & Hc)%rbind_Ok. unfold int_div_float in Hq.
    apply rbind_Ok in Hq as (x & Hx & Hq).
    destruct (is_zero (total_seconds time_diff)); [done|].
    injection Hq as <-. eapply ceil_nonneg; [|done].
    intros s. apply SFdiv_sign.
    + intros sx. by apply (float_of_int_sign d).
    + intros sy. by apply total_seconds_sign.
  - intros [= <-]. lia.
Qed.

Lemma is_zero_total_seconds_0 : is_zero (total_seconds 0) = true.
Proof. reflexivity. Qed.

Lemma rate_at_once d :
  0 < d ->
  Asuswrt.rate d 0 = Raise ZeroDivisionError \/
  Asuswrt.rate d 0 = Raise OverflowError.
Proof.
  intros Hd. unfold Asuswrt.rate, int_div_float.
  destruct (Z.ltb_spec 0 d); [|lia]. unfold float_of_int.
  destruct (binary_normalize prec emax d 0 false); simpl; auto.
Qed.

End FloatSigns.

Section CounterFacts.
Import Py Eff Transport Re Patterns Asuswrt.
Context {conn : Type} `{!Transport conn}.

Abbreviation state := (@AsusWrt conn).



(** X15. What was read is what the cache serves. After a call of
    [async_get_packets_total] that returned, a call with [use_cache] set
    that falls within the window (a whole number of seconds, not negative;
    the timestamps less than [2^53] microseconds apart) returns the same
    totals and does not use the connection. *)
Theorem cached_totals_are_the_totals_read (a : state) use_cache r a1 timer :
  let now := next_reading a1 in
  async_get_packets_total use_cache a = (Ok r, a1) ->
  (0 <= _cache_time a)%Z ->
  _trans_cache_timer a1 = Some timer ->
  (- 2 ^ 53 < now - timer < 2 ^ 53)%Z ->
  (now - timer < _cache_time a * 1000000)%Z ->
  async_get_packets_total true a1 = (Ok r, tick a1).
Proof.
  intros now Ht Hc Htimer Hb Hw.
  destruct (packets_total_Ok _ _ _ _ Ht) as (<- & _ & _ & _ & Hct & _).
  apply packets_total_hit.
  rewrite cache_is_fresh_window, Htimer by (by rewrite Hct).
  destruct (decide _); [|done]. rewrite Hct. by apply Z.ltb_lt.
Qed.

Lemma rates_without_snapshot (a : state) use_cache res a1 :
  async_get_current_transfer_rates use_cache a = (Ok res, a1) ->
  _rx_latest a = None \/ _tx_latest a = None -> res = None.
Proof.
  unfold async_get_current_transfer_rates. intros H Hnone.
  apply bind_Ok in H as (now & a0 & Hnow & H).
  unfold utcnow, bind, get, modify, ret in Hnow. simpl in Hnow.
  injection Hnow as <- <-.
  apply bind_Ok in H as (data & a2 & Ht & H).
  destruct (packets_total_Ok _ _ _ _ Ht) as (_ & Hrx & Htx & _).
  change (_rx_latest (tick a)) with (_rx_latest a) in Hrx.
  change (_tx_latest (tick a)) with (_tx_latest a) in Htx.
  rewrite bind_get, Hrx, Htx in H.
  assert (forall s : state,
    (modify (set_latest_transfer_check (next_reading a));;
     let! d0 := lift (subscript data 0) in
     modify (set_rx_latest d0);;
     let! d1 := lift (subscript data 1) in
     modify (set_tx_latest d1);; ret None)%eff s = (Ok res, a1) ->
    res = None) as Hfirst.
  { intros s Hs.
    apply bind_Ok in Hs as (? & ? & _ & Hs).
    apply bind_Ok in Hs as (? & ? & _ & Hs).
    apply bind_Ok in Hs as (? & ? & _ & Hs).
    apply bind_Ok in Hs as (? & ? & _ & Hs).
    apply bind_Ok in Hs as (? & ? & _ & Hs).
    by apply ret_Ok in Hs as [-> _]. }
  destruct Hnone as [Hn|Hn]; rewrite Hn in H; [by eapply Hfirst|].
  destruct (_rx_latest a); by eapply Hfirst.
Qed.

Lemma rates_with_snapshot (a : state) use_cache res a1 rx0 tx0 :
  async_get_current_transfer_rates use_cache a = (Ok res, a1) ->
  _rx_latest a = Some rx0 -> _tx_latest a = Some tx0 -> is_Some res.
Proof.
  unfold async_get_current_transfer_rates. intros H Hrx0 Htx0.
  apply bind_Ok in H as (now' & a0 & Hnow & H).
  unfold utcnow, bind, get, modify, ret in Hnow. simpl in Hnow.
  injection Hnow as <- <-.
  apply bind_Ok in H as (data' & a2 & Ht & H).
  destruct (packets_total_Ok _ _ _ _ Ht) as (_ & Hrx' & Htx' & _).
  change (_rx_latest (tick a)) with (_rx_latest a) in Hrx'.
  change (_tx_latest (tick a)) with (_tx_latest a) in Htx'.
  rewrite bind_get, Hrx', Htx', Hrx0, Htx0 in H.
  repeat (let x := fresh "x" in let s := fresh "s" in let Hx := fresh "Hx" in
          apply bind_Ok in H as (x & s & Hx & H)).
  apply ret_Ok in H as [-> _]. done.
Qed.

(** X16. Only a call that finds no snapshot returns nothing. A client
    that holds no snapshot gets [None] from
    [async_get_current_transfer_rates]; once a call has returned, every
    later call that returns gives a pair of rates. *)
Theorem only_the_first_call_returns_nothing (a : state) use_cache res a1 :
  async_get_current_transfer_rates use_cache a = (Ok res, a1) ->
  (_rx_latest a = None \/ _tx_latest a = None -> res = None) /\
  (forall use_cache' res',
     (async_get_current_transfer_rates use_cache' a1).1 = Ok res' ->
     is_Some res').
Proof.
  intros Hr. split; [by eapply rates_without_snapshot|].
  intros use_cache' res' H'%fst_Ok.
  destruct (rates_Ok _ _ _ _ Hr)
    as (data & d0 & d1 & now & _ & _ & _ & Hrx & Htx & _).
  eapply rates_with_snapshot; eauto.
Qed.

(** A call of the estimator that returned rates, taken apart. *)
Lemma rates_returned (a : state) use_cache r t a1 :
  async_get_current_transfer_rates use_cache a = (Ok (Some (r, t)), a1) ->
  exists rx0 tx0 t0 d0 d1,
    _rx_latest a = Some rx0 /\ _tx_latest a = Some tx0 /\
    _latest_transfer_check a = Some t0 /\
    _rx_latest a1 = Some d0 /\ _tx_latest a1 = Some d1 /\
    rate (d0 - rx0) (next_reading a - t0) = Ok r /\
    rate (d1 - tx0) (next_reading a - t0) = Ok t.
Proof.
  unfold async_get_current_transfer_rates. intros H.
  apply bind_Ok in H as (now & a0 & Hnow & H).
  unfold utcnow, bind, get, modify, ret in Hnow. simpl in Hnow.
  injection Hnow as <- <-.
  apply bind_Ok in H as (data & a2 & Ht & H).
  destruct (packets_total_Ok _ _ _ _ Ht) as (_ & Hrx & Htx & Hck & _).
  change (_rx_latest (tick a)) with (_rx_latest a) in Hrx.
  change (_tx_latest (tick a)) with (_tx_latest a) in Htx.
  change (_latest_transfer_check (tick a)) with (_latest_transfer_check a) in Hck.
  rewrite bind_get, Hrx, Htx, Hck in H.
  destruct (_rx_latest a) as [rx0|], (_tx_latest a) as [tx0|];
    repeat (let x := fresh "x" in let s := fresh "s" in let Hx := fresh "Hx" in
            apply bind_Ok in H as (x & s & Hx & H);
            first [ apply lift_Ok in Hx as [Hx ->]
                  | unfold modify in Hx; injection Hx as <- ]);
    apply ret_Ok in H as [[=] ->].
  destruct (_latest_transfer_check a) as [t0|]; [|done].
  simplify_eq. exists rx0, tx0, t0. eexists _, _. simpl.
  split_and!; try done; congruence.
Qed.

(** X17. Rates are not negative while the clock moves forward: when the
    reading of the clock is later than the time of the previous call, both
    rates that [async_get_current_transfer_rates] returns are at least
    zero, whatever the counters did. *)
Theorem rates_are_not_negative (a : state) use_cache r t t0 :
  (async_get_current_transfer_rates use_cache a).1 = Ok (Some (r, t)) ->
  _latest_transfer_check a = Some t0 ->
  (t0 < next_reading a)%Z ->
  (0 <= r)%Z /\ (0 <= t)%Z.
Proof.
  intros (rx0 & tx0 & t0' & d0 & d1 & _ & _ & Hck & _ & _ & Hr & Ht)
    %fst_Ok%rates_returned Ht0 Hlt.
  rewrite Ht0 in Hck. injection Hck as <-.
  split; eapply rate_nonneg; eauto; lia.
Qed.

(** X18. Two calls at the same reading of the clock. When the snapshot
    was taken at the very reading the call gets and the received total has
    grown, [async_get_current_transfer_rates] raises: the quotient is a
    division by zero ([OverflowError] instead when the difference does not
    fit a float). The snapshot has moved to the new totals all the same, so
    that the bytes of that call are not reported later either. *)
Theorem a_call_at_the_same_instant_raises (a : state) use_cache data a1
    d0 d1 rx0 tx0 :
  let now := next_reading a in
  async_get_packets_total use_cache (tick a) = (Ok (Some data), a1) ->
  data !! 0%nat = Some d0 -> data !! 1%nat = Some d1 ->
  _rx_latest a = Some rx0 -> _tx_latest a = Some tx0 ->
  _latest_transfer_check a = Some now ->
  (rx0 < d0)%Z ->
  exists e,
    async_get_current_transfer_rates use_cache a
      = (Raise e,
         set_tx_latest d1 (set_rx_latest d0
           (set_latest_transfer_check now a1))) /\
    (e = ZeroDivisionError \/ e = OverflowError).
Proof.
  intros now Ht H0 H1 Hrx0 Htx0 Ht0 Hd.
  destruct (packets_total_Ok _ _ _ _ Ht) as (_ & Hrx & Htx & Hc & _).
  change (_rx_latest (tick a)) with (_rx_latest a) in Hrx.
  change (_tx_latest (tick a)) with (_tx_latest a) in Htx.
  change (_latest_transfer_check (tick a)) with (_latest_transfer_check a) in Hc.
  unfold async_get_current_transfer_rates.
  rewrite bind_utcnow, (bind_eq _ _ _ _ _ Ht), bind_get, Hrx, Htx, Hrx0, Htx0,
    Hc, Ht0.
  rewrite bind_lift_Ok, bind_modify, (subscript_Some _ _ _ H0), bind_lift_Ok,
    (subscript_Some _ _ _ H1), !bind_lift_Ok, bind_modify, bind_lift_Ok,
    bind_modify.
  fold now. rewrite Z.sub_diag.
  destruct (rate_at_once (d0 - rx0) ltac:(lia)) as [He|He];
    unfold bind at 1, lift at 1; rewrite He; eauto.
Qed.

End CounterFacts.

(** ** The rates in words, and what holds of every state of the client *)

Section ReadableFacts.
Import Py Eff Transport Re Patterns Asuswrt Readable Invariant.
Context {conn : Type} `{!Transport conn}.
Variable convert_size : Z -> result string.

Abbreviation state := (@AsusWrt conn).
Abbreviation human_readable :=
  (async_current_transfer_human_readable convert_size).

(** X19. The rates in words. A call of
    [async_current_transfer_human_readable] on a client that holds no
    snapshot raises [TypeError] once the totals have been read: there is no
    pair to unpack. The snapshot has been taken by then; [convert_size] is
    not called. A call for which the estimator returns a pair gives the two
    texts of [convert_size], each followed by [/s]. *)
Theorem rates_in_words (a : state) use_cache rates :
  (async_get_current_transfer_rates use_cache a).1 = Ok rates ->
  let a' := (async_get_current_transfer_rates use_cache a).2 in
  (_rx_latest a = None \/ _tx_latest a = None ->
   human_readable use_cache a = (Raise TypeError, a') /\
   is_Some (_rx_latest a') /\ is_Some (_tx_latest a')) /\
  (forall rx tx rx_text tx_text,
     rates = Some (rx, tx) ->
     convert_size rx = Ok rx_text -> convert_size tx = Ok tx_text ->
     human_readable use_cache a
       = (Ok (rx_text +:+ "/s", tx_text +:+ "/s"), a')).
Proof.
  intros Hr%fst_Ok a'. fold a' in Hr. split.
  - intros Hnone.
    rewrite (rates_without_snapshot _ _ _ _ Hr Hnone) in Hr.
    destruct (rates_Ok _ _ _ _ Hr)
      as (data & d0 & d1 & now & _ & _ & _ & Hrx & Htx & _).
    split_and!; [|by rewrite Hrx|by rewrite Htx].
    unfold async_current_transfer_human_readable.
    by rewrite (bind_eq _ _ _ _ _ Hr).
  - intros rx tx rx_text tx_text -> Hrx Htx.
    unfold async_current_transfer_human_readable.
    rewrite (bind_eq _ _ _ _ _ Hr). simpl.
    rewrite bind_lift_Ok. simpl. rewrite Hrx, bind_lift_Ok, Htx, bind_lift_Ok.
    reflexivity.
Qed.

(** *** Invariants *)

Lemma kept_refl (a : state) : kept a a.
Proof. by unfold kept. Qed.

Lemma kept_trans (a1 a2 a3 : state) : kept a1 a2 -> kept a2 a3 -> kept a1 a3.
Proof.
  unfold kept. intros (-> & -> & -> & -> & ? & ? & ?) (-> & -> & -> & -> & ? & ? & ?).
  split_and!; try done; [lia|auto..].
Qed.

Lemma keeps_ret {A} (x : A) : keeps (ret x : M state A).
Proof. intros a. apply kept_refl. Qed.

Lemma keeps_lift {A} (r : result A) : keeps (lift r : M state A).
Proof. intros a. apply kept_refl. Qed.

Lemma keeps_bind {A B} (m : M state A) (f : A -> M state B) :
  keeps m -> (forall x, keeps (f x)) -> keeps (bind m f).
Proof.
  intros Hm Hf a. unfold bind. specialize (Hm a).
  destruct (m a) as [[x|e] a1]; simpl in *; [|done].
  eapply kept_trans; [done|]. apply Hf.
Qed.

Lemma keeps_get_bind {B} (f : state -> M state B) :
  (forall s, keeps (f s)) -> keeps (bind get f).
Proof. intros Hf a. rewrite bind_get. apply Hf. Qed.

Lemma keeps_run_command cmd : keeps (run_command cmd).
Proof.
  intros a. unfold run_command.
  destruct (async_run_command cmd (connection a)) as [r c]. by unfold kept.
Qed.

Lemma keeps_utcnow : keeps (utcnow : M state Z).
Proof. intros a. unfold kept. simpl. split_and!; auto. Qed.

Lemma keeps_set_transfer_rates_cache l :
  keeps (modify (set_transfer_rates_cache l) : M state unit).
Proof. intros a. unfold kept. simpl. split_and!; eauto. Qed.

Lemma keeps_set_trans_cache_timer t :
  forall a : state, is_Some (_transfer_rates_cache a) ->
  kept a (modify (set_trans_cache_timer t) a).2.
Proof. intros a Hs. unfold kept. simpl. split_and!; eauto. Qed.

Lemma keeps_set_latest_transfer_check t :
  keeps (modify (set_latest_transfer_check t) : M state unit).
Proof. intros a. unfold kept. simpl. split_and!; eauto. Qed.

Lemma keeps_set_rx_latest v :
  forall a : state, is_Some (_latest_transfer_check a) ->
  kept a (modify (set_rx_latest v) a).2.
Proof. intros a Hs. unfold kept. simpl. split_and!; eauto. Qed.

Lemma keeps_set_tx_latest v :
  keeps (modify (set_tx_latest v) : M state unit).
Proof. intros a. unfold kept. simpl. split_and!; eauto. Qed.

Lemma keeps_getter cmd (parse : list string -> result table) :
  keeps (let! lines := run_command cmd in
         if falsy lines then ret ∅
         else let! lines := lift (iterate lines) in lift (parse lines))%eff.
Proof.
  apply keeps_bind; [apply keeps_run_command|]. intros o.
  destruct (falsy o); [apply keeps_ret|].
  apply keeps_bind; [apply keeps_lift|]. intros. apply keeps_lift.
Qed.

Lemma keeps_wl : keeps async_get_wl.
Proof.
  apply (keeps_getter _
           (fun ls => for_each wl_body (_parse_lines ls _WL_REGEX) ∅)).
Qed.

Lemma keeps_arp : keeps async_get_arp.
Proof.
  apply (keeps_getter _
           (fun ls => for_each arp_body (_parse_lines ls _ARP_REGEX) ∅)).
Qed.

Lemma keeps_neigh cur : keeps (async_get_neigh cur).
Proof.
  apply (keeps_getter _
           (fun ls => for_each (neigh_body cur)
                        (_parse_lines ls _IP_NEIGH_REGEX) ∅)).
Qed.

Lemma keeps_leases cur : keeps (async_get_leases cur).
Proof.
  apply (keeps_getter _
           (fun ls => for_each (leases_body cur)
                        (_parse_lines
                           (List.filter
                              (fun line => negb (startswith "duid " line)) ls)
                           _LEASES_REGEX) ∅)).
Qed.

Lemma keeps_connected_devices : keeps async_get_connected_devices.
Proof.
  unfold async_get_connected_devices, devices_before_leases.
  apply keeps_bind.
  { apply keeps_bind; [apply keeps_wl|]. intros wl.
    apply keeps_bind; [apply keeps_arp|]. intros arp.
    apply keeps_bind; [apply keeps_neigh|]. intros neigh.
    apply keeps_ret. }
  intros devices. apply keeps_get_bind. intros s.
  apply keeps_bind; [|intros; apply keeps_ret].
  destruct (negb (String.eqb (mode s) "ap")); [|apply keeps_ret].
  apply keeps_bind; [apply keeps_leases|]. intros. apply keeps_ret.
Qed.

Lemma keeps_packets_total use_cache : keeps (async_get_packets_total use_cache).
Proof.
  unfold async_get_packets_total.
  apply keeps_bind; [apply keeps_utcnow|]. intros now.
  apply keeps_get_bind. intros s.
  destruct (cache_is_fresh use_cache s now); [apply keeps_ret|].
  apply keeps_bind; [apply keeps_run_command|]. intros data.
  apply keeps_bind; [apply keeps_lift|]. intros line.
  intros a. rewrite !bind_modify. unfold ret, kept. simpl.
  split_and!; eauto.
Qed.

Lemma keeps_rx use_cache : keeps (async_get_rx use_cache).
Proof.
  apply keeps_bind; [apply keeps_packets_total|]. intros. apply keeps_lift.
Qed.

Lemma keeps_tx use_cache : keeps (async_get_tx use_cache).
Proof.
  apply keeps_bind; [apply keeps_packets_total|]. intros. apply keeps_lift.
Qed.

Lemma keeps_snapshot {A} now (data : option (list Z)) (k : M state A) :
  keeps k ->
  keeps (modify (set_latest_transfer_check now);;
         let! d0 := lift (subscript data 0) in
         modify (set_rx_latest d0);;
         let! d1 := lift (subscript data 1) in
         modify (set_tx_latest d1);; k)%eff.
Proof.
  intros Hk a. rewrite bind_modify. unfold bind at 1, lift at 1.
  destruct (subscript data 0) as [d0|e]; simpl.
  2: { unfold kept. simpl. split_and!; eauto. }
  rewrite bind_modify. unfold bind at 1, lift at 1.
  destruct (subscript data 1) as [d1|e]; simpl.
  2: { unfold kept. simpl. split_and!; eauto. }
  rewrite bind_modify. eapply kept_trans; [|apply Hk].
  unfold kept. simpl. split_and!; eauto.
Qed.

Lemma keeps_rates use_cache : keeps (async_get_current_transfer_rates use_cache).
Proof.
  unfold async_get_current_transfer_rates.
  apply keeps_bind; [apply keeps_utcnow|]. intros now.
  apply keeps_bind; [apply keeps_packets_total|]. intros data.
  apply keeps_get_bind. intros s.
  destruct (_rx_latest s) as [rx0|], (_tx_latest s) as [tx0|];
    try (apply keeps_snapshot, keeps_ret).
  apply keeps_bind; [apply keeps_lift|]. intros time_diff.
  intros a. rewrite bind_modify.
  unfold bind at 1, lift at 1.
  destruct (subscript data 0) as [d0|e]; simpl.
  2: { unfold kept. simpl. split_and!; eauto. }
  unfold bind at 1, lift at 1.
  destruct (subscript data 1) as [d1|e]; simpl.
  2: { unfold kept. simpl. split_and!; eauto. }
  rewrite !bind_lift_Ok, bind_modify, bind_lift_Ok, bind_modify.
  unfold bind, lift, ret.
  destruct (rate _ _); [destruct (rate _ _)|]; simpl;
    unfold kept; simpl; split_and!; eauto.
Qed.

Lemma keeps_human_readable use_cache : keeps (human_readable use_cache).
Proof.
  unfold async_current_transfer_human_readable.
  apply keeps_bind; [apply keeps_rates|]. intros rates.
  apply keeps_bind; [apply keeps_lift|]. intros rx_tx.
  apply keeps_bind; [apply keeps_lift|]. intros rx_text.
  apply keeps_bind; [apply keeps_lift|]. intros tx_text.
  apply keeps_ret.
Qed.

Lemma kept_state_after m (a : state) : kept a (state_after convert_size m a).
Proof.
  destruct m; simpl.
  - apply keeps_wl.
  - apply keeps_arp.
  - apply keeps_neigh.
  - apply keeps_leases.
  - apply keeps_connected_devices.
  - apply keeps_packets_total.
  - apply keeps_rx.
  - apply keeps_tx.
  - apply keeps_rates.
  - apply keeps_human_readable.
Qed.

Lemma client_state_kept (a0 a : state) :
  client_state convert_size a0 a -> kept a0 a.
Proof.
  induction 1 as [|a m Ha IH]; [apply kept_refl|].
  eapply kept_trans; [done|]. apply kept_state_after.
Qed.

(** X20. What holds of every state that a client reaches from [__init__]
    by calls of its methods: the settings and the clock are those it was
    made with; a timestamp of the cache comes with cached totals, so that
    [async_get_packets_total], when it returns, returns a list; a snapshot
    of the estimator comes with the time it was taken at. *)
Theorem client_invariants (c : conn) mode0 require_ip0 time_cache clock0
    (a : state) :
  client_state convert_size (__init__ c mode0 require_ip0 time_cache clock0) a ->
  require_ip a = require_ip0 /\ mode a = mode0 /\
  _cache_time a = time_cache /\ clock a = clock0 /\
  (is_Some (_rx_latest a) -> is_Some (_latest_transfer_check a)) /\
  (forall use_cache totals,
     (async_get_packets_total use_cache a).1 = Ok totals -> is_Some totals).
Proof.
  intros (Hr & Hm & Hc & Hk & _ & Hcache & Hsnap)%client_state_kept.
  split_and!; try done.
  - apply Hsnap. by intros [? ?].
  - intros use_cache totals Ht.
    destruct (cache_is_fresh use_cache a (next_reading a)) eqn:Hf.
    + rewrite (packets_total_hit _ _ Hf) in Ht. simpl in Ht.
      injection Ht as <-.
      apply Hcache; [by intros [? ?]|].
      unfold cache_is_fresh in Hf. destruct (_trans_cache_timer a); [done|].
      by rewrite andb_false_r in Hf.
    + revert Ht.
      unfold async_get_packets_total, utcnow, bind, get, modify, ret. simpl.
      change (cache_is_fresh use_cache (tick a) (next_reading a))
        with (cache_is_fresh use_cache a (next_reading a)).
      rewrite Hf.
      destruct (run_command _IFCONFIG_CMD (tick a)) as [[o|e] a2]; [|done].
      unfold lift. destruct (first_line o); [|done]. simpl.
      by intros [= <-].
Qed.

End ReadableFacts.

(** ** Lines that the patterns accept *)

Section FirstWay.
Import Py Re ReSem Patterns Accept.

Lemma first_way_eps s e : first_way Eps s e s e.
Proof. by intros R k v Hk. Qed.

Lemma first_way_cls (p : cls) c s e :
  p c = true -> first_way (Cls p) (String c s) e s e.
Proof. intros Hp R k v Hk. simpl. by rewrite Hp. Qed.

Lemma first_way_cat r1 r2 s e s1 e1 s2 e2 :
  first_way r1 s e s1 e1 -> first_way r2 s1 e1 s2 e2 ->
  first_way (Cat r1 r2) s e s2 e2.
Proof. intros H1 H2 R k v Hk. simpl. apply H1. by apply H2. Qed.

Lemma first_way_alt r1 r2 s e s' e' :
  first_way r1 s e s' e' -> first_way (Alt r1 r2) s e s' e'.
Proof. intros H1 R k v Hk. simpl. by rewrite (H1 R k v Hk). Qed.

Lemma first_way_named n r s e s' e' :
  first_way r s e s' e' ->
  first_way (Named n r) s e s' (<[n := consumed s s']> e').
Proof. intros H R k v Hk. simpl. by apply H. Qed.

Lemma first_way_many p : forall w lo s' e,
  all_of p w = true -> (lo <= String.length w)%nat -> stops p s' = true ->
  first_way (Many p lo) (w +:+ s') e s' e.
Proof.
  induction w as [|c w IH]; intros lo s' e Hw Hlo Hs R k v Hk.
  - simpl in *. assert (lo = 0)%nat as -> by lia.
    destruct s' as [|c s']; simpl; [done|].
    simpl in Hs. apply negb_true_iff in Hs. by rewrite Hs.
  - simpl in *. apply andb_true_iff in Hw as [Hc Hw]. rewrite Hc.
    assert (many p (Nat.pred lo) (w +:+ s') e k = Some v) as ->; [|done].
    apply (IH (Nat.pred lo) s' e Hw ltac:(lia) Hs R k v Hk).
Qed.

(** A bounded run of a class: as many characters as there are, up to the
    bound. *)
Lemma rep_cls {R} (p : cls)
    (m : string -> captures -> (string -> captures -> option R) -> option R) :
  (forall c s e k, m (String c s) e k = if p c then k s e else None) ->
  (forall e k, m "" e k = None) ->
  forall w lo hi s' e k v,
    all_of p w = true -> (lo <= String.length w <= hi)%nat ->
    (String.length w = hi \/ stops p s' = true) ->
    k s' e = Some v ->
    rep m lo hi (w +:+ s') e k = Some v.
Proof.
  intros Hm Hm0.
  induction w as [|c w IH]; intros lo hi s' e k v Hw Hlo Hs Hk.
  - simpl in *. assert (lo = 0)%nat as -> by lia.
    destruct hi as [|hi]; simpl; [done|].
    destruct Hs as [Hs|Hs]; [lia|].
    destruct s' as [|c s']; simpl; [by rewrite Hm0|].
    simpl in Hs. apply negb_true_iff in Hs. by rewrite Hm, Hs.
  - simpl in *. apply andb_true_iff in Hw as [Hc Hw].
    destruct hi as [|hi]; [lia|]. simpl. rewrite Hm, Hc.
    rewrite (IH (Nat.pred lo) hi s' e k v); [done|done|lia| |done].
    destruct Hs as [Hs|Hs]; [left; lia|by right].
Qed.

Lemma first_way_rep_cls p w lo hi s' e :
  all_of p w = true -> (lo <= String.length w <= hi)%nat ->
  (String.length w = hi \/ stops p s' = true) ->
  first_way (Rep (Cls p) lo hi) (w +:+ s') e s' e.
Proof.
  intros Hw Hlo Hs R k v Hk.
  apply (rep_cls p (rmatch (Cls p))); try done.
Qed.

(** A repetition run to its upper bound. *)
Lemma first_way_rep r : forall hi lo s e s' e',
  (lo <= hi)%nat -> Iter (first_way r) hi s e s' e' ->
  first_way (Rep r lo hi) s e s' e'.
Proof.
  induction hi as [|hi IH]; intros lo s e s' e' Hlo HI R k v Hk.
  - simpl in *. destruct HI as [-> ->]. by assert (lo = 0)%nat as -> by lia.
  - simpl in *. destruct HI as (s1 & e1 & H1 & HI).
    assert (rmatch r s e (fun s0 e0 => rep (rmatch r) (Nat.pred lo) hi s0 e0 k)
            = Some v) as ->; [|done].
    apply H1. apply (IH (Nat.pred lo) s1 e1 s' e'); [lia|done|done].
Qed.

(** An optional part that is not there. *)
Lemma first_way_opt_absent r s e :
  no_way r s e -> first_way (opt r) s e s e.
Proof. intros Hn R k v Hk. unfold opt. simpl. by rewrite Hn. Qed.

Lemma no_way_cls p c s e : p c = false -> no_way (Cls p) (String c s) e.
Proof. intros Hp R k. simpl. by rewrite Hp. Qed.

Lemma no_way_cat r1 r2 s e : no_way r1 s e -> no_way (Cat r1 r2) s e.
Proof. intros Hn R k. simpl. apply Hn. Qed.

Lemma first_way_match_here r s s' e' :
  first_way r s ∅ s' e' -> match_here r s = Some (e', s').
Proof. intros H. unfold match_here. by apply H. Qed.

Lemma first_way_search r s s' e' :
  first_way r s ∅ s' e' -> search r s = Some e'.
Proof.
  intros H%first_way_match_here. destruct s; simpl; by rewrite H.
Qed.

End FirstWay.

Section PatternWays.
Import Py Re ReSem Patterns Accept Props.

Abbreviation pair_sep h := (Cat (Rep (Cls h) 2 2) (Cls mac_sep)).

Lemma first_way_pairs (h : cls) : forall n w s' e,
  mac_shape h mac_sep (S n) w = true ->
  exists s1,
    Iter (first_way (pair_sep h)) n (w +:+ s') e s1 e /\
    first_way (Rep (Cls h) 2 2) s1 e s' e.
Proof.
  induction n as [|n IH]; intros w s' e Hw.
  - destruct w as [|a [|b [|c w]]]; try done. simpl in Hw.
    apply andb_true_iff in Hw as [Ha Hb].
    exists (String a (String b "") +:+ s'). split; [done|].
    apply (first_way_rep_cls h (String a (String b ""))); simpl;
      [by rewrite Ha, Hb|lia|by left].
  - destruct w as [|a [|b [|c w]]]; try done.
    change (mac_shape h mac_sep (S (S n)) (String a (String b (String c w))))
      with (h a && h b && mac_sep c && mac_shape h mac_sep (S n) w) in Hw.
    apply andb_true_iff in Hw as [Hw Hrest].
    apply andb_true_iff in Hw as [Hw Hc].
    apply andb_true_iff in Hw as [Ha Hb].
    destruct (IH w s' e Hrest) as (s1 & HI & Hlast).
    exists s1. split; [|done].
    exists (w +:+ s'), e. split; [|done].
    apply (first_way_cat _ _ _ _ (String c (w +:+ s')) e).
    + apply (first_way_rep_cls h (String a (String b "")) 2 2
               (String c (w +:+ s'))); simpl;
        [by rewrite Ha, Hb|lia|by left].
    + by apply first_way_cls.
Qed.

Lemma first_way_mac (h : cls) w s' e :
  mac_shape h mac_sep 6 w = true ->
  first_way (Named "mac" (mac_pat h)) (w +:+ s') e s' (<["mac" := w]> e).
Proof.
  intros Hw. destruct (first_way_pairs h 5 w s' e Hw) as (s1 & HI & Hlast).
  rewrite <- (consumed_app w s') at 2. apply first_way_named.
  unfold mac_pat. eapply first_way_cat; [|done].
  by apply first_way_rep.
Qed.

Lemma octet_run w s' e :
  octet w = true ->
  first_way (Cat (Rep (Cls digit) 1 3) (Cls (one ".")))
            (w +:+ "." +:+ s') e s' e.
Proof.
  unfold octet. intros [[Hd Hlo%Nat.leb_le]%andb_true_iff Hhi%Nat.leb_le]%andb_true_iff.
  apply (first_way_cat _ _ _ _ ("." +:+ s') e);
    [|by apply (first_way_cls (one ".") "." s')].
  apply first_way_rep_cls; [done|lia|by right].
Qed.

Lemma dotted_app a b c d s' :
  dotted a b c d +:+ s' = a +:+ "." +:+ b +:+ "." +:+ c +:+ "." +:+ d +:+ s'.
Proof.
  unfold dotted.
  by rewrite !append_assoc.
Qed.

Lemma first_way_ipv4 a b c d s' e :
  octet a = true -> octet b = true -> octet c = true -> octet d = true ->
  stops digit s' = true ->
  first_way ipv4_pat (dotted a b c d +:+ s') e s' e.
Proof.
  intros Ha Hb Hc Hd Hs. rewrite dotted_app. unfold ipv4_pat.
  apply (first_way_cat _ _ _ _ (d +:+ s') e).
  - apply first_way_rep; [lia|].
    exists (b +:+ "." +:+ c +:+ "." +:+ d +:+ s'), e.
    split; [by apply octet_run|].
    exists (c +:+ "." +:+ d +:+ s'), e. split; [by apply octet_run|].
    exists (d +:+ s'), e. split; [by apply octet_run|done].
  - unfold octet in Hd.
    apply andb_true_iff in Hd as [[Hd Hlo%Nat.leb_le]%andb_true_iff Hhi%Nat.leb_le].
    apply first_way_rep_cls; [done|lia|by right].
Qed.

Lemma first_way_ip (r : regex) a b c d s' e :
  first_way r (dotted a b c d +:+ s') e s' e ->
  first_way (Named "ip" r) (dotted a b c d +:+ s') e s'
            (<["ip" := dotted a b c d]> e).
Proof.
  intros H. rewrite <- (consumed_app (dotted a b c d) s') at 2.
  by apply first_way_named.
Qed.

Lemma first_way_word w s' e :
  is_word w = true -> stops word s' = true ->
  first_way (Many word 1) (w +:+ s') e s' e.
Proof.
  unfold is_word. intros [Hw Hl%Nat.leb_le]%andb_true_iff Hs.
  by apply first_way_many.
Qed.

Lemma first_way_space s e : first_way (Cls space) (" " +:+ s) e s e.
Proof. by apply (first_way_cls space " " s). Qed.

(** The lease pattern on a line of the lease file. *)
Lemma leases_first_way ts m a b c d h rest :
  is_word ts = true -> lower_mac m ->
  octet a = true -> octet b = true -> octet c = true -> octet d = true ->
  all_of (neg space) h = true -> h <> "" ->
  stops (neg space) rest = true ->
  first_way _LEASES_REGEX
    (ts +:+ " " +:+ m +:+ " " +:+ dotted a b c d +:+ " " +:+ h +:+ rest) ∅
    rest
    (<["host" := h]> (<["ip" := dotted a b c d]> (<["mac" := m]> ∅))).
Proof.
  intros Hts Hm Ha Hb Hc Hd Hh Hne Hrest. unfold _LEASES_REGEX, seq. simpl.
  eapply first_way_cat; [by apply first_way_word|].
  eapply first_way_cat; [apply first_way_space|].
  eapply first_way_cat; [by apply first_way_mac|].
  eapply first_way_cat; [apply first_way_space|].
  eapply first_way_cat; [by apply first_way_ip, first_way_ipv4|].
  eapply first_way_cat; [apply first_way_space|].
  eapply first_way_cat; [|apply first_way_eps].
  rewrite <- (consumed_app h rest) at 2. apply first_way_named.
  apply first_way_many; [done| |done].
  destruct h; [done|simpl; lia].
Qed.

End PatternWays.

Section PatternWays2.
Import Py Re ReSem Patterns Accept Props.

Lemma wl_first_way w m rest :
  is_word w = true -> upper_mac m ->
  first_way _WL_REGEX (w +:+ " " +:+ m +:+ rest) ∅ rest (<["mac" := m]> ∅).
Proof.
  intros Hw Hm. unfold _WL_REGEX, seq. simpl.
  eapply first_way_cat; [by apply first_way_word|].
  eapply first_way_cat; [apply first_way_space|].
  eapply first_way_cat; [by apply first_way_mac|apply first_way_eps].
Qed.

Lemma first_way_opt_present r s e s' e' :
  first_way r s e s' e' -> first_way (opt r) s e s' e'.
Proof.
  intros H. unfold opt. apply first_way_rep; [lia|].
  exists s', e'. by split.
Qed.

Lemma word_not_space c : word c = true -> space c = false.
Proof. destruct c as [[] [] [] [] [] [] [] []]; by vm_compute. Qed.

(** The IP-neighbor pattern on a line for an IPv4 neighbour with a
    link-layer address. *)
Lemma neigh_first_way a b c d w1 w2 w3 m c0 st rest :
  octet a = true -> octet b = true -> octet c = true -> octet d = true ->
  is_word w1 = true -> is_word w2 = true -> is_word w3 = true ->
  lower_mac m ->
  is_word (String c0 st) = true -> c0 <> "r"%char -> c0 <> "n"%char ->
  stops word rest = true ->
  first_way _IP_NEIGH_REGEX
    (dotted a b c d +:+ " " +:+ w1 +:+ " " +:+ w2 +:+ " " +:+ w3 +:+ " "
       +:+ m +:+ " " +:+ String c0 st +:+ rest) ∅
    rest
    (<["status" := String c0 st]>
       (<["mac" := m]> (<["ip" := dotted a b c d]> ∅))).
Proof.
  intros Ha Hb Hc Hd H1 H2 H3 Hm Hst Hr Hn Hrest.
  assert (word c0 = true) as Hc0.
  { unfold is_word in Hst. simpl in Hst.
    by apply andb_true_iff in Hst as [[? _]%andb_true_iff _]. }
  unfold _IP_NEIGH_REGEX, seq. simpl.
  eapply first_way_cat;
    [by apply first_way_ip, first_way_alt, first_way_ipv4|].
  eapply first_way_cat; [apply first_way_space|].
  eapply first_way_cat; [by apply first_way_word|].
  eapply first_way_cat; [apply first_way_space|].
  eapply first_way_cat; [by apply first_way_word|].
  eapply first_way_cat; [apply first_way_space|].
  eapply first_way_cat.
  { apply first_way_opt_present.
    eapply first_way_cat; [by apply first_way_word|].
    eapply first_way_cat; [apply first_way_space|].
    eapply first_way_cat; [by apply first_way_mac|apply first_way_eps]. }
  eapply first_way_cat; [apply first_way_space|].
  eapply first_way_cat.
  { apply first_way_opt_absent.
    apply (no_way_cls space c0). by apply word_not_space. }
  eapply first_way_cat.
  { apply first_way_opt_absent. apply no_way_cat.
    apply (no_way_cls (one "r") c0). by apply Ascii.eqb_neq. }
  eapply first_way_cat.
  { apply first_way_opt_absent.
    apply (no_way_cls space c0). by apply word_not_space. }
  eapply first_way_cat.
  { apply first_way_opt_absent. apply no_way_cat.
    apply (no_way_cls (one "n") c0). by apply Ascii.eqb_neq. }
  eapply first_way_cat; [|apply first_way_eps].
  change (String c0 (st +:+ rest)) with (String c0 st +:+ rest).
  rewrite <- (consumed_app (String c0 st) rest) at 2. apply first_way_named.
  by apply first_way_word.
Qed.

End PatternWays2.

Section Accepted.
Import Py Eff Transport Re ReSem Patterns Asuswrt Accept Props.
Context {conn : Type} `{!Transport conn}.

Abbreviation state := (@AsusWrt conn).

Lemma parsed_intro lines regex line e :
  line ∈ lines -> search regex line = Some e ->
  groupdict regex e ∈ _parse_lines lines regex.
Proof.
  intros Hin Hs. unfold _parse_lines. apply list_elem_of_omap.
  exists line. split; [done|]. by rewrite Hs.
Qed.

Lemma parse_one_line regex line e :
  search regex line = Some e -> _parse_lines [line] regex = [groupdict regex e].
Proof.
  intros Hs. unfold _parse_lines.
  change (omap (fun l => groupdict regex <$> search regex l) [line])
    with (match groupdict regex <$> search regex line with
          | Some y => [y]
          | None => []
          end).
  by rewrite Hs.
Qed.

(** A loop whose rounds only add entries keeps the entry of a round. *)
Lemma for_each_present (body : table -> record -> result table)
    (entry : record -> string -> Device -> Prop) k device :
  (forall acc dev acc', body acc dev = Ok acc' ->
     acc' = acc \/ exists k' d, acc' = <[k' := d]> acc /\ entry dev k' d) ->
  (forall acc acc', body acc device = Ok acc' -> is_Some (acc' !! k)) ->
  forall records acc t,
    for_each body records acc = Ok t ->
    device ∈ records \/ is_Some (acc !! k) -> is_Some (t !! k).
Proof.
  intros Hbody Hdev records.
  induction records as [|dev records IH]; intros acc t H Hin.
  - simpl in H. injection H as <-. destruct Hin as [Hin|Hin]; [|done].
    by apply elem_of_nil in Hin.
  - simpl in H. apply rbind_Ok in H as (acc' & Hb & H).
    apply (IH _ _ H). destruct Hin as [[->|Hin]%elem_of_cons|Hacc].
    + right. by eapply Hdev.
    + by left.
    + right. apply Hbody in Hb as [->|(k' & d & -> & _)]; [done|].
      destruct (decide (k' = k)) as [->|Hne].
      * rewrite lookup_insert_eq. eauto.
      * by rewrite lookup_insert_ne.
Qed.

Lemma upper_char_hex_upper c : hex_upper c = true -> upper_char c = c.
Proof. destruct c as [[] [] [] [] [] [] [] []]; by vm_compute. Qed.

Lemma upper_char_mac_sep c : mac_sep c = true -> upper_char c = c.
Proof. destruct c as [[] [] [] [] [] [] [] []]; by vm_compute. Qed.

Lemma upper_upper_mac : forall n m,
  mac_shape hex_upper mac_sep n m = true -> upper m = m.
Proof.
  induction n as [|n IH]; intros m Hm; [by destruct m|].
  destruct n as [|n].
  - destruct m as [|a [|b [|c w]]]; try done. simpl in Hm.
    apply andb_true_iff in Hm as [Ha Hb]. cbn [upper].
    by rewrite (upper_char_hex_upper a), (upper_char_hex_upper b).
  - destruct m as [|a [|b [|c w]]]; try done.
    change (mac_shape hex_upper mac_sep (S (S n)) (String a (String b (String c w))))
      with (hex_upper a && hex_upper b && mac_sep c
            && mac_shape hex_upper mac_sep (S n) w) in Hm.
    apply andb_true_iff in Hm as [Hm Hrest].
    apply andb_true_iff in Hm as [Hm Hc].
    apply andb_true_iff in Hm as [Ha Hb]. cbn [upper].
    by rewrite (upper_char_hex_upper a), (upper_char_hex_upper b),
      (upper_char_mac_sep c), (IH w).
Qed.

(** X21. A station of the association list. On a line that reads a word,
    a space and a MAC address in upper-case hex digits, whatever follows, the
    wireless pattern captures that address; whenever the router prints such
    a line, [async_get_wl] returns an entry for the address, without IP
    address and without name. *)
Theorem associated_station_is_listed (a : state) w m rest :
  is_word w = true -> upper_mac m ->
  let line := w +:+ " " +:+ m +:+ rest in
  _parse_lines [line] _WL_REGEX = [ {[ "mac" := Some m ]} ] /\
  forall lines t,
    (run_command _WL_CMD a).1 = Ok (Lines lines) -> line ∈ lines ->
    (async_get_wl a).1 = Ok t ->
    t !! m = Some {| mac := m; ip := None; name := None |}.
Proof.
  intros Hw Hm line.
  pose proof (first_way_search _ _ _ _ (wl_first_way w m rest Hw Hm)) as Hs.
  fold line in Hs.
  assert (groupdict _WL_REGEX (<["mac" := m]> ∅) = {[ "mac" := Some m ]}) as Hg.
  { unfold groupdict. simpl. by rewrite lookup_insert_eq. }
  split.
  - by rewrite (parse_one_line _ _ _ Hs), Hg.
  - intros lines t Hrun%fst_Ok Hin Ht%fst_Ok.
    destruct (async_get_wl_Ok _ _ _ Ht) as (lines' & Hrun' & Hloop).
    rewrite Hrun in Hrun'. injection Hrun' as <-.
    pose proof (parsed_intro _ _ _ _ Hin Hs) as Hrec. rewrite Hg in Hrec.
    assert (forall acc acc' : table,
              wl_body acc {[ "mac" := Some m ]} = Ok acc' ->
              is_Some (acc' !! m)) as Hround.
    { intros acc acc'. unfold wl_body, dict_getitem.
      rewrite lookup_singleton_eq. simpl. rewrite (upper_upper_mac 6 m Hm).
      intros [= <-]. rewrite lookup_insert_eq. eauto. }
    destruct (for_each_present wl_body wl_entry m _ wl_body_entry
                Hround _ _ _ Hloop (or_introl Hrec)) as [dv Hdv].
    rewrite Hdv. f_equal. eapply wl_entry_fields; eauto.
Qed.

(** X22. A line of the lease file. On a line that reads a word, a MAC
    address in lower-case hex digits, a dotted IPv4 address and a host name,
    single spaces between them, the lease pattern captures the three; the
    loop stores for it, when the MAC address is a key of the table handed
    in, the IP address and the host name, the empty name for [*]; and
    whenever the router prints such a line, not starting with [duid ], for a
    MAC address of that table, [async_get_leases] returns an entry for it. *)
Theorem lease_line_is_read (a : state) cur ts m o1 o2 o3 o4 h rest :
  is_word ts = true -> lower_mac m ->
  octet o1 = true -> octet o2 = true -> octet o3 = true -> octet o4 = true ->
  all_of (neg space) h = true -> h <> "" -> stops (neg space) rest = true ->
  is_Some (cur !! upper m) ->
  let i := dotted o1 o2 o3 o4 in
  let line := ts +:+ " " +:+ m +:+ " " +:+ i +:+ " " +:+ h +:+ rest in
  let device : record :=
    <["mac" := Some m]> (<["ip" := Some i]> (<["host" := Some h]> ∅)) in
  _parse_lines [line] _LEASES_REGEX = [device] /\
  (forall devices,
     leases_body cur devices device
     = Ok (<[upper m := {| mac := upper m; ip := Some i;
                           name := Some (if decide (h = "*") then "" else h) |}]>
             devices)) /\
  forall lines L,
    (run_command _LEASES_CMD a).1 = Ok (Lines lines) -> line ∈ lines ->
    startswith "duid " line = false ->
    (async_get_leases cur a).1 = Ok L ->
    is_Some (L !! upper m).
Proof.
  intros Hts Hm H1 H2 H3 H4 Hh Hne Hrest Hcur i line device.
  pose proof (first_way_search _ _ _ _
                (leases_first_way ts m o1 o2 o3 o4 h rest
                   Hts Hm H1 H2 H3 H4 Hh Hne Hrest)) as Hs.
  fold i in Hs. fold line in Hs.
  assert (groupdict _LEASES_REGEX
            (<["host" := h]> (<["ip" := i]> (<["mac" := m]> ∅))) = device) as Hg.
  { unfold groupdict, device. simpl.
    rewrite lookup_insert_eq.
    rewrite (lookup_insert_ne _ "host" "ip"), lookup_insert_eq by done.
    by rewrite (lookup_insert_ne _ "host" "mac"),
      (lookup_insert_ne _ "ip" "mac"), lookup_insert_eq by done. }
  assert (forall devices,
     leases_body cur devices device
     = Ok (<[upper m := {| mac := upper m; ip := Some i;
                           name := Some (if decide (h = "*") then "" else h) |}]>
             devices)) as Hround.
  { intros devices. unfold leases_body, dict_getitem, device.
    rewrite (lookup_insert_ne _ "mac" "host"),
      (lookup_insert_ne _ "ip" "host"), lookup_insert_eq by done. simpl.
    rewrite lookup_insert_eq. simpl. destruct Hcur as [o ->].
    rewrite (lookup_insert_ne _ "mac" "ip"), lookup_insert_eq by done. simpl.
    do 3 f_equal.
    destruct (decide (h = "*")) as [->|Hn]; [done|].
    destruct (decide (Some h = Some "*")); [congruence|done]. }
  split_and!; [by rewrite (parse_one_line _ _ _ Hs), Hg|done|].
  intros lines L Hrun%fst_Ok Hin Hduid HL%fst_Ok.
  destruct (async_get_leases_Ok _ _ _ _ HL) as (lines' & Hrun' & Hloop).
  rewrite Hrun in Hrun'. injection Hrun' as <-.
  assert (line ∈ List.filter (fun l => negb (startswith "duid " l)) lines)
    as Hin'.
  { apply list_elem_of_In, filter_In. rewrite <- list_elem_of_In.
    by rewrite Hduid. }
  pose proof (parsed_intro _ _ _ _ Hin' Hs) as Hrec. rewrite Hg in Hrec.
  eapply (for_each_present (leases_body cur) (leases_entry cur) (upper m) device
            (leases_body_entry cur)); [|done|by left].
  intros acc acc'. rewrite Hround. intros [= <-].
  rewrite lookup_insert_eq. eauto.
Qed.

(** X23. A neighbour that can be reached. On a line of [ip neigh] for an
    IPv4 neighbour with a link-layer address (the address, three words, the
    MAC address in lower-case hex digits and a status that does not begin
    with [r] or [n], single spaces between them) the IP-neighbor pattern
    captures address, MAC address and status. The loop stores the neighbour
    with that address when the status reads REACHABLE, in any case, and
    skips it otherwise; whenever the router prints such a line with status
    REACHABLE, [async_get_neigh] returns an entry for the MAC address. *)
Theorem reachable_neighbour_is_listed (a : state) cur o1 o2 o3 o4 w1 w2 w3 m
    c0 st rest :
  octet o1 = true -> octet o2 = true -> octet o3 = true -> octet o4 = true ->
  is_word w1 = true -> is_word w2 = true -> is_word w3 = true ->
  lower_mac m ->
  is_word (String c0 st) = true -> c0 <> "r"%char -> c0 <> "n"%char ->
  stops word rest = true ->
  let i := dotted o1 o2 o3 o4 in
  let status := String c0 st in
  let line := i +:+ " " +:+ w1 +:+ " " +:+ w2 +:+ " " +:+ w3 +:+ " " +:+ m
                +:+ " " +:+ status +:+ rest in
  let device : record :=
    <["ip" := Some i]> (<["mac" := Some m]> (<["status" := Some status]> ∅)) in
  _parse_lines [line] _IP_NEIGH_REGEX = [device] /\
  (forall devices,
     neigh_body cur devices device
     = Ok (if String.eqb (upper status) "REACHABLE"
           then <[upper m := {| mac := upper m; ip := Some i; name := None |}]>
                  devices
           else devices)) /\
  forall lines t,
    (run_command _IP_NEIGH_CMD a).1 = Ok (Lines lines) -> line ∈ lines ->
    upper status = "REACHABLE" ->
    (async_get_neigh cur a).1 = Ok t ->
    is_Some (t !! upper m).
Proof.
  intros H1 H2 H3 H4 Hw1 Hw2 Hw3 Hm Hst Hr Hn Hrest i status line device.
  pose proof (first_way_search _ _ _ _
                (neigh_first_way o1 o2 o3 o4 w1 w2 w3 m c0 st rest
                   H1 H2 H3 H4 Hw1 Hw2 Hw3 Hm Hst Hr Hn Hrest)) as Hs.
  fold i in Hs. fold status in Hs.
  change (String c0 st +:+ rest) with (status +:+ rest) in Hs.
  fold line in Hs.
  assert (groupdict _IP_NEIGH_REGEX
            (<["status" := status]> (<["mac" := m]> (<["ip" := i]> ∅)))
          = device) as Hg.
  { unfold groupdict, device. simpl.
    rewrite (lookup_insert_ne _ "status" "ip"),
      (lookup_insert_ne _ "mac" "ip"), lookup_insert_eq by done.
    rewrite (lookup_insert_ne _ "status" "mac"), lookup_insert_eq by done.
    by rewrite lookup_insert_eq. }
  assert (forall devices,
     neigh_body cur devices device
     = Ok (if String.eqb (upper status) "REACHABLE"
           then <[upper m := {| mac := upper m; ip := Some i; name := None |}]>
                  devices
           else devices)) as Hround.
  { intros devices. unfold neigh_body, dict_getitem, dict_get, device.
    rewrite (lookup_insert_ne _ "ip" "status"),
      (lookup_insert_ne _ "mac" "status"), lookup_insert_eq by done.
    cbn [rbind].
    destruct (String.eqb (upper status) "REACHABLE"); cbn [negb]; [|done].
    rewrite (lookup_insert_ne _ "ip" "mac"), lookup_insert_eq by done.
    cbn [rbind]. by rewrite lookup_insert_eq. }
  split_and!; [by rewrite (parse_one_line _ _ _ Hs), Hg|done|].
  intros lines t Hrun%fst_Ok Hin Hreach Ht%fst_Ok.
  destruct (async_get_neigh_Ok _ _ _ _ Ht) as (lines' & Hrun' & Hloop).
  rewrite Hrun in Hrun'. injection Hrun' as <-.
  pose proof (parsed_intro _ _ _ _ Hin Hs) as Hrec. rewrite Hg in Hrec.
  eapply (for_each_present (neigh_body cur) (neigh_entry cur) (upper m) device
            (neigh_body_entry cur)); [|done|by left].
  intros acc acc'. rewrite Hround, Hreach. simpl. intros [= <-].
  rewrite lookup_insert_eq. eauto.
Qed.

End Accepted.

(** *** Giving back: the greedy [.+] of the ARP pattern *)

Section GivingBack.
Import Py Re ReSem Patterns Accept Props.

Lemma all_of_app p u t : all_of p (u +:+ t) = all_of p u && all_of p t.
Proof. induction u as [|c u IH]; simpl; [done|]. by rewrite IH, andb_assoc. Qed.

Lemma all_of_mono (p q : cls) w :
  (forall c, p c = true -> q c = true) -> all_of p w = true -> all_of q w = true.
Proof.
  intros Hpq. induction w as [|c w IH]; simpl; [done|].
  intros [Hc Hw]%andb_true_iff. by rewrite (Hpq c Hc), IH.
Qed.

Lemma append_empty (s : string) : s +:+ "" = s.
Proof. induction s as [|c s IH]; simpl; [done|]. by rewrite IH. Qed.

(** Two ways of cutting a text in two. *)
Lemma append_eq_append (u t a b : string) :
  u +:+ t = a +:+ b ->
  (exists v, a = u +:+ v /\ t = v +:+ b) \/
  (exists v, v <> "" /\ u = a +:+ v /\ b = v +:+ t).
Proof.
  revert a. induction u as [|c u IH]; intros a H; simpl in H.
  - left. exists a. by subst.
  - destruct a as [|c' a]; simpl in H.
    + right. exists (String c u). by subst.
    + injection H as <- H. destruct (IH a H) as [(v & -> & ->)|(v & Hv & -> & ->)].
      * left. by exists v.
      * right. by exists v.
Qed.

Lemma many_none {R} p (K : string -> captures -> option R) e : forall s lo,
  (forall u t, s = u +:+ t -> K t e = None) ->
  many p lo s e K = None.
Proof.
  induction s as [|c s IH]; intros lo HK; simpl.
  - destruct lo; [|done]. by apply (HK "" "").
  - assert (K (String c s) e = None) as Hhere by by apply (HK "").
    rewrite (IH (Nat.pred lo)).
    + destruct (p c), lo; simpl; done.
    + intros u t ->. by apply (HK (String c u)).
Qed.

(** A greedy run that gives back what it took in excess: the run stops
    where what follows fits, when what follows fits nowhere further on. *)
Lemma first_way_many_back p r : forall w lo s' e s'' e'',
  all_of p w = true -> (lo <= String.length w)%nat ->
  (forall u t, s' = u +:+ t -> u <> "" -> no_way r t e) ->
  first_way r s' e s'' e'' ->
  first_way (Cat (Many p lo) r) (w +:+ s') e s'' e''.
Proof.
  induction w as [|c w IH]; intros lo s' e s'' e'' Hw Hlo Hno Hr R k v Hk.
  - simpl in Hlo. assert (lo = 0)%nat as -> by lia.
    change (many p 0 s' e (fun s0 e0 => rmatch r s0 e0 k) = Some v).
    pose proof (Hr R k v Hk) as Hhere.
    destruct s' as [|c s']; simpl; [done|].
    rewrite many_none.
    + by destruct (p c).
    + intros u t ->. by apply (Hno (String c u)).
  - simpl in Hw, Hlo. apply andb_true_iff in Hw as [Hc Hw].
    change (many p lo (String c (w +:+ s')) e (fun s0 e0 => rmatch r s0 e0 k)
            = Some v).
    simpl. rewrite Hc.
    assert (many p (Nat.pred lo) (w +:+ s') e (fun s0 e0 => rmatch r s0 e0 k)
            = Some v) as ->; [|done].
    apply (IH (Nat.pred lo) s' e s'' e'' Hw ltac:(lia) Hno Hr R k v Hk).
Qed.

(** Where the middle of the ARP pattern cannot start. *)
Lemma no_way_paren r t e :
  (forall c1 c2 t', t = String c1 (String c2 t') ->
     space c1 = true -> one "(" c2 = false) ->
  no_way (Cat (Cls space) (Cat (Cls (one "(")) r)) t e.
Proof.
  intros H R k. destruct t as [|c1 [|c2 t']]; cbn [rmatch]; [done| |].
  - by destruct (space c1).
  - destruct (space c1) eqn:Hc1; [|done]. by rewrite (H c1 c2 t' eq_refl Hc1).
Qed.

Lemma no_way_mac_after_space (h : cls) r t e :
  (forall c1 a b c t', t = String c1 (String a (String b (String c t'))) ->
     space c1 = true -> mac_sep c = false) ->
  no_way (Cat (Cls space) (Cat (Named "mac" (mac_pat h)) r)) t e.
Proof.
  intros H R k. unfold mac_pat.
  destruct t as [|c1 [|a [|b [|c t']]]]; cbn [rmatch rep Nat.pred orelse];
    try done; destruct (space c1) eqn:Hc1; try done.
  - by destruct (h a).
  - destruct (h a); [|done]. by destruct (h b).
  - destruct (h a); [|done]. destruct (h b); [|done].
    by rewrite (H c1 a b c t' eq_refl Hc1).
Qed.

Lemma octet_digits o : octet o = true -> all_of digit o = true.
Proof.
  unfold octet. by intros [[? _]%andb_true_iff _]%andb_true_iff.
Qed.

Lemma all_of_dotted (q : cls) a b c d :
  (forall x, digit x = true -> q x = true) -> q "."%char = true ->
  octet a = true -> octet b = true -> octet c = true -> octet d = true ->
  all_of q (dotted a b c d) = true.
Proof.
  intros Hq Hdot Ha%octet_digits Hb%octet_digits Hc%octet_digits
    Hd%octet_digits.
  unfold dotted. rewrite !all_of_app. simpl. rewrite Hdot.
  by rewrite !(all_of_mono digit q) by done.
Qed.

Lemma all_of_mac (h q : cls) : forall n m,
  (forall x, h x = true -> q x = true) ->
  (forall x, mac_sep x = true -> q x = true) ->
  mac_shape h mac_sep n m = true -> all_of q m = true.
Proof.
  induction n as [|n IH]; intros m Hh Hsep Hm; [by destruct m|].
  destruct n as [|n].
  - destruct m as [|a [|b [|c w]]]; try done. simpl in Hm.
    apply andb_true_iff in Hm as [Ha Hb]. simpl.
    by rewrite (Hh a), (Hh b).
  - destruct m as [|a [|b [|c w]]]; try done.
    change (mac_shape h mac_sep (S (S n)) (String a (String b (String c w))))
      with (h a && h b && mac_sep c && mac_shape h mac_sep (S n) w) in Hm.
    apply andb_true_iff in Hm as [Hm Hrest].
    apply andb_true_iff in Hm as [Hm Hc].
    apply andb_true_iff in Hm as [Ha Hb]. simpl.
    by rewrite (Hh a), (Hh b), (Hsep c), (IH w).
Qed.

Lemma digit_no_paren x : digit x = true -> neg (one "(") x = true.
Proof. destruct x as [[] [] [] [] [] [] [] []]; by vm_compute. Qed.

Lemma hex_lower_no_paren x : hex_lower x = true -> neg (one "(") x = true.
Proof. destruct x as [[] [] [] [] [] [] [] []]; by vm_compute. Qed.

Lemma mac_sep_no_paren x : mac_sep x = true -> neg (one "(") x = true.
Proof. destruct x as [[] [] [] [] [] [] [] []]; by vm_compute. Qed.

Lemma hex_lower_no_space x : hex_lower x = true -> neg space x = true.
Proof. destruct x as [[] [] [] [] [] [] [] []]; by vm_compute. Qed.

Lemma mac_sep_no_space x : mac_sep x = true -> neg space x = true.
Proof. destruct x as [[] [] [] [] [] [] [] []]; by vm_compute. Qed.

Lemma plain_no_paren x : plain x = true -> neg (one "(") x = true.
Proof.
  unfold plain. by intros [[_ ?]%andb_true_iff _]%andb_true_iff.
Qed.

Lemma plain_no_sep x : plain x = true -> neg mac_sep x = true.
Proof. unfold plain. by intros [_ ?]%andb_true_iff. Qed.

Lemma plain_dot x : plain x = true -> dot x = true.
Proof.
  unfold plain. by intros [[? _]%andb_true_iff _]%andb_true_iff.
Qed.

(** The second character of a piece of a text is a character of the
    text. *)
Lemma all_of_second (q : cls) X u c1 c2 t' :
  all_of q X = true -> X = u +:+ String c1 (String c2 t') -> q c2 = true.
Proof.
  intros HX ->. rewrite all_of_app in HX. simpl in HX.
  by apply andb_true_iff in HX as [_ [_ [? _]%andb_true_iff]%andb_true_iff].
Qed.

Lemma all_of_first (q : cls) X u c1 t' :
  all_of q X = true -> X = u +:+ String c1 t' -> q c1 = true.
Proof.
  intros HX ->. rewrite all_of_app in HX. simpl in HX.
  by apply andb_true_iff in HX as [_ [? _]%andb_true_iff].
Qed.

Lemma all_of_fourth (q : cls) X u c1 a b c t' :
  all_of q X = true ->
  X = u +:+ String c1 (String a (String b (String c t'))) -> q c = true.
Proof.
  intros HX ->. rewrite all_of_app in HX. simpl in HX.
  apply andb_true_iff in HX as [_ HX].
  apply andb_true_iff in HX as [_ HX].
  apply andb_true_iff in HX as [_ HX].
  apply andb_true_iff in HX as [_ HX].
  by apply andb_true_iff in HX as [? _].
Qed.

(** The ARP pattern on a line of [arp -n]. *)
Lemma arp_first_way host a b c d w m rest :
  all_of dot host = true -> host <> "" ->
  octet a = true -> octet b = true -> octet c = true -> octet d = true ->
  all_of plain w = true -> w <> "" ->
  lower_mac m ->
  all_of plain rest = true ->
  first_way _ARP_REGEX
    (host +:+ " (" +:+ dotted a b c d +:+ ") " +:+ w +:+ " " +:+ m +:+ " "
       +:+ rest) ∅
    ""
    (<["mac" := m]> (<["ip" := dotted a b c d]> ∅)).
Proof.
  intros Hhost Hhne Ha Hb Hc Hd Hw Hwne Hm Hrest.
  unfold _ARP_REGEX, seq. simpl fold_right.
  set (i := dotted a b c d).
  set (Y := m +:+ " " +:+ rest).
  set (X := i +:+ ") " +:+ w +:+ " " +:+ Y).
  assert (all_of (neg (one "(")) X = true) as HX.
  { unfold X, Y, i. rewrite !all_of_app. simpl.
    rewrite (all_of_dotted (neg (one "(")) a b c d)
      by (done || apply digit_no_paren).
    rewrite (all_of_mono plain (neg (one "(")) w) by (done || apply plain_no_paren).
    rewrite (all_of_mac hex_lower (neg (one "(")) 6 m)
      by (done || apply hex_lower_no_paren || apply mac_sep_no_paren).
    by rewrite (all_of_mono plain (neg (one "(")) rest)
      by (done || apply plain_no_paren). }
  apply first_way_many_back.
  - done.
  - destruct host; [done|simpl; lia].
  - intros u t Hcut Hu. apply no_way_paren. intros c1 c2 t' -> Hc1.
    change (" (" +:+ X) with (String " " (String "(" X)) in Hcut.
    destruct u as [|u0 u]; [done|]. simpl in Hcut. injection Hcut as <- Hcut.
    destruct u as [|u1 u]; simpl in Hcut.
    + injection Hcut as <- _. done.
    + injection Hcut as <- Hcut.
      pose proof (all_of_second _ _ _ _ _ _ HX Hcut) as Hq.
      unfold neg in Hq. by apply negb_true_iff in Hq.
  - apply (first_way_cat _ _ _ _ ("(" +:+ X) ∅); [apply first_way_space|].
    apply (first_way_cat _ _ _ _ X ∅);
      [by apply (first_way_cls (one "(") "(" X)|].
    apply (first_way_cat _ _ _ _ (") " +:+ w +:+ " " +:+ Y) (<["ip" := i]> ∅)).
    { apply first_way_ip, first_way_ipv4; done. }
    apply (first_way_cat _ _ _ _ (" " +:+ w +:+ " " +:+ Y) (<["ip" := i]> ∅));
      [by apply (first_way_cls (one ")") ")")|].
    apply (first_way_cat _ _ _ _ (w +:+ " " +:+ Y) (<["ip" := i]> ∅));
      [apply first_way_space|].
    apply first_way_many_back.
    + by apply (all_of_mono plain dot); [apply plain_dot|].
    + destruct w; [done|simpl; lia].
    + intros u t Hcut Hu. apply no_way_mac_after_space.
      intros c1 x y z t' -> Hc1.
      change (" " +:+ Y) with (String " " Y) in Hcut.
      destruct u as [|u0 u]; [done|]. simpl in Hcut. injection Hcut as _ Hcut.
      unfold Y in Hcut.
      assert (all_of (neg space) m = true) as Hns.
      { apply (all_of_mac hex_lower (neg space) 6 m);
          [apply hex_lower_no_space|apply mac_sep_no_space|done]. }
      assert (all_of (neg mac_sep) rest = true) as Hnsep.
      { by apply (all_of_mono plain); [apply plain_no_sep|]. }
      apply append_eq_append in Hcut as [(v & _ & Hv)|(v & Hv & Hm' & Hz)].
      * (* the piece starts after the MAC address *)
        change (" " +:+ rest) with (String " " rest) in Hv.
        destruct v as [|v0 v]; simpl in Hv; injection Hv as _ Hv.
        -- rewrite Hv in Hnsep. simpl in Hnsep.
           apply andb_true_iff in Hnsep as [_ Hnsep].
           apply andb_true_iff in Hnsep as [_ Hnsep].
           apply andb_true_iff in Hnsep as [Hq _].
           unfold neg in Hq. by apply negb_true_iff in Hq.
        -- pose proof (all_of_fourth _ _ _ _ _ _ _ _ Hnsep Hv) as Hq.
           unfold neg in Hq. by apply negb_true_iff in Hq.
      * (* the piece starts in the MAC address *)
        exfalso. destruct v as [|v0 v]; [done|]. simpl in Hz.
        injection Hz as <- _.
        pose proof (all_of_first _ _ _ _ _ Hns Hm') as Hq.
        unfold neg in Hq. rewrite Hc1 in Hq. done.
    + apply (first_way_cat _ _ _ _ Y (<["ip" := i]> ∅));
        [apply first_way_space|].
      apply (first_way_cat _ _ _ _ (" " +:+ rest)
               (<["mac" := m]> (<["ip" := i]> ∅)));
        [by apply first_way_mac|].
      apply (first_way_cat _ _ _ _ rest (<["mac" := m]> (<["ip" := i]> ∅)));
        [apply first_way_space|].
      apply (first_way_cat _ _ _ _ "" (<["mac" := m]> (<["ip" := i]> ∅)));
        [|apply first_way_eps].
      rewrite <- (append_empty rest) at 1.
      apply first_way_many; [|lia|done].
      by apply (all_of_mono plain dot); [apply plain_dot|].
Qed.

End GivingBack.

Section Accepted2.
Import Py Eff Transport Re ReSem Patterns Asuswrt Accept Props.
Context {conn : Type} `{!Transport conn}.

Abbreviation state := (@AsusWrt conn).

(** X24. A line of the ARP table. On a line of [arp -n] that reads a host
    name, the IPv4 address in parentheses, a word, the MAC address in
    lower-case hex digits and the rest, single spaces between them, where
    neither the word nor the rest holds an opening parenthesis, a colon or a
    dash, the greedy [.+] of the ARP pattern give back what they took in
    excess and the pattern captures the address and the MAC address; the
    loop stores the device with that address, and whenever the router prints
    such a line, [async_get_arp] returns an entry for the MAC address. *)
Theorem arp_line_is_read (a : state) host o1 o2 o3 o4 w m rest :
  all_of dot host = true -> host <> "" ->
  octet o1 = true -> octet o2 = true -> octet o3 = true -> octet o4 = true ->
  all_of plain w = true -> w <> "" ->
  lower_mac m ->
  all_of plain rest = true ->
  let i := dotted o1 o2 o3 o4 in
  let line := host +:+ " (" +:+ i +:+ ") " +:+ w +:+ " " +:+ m +:+ " "
                +:+ rest in
  let device : record := <["ip" := Some i]> (<["mac" := Some m]> ∅) in
  _parse_lines [line] _ARP_REGEX = [device] /\
  (forall devices,
     arp_body devices device
     = Ok (<[upper m := {| mac := upper m; ip := Some i; name := None |}]>
             devices)) /\
  forall lines t,
    (run_command _ARP_CMD a).1 = Ok (Lines lines) -> line ∈ lines ->
    (async_get_arp a).1 = Ok t ->
    is_Some (t !! upper m).
Proof.
  intros Hhost Hhne H1 H2 H3 H4 Hw Hwne Hm Hrest i line device.
  pose proof (first_way_search _ _ _ _
                (arp_first_way host o1 o2 o3 o4 w m rest
                   Hhost Hhne H1 H2 H3 H4 Hw Hwne Hm Hrest)) as Hs.
  fold i in Hs. fold line in Hs.
  assert (groupdict _ARP_REGEX (<["mac" := m]> (<["ip" := i]> ∅)) = device)
    as Hg.
  { unfold groupdict, device. simpl.
    rewrite (lookup_insert_ne _ "mac" "ip"), lookup_insert_eq by done.
    by rewrite lookup_insert_eq. }
  assert (forall devices,
     arp_body devices device
     = Ok (<[upper m := {| mac := upper m; ip := Some i; name := None |}]>
             devices)) as Hround.
  { intros devices. unfold arp_body, dict_getitem, device.
    rewrite (lookup_insert_ne _ "ip" "mac"), lookup_insert_eq by done.
    cbn [rbind]. by rewrite lookup_insert_eq. }
  split_and!; [by rewrite (parse_one_line _ _ _ Hs), Hg|done|].
  intros lines t Hrun%fst_Ok Hin Ht%fst_Ok.
  destruct (async_get_arp_Ok _ _ _ Ht) as (lines' & Hrun' & Hloop).
  rewrite Hrun in Hrun'. injection Hrun' as <-.
  pose proof (parsed_intro _ _ _ _ Hin Hs) as Hrec. rewrite Hg in Hrec.
  eapply (for_each_present arp_body arp_entry (upper m) device
            arp_body_entry); [|done|by left].
  intros acc acc'. rewrite Hround. intros [= <-].
  rewrite lookup_insert_eq. eauto.
Qed.

End Accepted2.

(** ** The Telnet transport *)

Section Telnet.
Import Py Fixtures Shape TelnetConnection.

Lemma inner_cons_snoc {A} (x : A) l y : inner (x :: l ++ [y]) = l.
Proof. unfold inner. simpl. apply removelast_last. Qed.

Lemma decode_all_ascii lines :
  forallb is_ascii lines = true -> decode_all lines = Returns lines.
Proof.
  induction lines as [|l lines IH]; simpl; [done|].
  intros [Hl Hls]%andb_true_iff. unfold decode_utf8. by rewrite Hl, IH.
Qed.

Lemma is_ascii_newline command :
  is_ascii command = true -> is_ascii (command +:+ String newline "") = true.
Proof.
  unfold is_ascii. induction command as [|c command IH]; simpl; [done|].
  intros [Hc Hs]%andb_true_iff. by rewrite Hc, IH.
Qed.

Lemma forallb_snoc {A} (p : A -> bool) l x :
  forallb p (l ++ [x]) = forallb p l && p x.
Proof. by rewrite forallb_app; simpl; rewrite andb_true_r. Qed.

(** What [readuntil] does when the separator is there, within the limit. *)
Lemma readuntil_cut sep c chunk rest :
  sep <> "" -> cut sep (unread c) = Some (chunk, rest) ->
  (String.length chunk - String.length sep <= limit)%nat ->
  readuntil (Some sep) c
  = (Returns chunk,
     {| _username := _username c; _password := _password c;
        _prompt_string := _prompt_string c; connected := connected c;
        opened := opened c; written := written c; unread := rest;
        remote := remote c |}).
Proof.
  intros Hsep Hcut Hlim. unfold readuntil. destruct sep as [|s0 sep]; [done|].
  rewrite Hcut. apply Nat.leb_le in Hlim. by rewrite Hlim.
Qed.

(** X25. A command over Telnet. On a connection that is logged in and has
    nothing unread, when the router answers the command line with a first
    line (the echo), the lines of output and its prompt, each line ending in
    a newline, the prompt occurring nowhere before and the whole within the
    limit of the reader, [async_run_command] returns the lines of output:
    the first line and the prompt are left out. The connection is logged in
    as before and again has nothing unread. *)
Theorem telnet_hands_over_the_output c command prompt echo lines :
  connected c = true -> _prompt_string c = Some prompt -> unread c = "" ->
  is_ascii command = true ->
  let sent := command +:+ String newline "" in
  let reply := unlines (echo :: lines ++ [prompt]) in
  answer (remote c) (written c ++ [sent]) = reply ->
  prompt <> "" -> cut prompt reply = Some (reply, "") ->
  (String.length reply - String.length prompt <= limit)%nat ->
  forallb one_line (echo :: lines ++ [prompt]) = true ->
  forallb is_ascii lines = true ->
  async_run_command command c
  = (Returns lines,
     {| _username := _username c; _password := _password c;
        _prompt_string := Some prompt; connected := true;
        opened := opened c; written := written c ++ [sent]; unread := "";
        remote := remote c |}).
Proof.
  intros Hcon Hprompt Hunread Hcmd sent reply Hanswer Hne Hcut Hlim Hlines Hascii.
  unfold async_run_command, bind at 1, get at 1. rewrite Hcon. simpl negb.
  cbv iota. unfold bind at 1, ret at 1.
  unfold bind at 1, lift at 1, encode_ascii.
  rewrite (is_ascii_newline _ Hcmd). fold sent.
  unfold bind at 1, write at 1. unfold bind at 1, get at 1.
  cbn [_prompt_string]. rewrite Hprompt.
  unfold bind at 1.
  erewrite readuntil_cut; [| done | cbn [unread]; rewrite Hunread, Hanswer;
                                   exact Hcut | done ].
  cbn [_username _password _prompt_string connected opened written remote].
  rewrite Hcon.
  unfold reply. rewrite split_nl_unlines by done.
  rewrite inner_cons_snoc. unfold lift. by rewrite decode_all_ascii.
Qed.

Lemma connect_up_to_password c username password b1 rest1 b2 rest2 :
  let user_line := username +:+ String newline "" in
  let pass_line := password +:+ String newline "" in
  _username c = Some username -> _password c = Some password ->
  accepts (remote c) (opened c) = true ->
  is_ascii username = true -> is_ascii password = true ->
  cut "login: " (banner (remote c)) = Some (b1, rest1) ->
  (String.length b1 - 7 <= limit)%nat ->
  cut "Password: " (rest1 +:+ answer (remote c) [user_line]) = Some (b2, rest2) ->
  (String.length b2 - 10 <= limit)%nat ->
  async_connect c
  = bind (readuntil (Some "#")) (fun data =>
      bind (set_prompt_string (last_line (split_nl data))) (fun _ =>
      set_connected))
      (after_password c user_line pass_line rest2).
Proof.
  intros user_line pass_line Hu Hp Hacc Hau Hap Hc1 Hl1 Hc2 Hl2.
  unfold async_connect, bind at 1, open_connection at 1. rewrite Hacc.
  unfold bind at 1.
  erewrite readuntil_cut; [|done|exact Hc1|exact Hl1].
  unfold bind at 1, get at 1. cbn [_username]. rewrite Hu.
  unfold bind at 1, lift at 1, plus_newline.
  unfold bind at 1, lift at 1, encode_ascii.
  rewrite (is_ascii_newline _ Hau). fold user_line.
  unfold bind at 1, write at 1.
  cbn [_username _password _prompt_string connected opened written unread
       remote app].
  unfold bind at 1.
  erewrite readuntil_cut; [|done|exact Hc2|exact Hl2].
  cbn [_username _password _prompt_string connected opened written unread
       remote].
  unfold bind at 1, get at 1. cbn [_password]. rewrite Hp.
  unfold bind at 1, lift at 1, plus_newline.
  unfold bind at 1, lift at 1, encode_ascii.
  rewrite (is_ascii_newline _ Hap). fold pass_line.
  unfold bind at 1, write at 1.
  cbn [_username _password _prompt_string connected opened written unread
       remote app].
  unfold after_password. by rewrite Hu, Hp.
Qed.

(** X26. Logging in. When the router accepts the connection, asks for the
    login and for the password and then sends a [#], all within the limit
    of the reader, [async_connect] answers with the user name and the
    password, a line each, and takes for the prompt the text between the
    last newline before that first [#] and the [#], the [#] included;
    whatever the router sent after it stays unread. *)
Theorem telnet_logs_in c username password b1 rest1 b2 rest2 b3 rest3 :
  let user_line := username +:+ String newline "" in
  let pass_line := password +:+ String newline "" in
  _username c = Some username -> _password c = Some password ->
  accepts (remote c) (opened c) = true ->
  is_ascii username = true -> is_ascii password = true ->
  cut "login: " (banner (remote c)) = Some (b1, rest1) ->
  (String.length b1 - 7 <= limit)%nat ->
  cut "Password: " (rest1 +:+ answer (remote c) [user_line]) = Some (b2, rest2) ->
  (String.length b2 - 10 <= limit)%nat ->
  cut "#" (rest2 +:+ answer (remote c) [user_line; pass_line])
    = Some (b3, rest3) ->
  (String.length b3 - 1 <= limit)%nat ->
  async_connect c
  = (Returns tt,
     {| _username := Some username; _password := Some password;
        _prompt_string := Some (last_line (split_nl b3)); connected := true;
        opened := S (opened c); written := [user_line; pass_line];
        unread := rest3; remote := remote c |}).
Proof.
  intros user_line pass_line Hu Hp Hacc Hau Hap Hc1 Hl1 Hc2 Hl2 Hc3 Hl3.
  rewrite (connect_up_to_password c username password b1 rest1 b2 rest2)
    by done.
  fold user_line pass_line. unfold bind at 1.
  erewrite readuntil_cut; [|done|exact Hc3|exact Hl3].
  unfold after_password. cbn. by rewrite Hu, Hp.
Qed.

(** X27. A prompt without [#]. When the router, after the password, sends
    no [#] (its prompt ends otherwise), [async_run_command] on a connection
    that is not logged in does not return: it waits for the [#], the class
    sets no timeout. The command has not been sent and the connection is
    still not logged in. *)
Theorem telnet_waits_for_a_hash c command username password b1 rest1 b2 rest2 :
  let user_line := username +:+ String newline "" in
  let pass_line := password +:+ String newline "" in
  let shown := rest2 +:+ answer (remote c) [user_line; pass_line] in
  connected c = false ->
  _username c = Some username -> _password c = Some password ->
  accepts (remote c) (opened c) = true ->
  is_ascii username = true -> is_ascii password = true ->
  cut "login: " (banner (remote c)) = Some (b1, rest1) ->
  (String.length b1 - 7 <= limit)%nat ->
  cut "Password: " (rest1 +:+ answer (remote c) [user_line]) = Some (b2, rest2) ->
  (String.length b2 - 10 <= limit)%nat ->
  cut "#" shown = None ->
  (String.length shown <= limit)%nat ->
  async_run_command command c
  = (Fails Waits, after_password c user_line pass_line rest2) /\
  connected (after_password c user_line pass_line rest2) = false /\
  written (after_password c user_line pass_line rest2) = [user_line; pass_line].
Proof.
  intros user_line pass_line shown Hcon Hu Hp Hacc Hau Hap Hc1 Hl1 Hc2 Hl2
    Hc3 Hl3.
  split_and!; [|done|done].
  unfold async_run_command, bind at 1, get at 1. rewrite Hcon.
  cbn [negb]. unfold bind at 1.
  rewrite (connect_up_to_password c username password b1 rest1 b2 rest2)
    by done.
  fold user_line pass_line. unfold bind at 1, readuntil at 1.
  cbn [unread after_password]. fold shown. rewrite Hc3.
  assert ((limit <? String.length shown + 1 - String.length "#")%nat = false)
    as ->; [|done].
  apply Nat.ltb_ge. simpl String.length. lia.
Qed.

(** *** The prompt of a connection that is logged in *)

Lemma triple_bind {A B} (P : t -> Prop) (m : M A) (Q : A -> t -> Prop)
    (k : A -> M B) (Q' : B -> t -> Prop) (E : failure -> t -> Prop) :
  triple P m Q E -> (forall a, triple (Q a) (k a) Q' E) ->
  triple P (bind m k) Q' E.
Proof.
  intros Hm Hk c Hc. unfold bind. specialize (Hm c Hc).
  destruct (m c) as [[a|f] c']; [|done]. by apply Hk.
Qed.

Lemma triple_get_bind {B} (P : t -> Prop) (k : t -> M B) Q' E :
  (forall c0, triple (fun c => P c /\ c = c0) (k c0) Q' E) ->
  triple P (bind get k) Q' E.
Proof. intros Hk c Hc. unfold bind, get. by apply (Hk c). Qed.

Lemma triple_weaken {A} (P P' : t -> Prop) (m : M A) Q E :
  (forall c, P' c -> P c) -> triple P m Q E -> triple P' m Q E.
Proof. intros HP Hm c Hc. apply Hm. by apply HP. Qed.

Lemma startswith_cut p : forall s,
  startswith p s = true ->
  s = p +:+ substring (String.length p) (String.length s - String.length p) s.
Proof.
  induction p as [|a p IH]; intros s H.
  - simpl. rewrite Nat.sub_0_r.
    clear H. induction s as [|c s IHs]; [done|].
    simpl. destruct s as [|c' s]; [done|]. simpl in *. by rewrite <- IHs.
  - destruct s as [|b s]; [done|]. simpl in H.
    destruct (Ascii.eqb_spec a b) as [->|]; [|done].
    simpl. f_equal. by apply IH.
Qed.

Lemma cut_chunk sep : forall s chunk rest,
  cut sep s = Some (chunk, rest) ->
  exists w, chunk = w +:+ sep /\ s = chunk +:+ rest.
Proof.
  induction s as [|c s IH]; intros chunk rest; simpl.
  - destruct (startswith sep "") eqn:Hs; [|done]. intros [= <- <-].
    exists "". split; [done|]. by apply (startswith_cut sep "").
  - destruct (startswith sep (String c s)) eqn:Hs.
    + intros [= <- <-]. exists "". split; [done|].
      by apply (startswith_cut sep (String c s)).
    + destruct (cut sep s) as [[chunk' rest']|]; [|done].
      intros [= <- <-]. destruct (IH _ _ eq_refl) as (w & -> & ->).
      by exists (String c w).
Qed.

Lemma last_cons {A} (x y : A) l d : List.last (x :: y :: l) d = List.last (y :: l) d.
Proof. reflexivity. Qed.

Lemma split_nl_hash : forall w,
  last_line (split_nl (w +:+ "#")) = last_line (split_nl w) +:+ "#" /\
  length (split_nl (w +:+ "#")) = length (split_nl w).
Proof.
  unfold last_line. induction w as [|c w [IH1 IH2]]; [done|].
  simpl. destruct (split_nl_cons (w +:+ "#")) as (l1 & ls1 & H1).
  destruct (split_nl_cons w) as (l2 & ls2 & H2).
  rewrite H1, H2 in *. destruct (Ascii.eqb c newline).
  - rewrite !last_cons. split; [done|]. simpl in *. lia.
  - destruct ls1 as [|l1' ls1], ls2 as [|l2' ls2]; try (simpl in IH2; lia).
    + simpl in *. by rewrite IH1.
    + rewrite !last_cons in *. split; [done|]. simpl in *. lia.
Qed.

Lemma split_nl_lines s : Forall (fun l => one_line l = true) (split_nl s).
Proof.
  induction s as [|c s IH]; simpl; [by constructor|].
  destruct (Ascii.eqb c newline) eqn:Hc; [by constructor|].
  destruct (split_nl s) as [|l ls]; [by constructor; simpl; rewrite ?Hc|].
  inversion IH; subst. constructor; [|done]. simpl. by rewrite Hc.
Qed.

Lemma last_line_one_line s : one_line (last_line (split_nl s)) = true.
Proof.
  unfold last_line. destruct (split_nl_cons s) as (l & ls & H).
  pose proof (split_nl_lines s) as HF. rewrite H in *.
  assert (List.last (l :: ls) "" ∈ l :: ls) as Hin.
  { clear. revert l. induction ls as [|l' ls IH]; intros l; [by left|].
    rewrite last_cons. right. apply IH. }
  by apply (proj1 (Forall_forall _ _) HF) in Hin.
Qed.

Lemma prompt_of_chunk s b3 rest :
  cut "#" s = Some (b3, rest) -> prompt_like (Some (last_line (split_nl b3))).
Proof.
  intros (w & -> & _)%cut_chunk. exists (last_line (split_nl w)).
  split; [|apply last_line_one_line].
  by rewrite (proj1 (split_nl_hash w)).
Qed.

Section Invariant.
Variables (username password : option string) (r : Remote).

Abbreviation settled := (settled username password r).
Abbreviation failed := (failed username password r).
Abbreviation at_ b := (fun c => settled c /\ connected c = b).

Lemma open_connection_triple :
  triple (at_ false) open_connection (fun _ => at_ false) failed.
Proof.
  intros c [(Hu & Hp & Hr & Hc) Hcon]. unfold open_connection.
  destruct (accepts (remote c) (opened c)); simpl.
  - by split_and!.
  - by split_and!.
Qed.

Lemma readuntil_triple b sep :
  sep <> "" ->
  triple (at_ b) (readuntil (Some sep))
         (fun chunk c => at_ b c /\ exists s rest, cut sep s = Some (chunk, rest))
         failed.
Proof.
  intros Hsep c [(Hu & Hp & Hr & Hc) Hcon]. unfold readuntil.
  destruct sep as [|s0 sep]; [done|].
  destruct (cut (String s0 sep) (unread c)) as [[chunk rest]|] eqn:Hcut.
  - destruct (_ <=? limit)%nat; simpl.
    + split_and!; try done. eauto.
    + by split_and!.
  - destruct (limit <? _)%nat; simpl; by split_and!.
Qed.

Lemma name_line_triple {B} b (field : t -> option string) (k : string -> M B)
    Q :
  (forall c, settled c -> field c = None -> username = None \/ password = None) ->
  (forall data, triple (at_ b) (k data) Q failed) ->
  triple (at_ b)
    (bind get (fun c =>
     bind (lift (plus_newline (field c))) (fun line =>
     bind (lift (encode_ascii line)) k)))
    Q failed.
Proof.
  intros Hfield Hk c [Hs Hcon]. unfold bind at 1, get at 1.
  unfold bind at 1, lift at 1, plus_newline.
  destruct (field c) as [text|] eqn:Hf.
  - unfold bind at 1, lift at 1, encode_ascii.
    destruct (is_ascii _); [by apply Hk|].
    simpl. by split_and!.
  - simpl. split_and!; try done. intros _. by apply (Hfield c).
Qed.

Lemma write_triple b data :
  triple (at_ b) (write data) (fun _ => at_ b) failed.
Proof. intros c [(Hu & Hp & Hr & Hc) Hcon]. unfold write. simpl. by split_and!. Qed.

Lemma async_connect_triple :
  triple (at_ false) async_connect (fun _ => at_ true) failed.
Proof.
  unfold async_connect.
  eapply triple_bind; [apply open_connection_triple|]. intros [].
  eapply triple_bind; [by apply readuntil_triple|]. intros chunk1.
  apply (triple_weaken (at_ false)); [by intros c [Hc _]|].
  apply name_line_triple.
  { intros c (Hu & _) Hn. left. congruence. }
  intros data. eapply triple_bind; [apply write_triple|]. intros [].
  eapply triple_bind; [by apply readuntil_triple|]. intros chunk2.
  apply (triple_weaken (at_ false)); [by intros c [Hc _]|].
  apply name_line_triple.
  { intros c (_ & Hp & _) Hn. right. congruence. }
  intros data2. eapply triple_bind; [apply write_triple|]. intros [].
  eapply triple_bind; [by apply readuntil_triple|]. intros chunk3.
  intros c [[(Hu & Hp & Hr & Hc) Hcon] (s & rest & Hcut)].
  unfold bind, set_prompt_string, set_connected. simpl.
  split; [|done]. unfold TelnetConnection.settled. simpl.
  split_and!; try done. intros _. by eapply prompt_of_chunk.
Qed.

Lemma readuntil_prompt p c :
  prompt_like p -> settled c ->
  settled (readuntil p c).2 /\
  match (readuntil p c).1 with
  | Returns _ => True
  | Fails f => f = LimitOverrunError \/ f = Waits
  end.
Proof.
  intros (w & -> & _) (Hu & Hp & Hr & Hc). unfold readuntil.
  assert (exists p0 p, w +:+ "#" = String p0 p) as (p0 & p & ->).
  { destruct w; simpl; eauto. }
  destruct (cut (String p0 p) (unread c)) as [[chunk rest]|].
  - destruct (_ <=? limit)%nat; simpl.
    + split; [|done]. unfold TelnetConnection.settled. by simpl.
    + split; [|auto]. by unfold TelnetConnection.settled.
  - destruct (limit <? _)%nat; simpl; (split; [|auto]);
      by unfold TelnetConnection.settled.
Qed.

Lemma decode_all_fails data f : decode_all data = Fails f -> f = NotAscii.
Proof.
  induction data as [|l data IH]; simpl; [done|].
  unfold decode_utf8. destruct (is_ascii l); [|by intros [= <-]].
  destruct (decode_all data); [done|]. intros [= <-]. by apply IH.
Qed.

Lemma async_run_command_triple command :
  triple settled (async_run_command command) (fun _ => settled) failed.
Proof.
  unfold async_run_command. apply triple_get_bind. intros c0.
  eapply (triple_bind _ _ (fun _ => at_ true)).
  { intros c [Hs ->]. destruct (connected c0) eqn:Hcon; simpl.
    - done.
    - by apply async_connect_triple. }
  intros []. intros c [Hs Hcon]. unfold bind at 1, lift at 1, encode_ascii.
  destruct (is_ascii _); [|simpl; by split_and!].
  unfold bind at 1, write at 1. unfold bind at 1, get at 1.
  cbn [_prompt_string].
  set (c1 := {| _username := _username c; _password := _password c;
                _prompt_string := _prompt_string c; connected := connected c;
                opened := opened c;
                written := written c ++ [command +:+ String newline ""];
                unread := unread c +:+ answer (remote c)
                            (written c ++ [command +:+ String newline ""]);
                remote := remote c |}).
  assert (settled c1) as Hs1.
  { destruct Hs as (Hu & Hp & Hr & Hc). by split_and!. }
  assert (prompt_like (_prompt_string c)) as Hpl.
  { destruct Hs as (_ & _ & _ & Hc). by apply Hc. }
  destruct (readuntil_prompt _ c1 Hpl Hs1) as [Hs2 Hf].
  unfold bind. destruct (readuntil (_prompt_string c) c1) as [[data|f] c2];
    simpl in *.
  - unfold lift. destruct (decode_all _) as [ls|f] eqn:Hd; [done|].
    apply decode_all_fails in Hd as ->. by split_and!.
  - destruct Hf as [-> | ->]; by split_and!.
Qed.

(** X28. What holds of every state that a Telnet connection reaches from
    [__init__] by calls of [async_run_command]: a connection that is logged
    in has a prompt, a text without newline that ends in [#]; so no call
    fails with [ValueError], the error of reading up to an empty separator,
    and a call fails with [TypeError] only when the connection was made
    without user name or without password. *)
Theorem telnet_prompt_is_kept c :
  session_state username password r c ->
  (connected c = true -> prompt_like (_prompt_string c)) /\
  forall command,
    (async_run_command command c).1 <> Fails ValueError /\
    ((async_run_command command c).1 = Fails TypeError ->
     username = None \/ password = None).
Proof.
  intros Hc.
  assert (settled c) as Hs.
  { induction Hc as [|c command Hc IH]; [by split_and!|].
    pose proof (async_run_command_triple command c IH) as Ht.
    by destruct (async_run_command command c) as [[ls|f] c']; [|destruct Ht]. }
  split; [by destruct Hs as (_ & _ & _ & ?)|].
  intros command.
  pose proof (async_run_command_triple command c Hs) as Ht.
  destruct (async_run_command command c) as [[ls|f] c']; simpl; [done|].
  destruct Ht as (_ & Hv & Hty). split; [by intros [= ->]|].
  intros [= ->]. by apply Hty.
Qed.

End Invariant.

End Telnet.


(** ** More runs against the routers *)

Section Runs2.
Import Py Eff Transport Re Patterns Asuswrt Props Fixtures Fixtures2 History
  Shape Accept Readable.

Ltac ran :=
  lazymatch goal with
  | |- _ = Ok (value ?d _) => apply (ok_value d); vm_compute; reflexivity
  end.
Ltac ran_to :=
  lazymatch goal with
  | |- ?m ?s = (Ok (value ?d _), _) =>
      apply (run_eq m s); apply (ok_value d); vm_compute; reflexivity
  end.
Ltac gave :=
  lazymatch goal with
  | |- ?m ?s = (?r, _) => apply (run_eq m s r); vm_compute; reflexivity
  end.

Lemma getters_return_on_any_lines_witness :
  exists t, async_get_wl at_home = (Ok t, (run_command _WL_CMD at_home).2).
Proof.
  apply (proj1 (getters_return_on_any_lines at_home
                  ["assoclist 01:02:03:04:05:06"]
                  (run_command _WL_CMD at_home).2)).
  gave.
Defined.

Lemma getters_fail_only_as_the_connection_witness :
  let a := client closed_router (fun _ => 0%Z) in
  run_command _ARP_CMD a = (Raise TypeError, (async_get_arp a).2) \/
  (TypeError = TypeError /\
   exists c, run_command _ARP_CMD a = (Ok (Coroutine c), (async_get_arp a).2)).
Proof.
  intros a.
  apply (proj1 (proj2 (getters_fail_only_as_the_connection a TypeError
                         (async_get_arp a).2))).
  gave.
Defined.

Lemma require_ip_keeps_only_addressed_devices_witness :
  exists i,
    ip {| mac := "AA:BB:CC:DD:EE:00"; ip := Some "192.168.1.10"; name := None |}
    = Some i.
Proof.
  apply (require_ip_keeps_only_addressed_devices strict_home
           (value ∅ (async_get_connected_devices strict_home).1)
           "AA:BB:CC:DD:EE:00");
    [reflexivity | ran | vm_compute; reflexivity].
Defined.

Lemma without_require_ip_keys_are_those_before_leases_witness :
  is_Some (entry_of (async_get_connected_devices at_home).1 "01:02:03:04:05:06")
  <-> is_Some (entry_of (devices_before_leases at_home).1 "01:02:03:04:05:06").
Proof.
  apply (without_require_ip_keys_are_those_before_leases at_home
           (value ∅ (devices_before_leases at_home).1)
           (value ∅ (async_get_connected_devices at_home).1)
           "01:02:03:04:05:06");
    [reflexivity | ran | ran].
Defined.

Lemma lease_entries_come_from_lease_lines_witness :
  let cur : table :=
    {[ "01:02:03:04:05:06" :=
         {| mac := "01:02:03:04:05:06"; ip := None; name := None |} ]} in
  exists lines line e m i h,
    (run_command _LEASES_CMD at_home).1 = Ok (Lines lines) /\
    line ∈ lines /\ startswith "duid " line = false /\
    search _LEASES_REGEX line = Some e /\
    e !! "mac" = Some m /\ e !! "ip" = Some i /\ e !! "host" = Some h /\
    "01:02:03:04:05:06" = upper m /\
    is_Some (cur !! "01:02:03:04:05:06") /\
    {| mac := "01:02:03:04:05:06"; ip := Some "192.168.1.2";
       name := Some "TV" |}
    = {| mac := "01:02:03:04:05:06"; ip := Some i;
         name := Some (if decide (h = "*") then "" else h) |}.
Proof.
  intros cur.
  apply (lease_entries_come_from_lease_lines cur at_home
           (value ∅ (async_get_leases cur at_home).1));
    [ran | vm_compute; reflexivity].
Defined.

Lemma names_come_from_leases_witness :
  let d := {| mac := "01:02:03:04:05:06"; ip := Some "192.168.1.2";
              name := Some "TV" |} in
  (mode at_home = "ap" -> name d = None) /\
  (forall n, name d = Some n ->
     n <> "*" /\
     exists D a3 L,
       devices_before_leases at_home = (Ok D, a3) /\
       (async_get_leases D a3).1 = Ok L /\
       L !! "01:02:03:04:05:06" = Some d).
Proof.
  intros d.
  apply (names_come_from_leases at_home
           (value ∅ (async_get_connected_devices at_home).1));
    [ran | vm_compute; reflexivity].
Defined.

Lemma later_sources_override_witness :
  let a1 := (async_get_wl at_home).2 in
  let a2 := (async_get_arp a1).2 in
  let wl := value ∅ (async_get_wl at_home).1 in
  let arp := value ∅ (async_get_arp a1).1 in
  let cur := update (update ∅ wl) arp in
  let a3 := (async_get_neigh cur a2).2 in
  let neigh := value ∅ (async_get_neigh cur a2).1 in
  let k := "01:02:03:04:05:06" in
  exists L,
    (if String.eqb (mode at_home) "ap" then L = ∅
     else (async_get_leases (update cur neigh) a3).1 = Ok L) /\
    value ∅ (async_get_connected_devices at_home).1 !! k
    = match
        match L !! k with
        | Some d => Some d
        | None =>
            match neigh !! k with
            | Some d => Some d
            | None =>
                match arp !! k with
                | Some d => Some d
                | None => wl !! k
                end
            end
        end
      with
      | Some d => if keep (require_ip at_home) d then Some d else None
      | None => None
      end.
Proof.
  intros a1 a2 wl arp cur a3 neigh k.
  apply (later_sources_override at_home wl a1 arp a2 neigh a3
           (value ∅ (async_get_connected_devices at_home).1) k);
    subst wl arp neigh; [ran_to | ran_to | ran_to | ran].
Defined.

Lemma device_without_address_is_wireless_only_witness :
  let a1 := (async_get_wl wireless_only).2 in
  let a2 := (async_get_arp a1).2 in
  let wl := value ∅ (async_get_wl wireless_only).1 in
  let arp := value ∅ (async_get_arp a1).1 in
  let cur := update (update ∅ wl) arp in
  let neigh := value ∅ (async_get_neigh cur a2).1 in
  let k := "01:02:03:04:05:06" in
  let d := {| mac := k; ip := None; name := None |} in
  wl !! k = Some d /\ arp !! k = None /\ neigh !! k = None /\
  d = {| mac := k; ip := None; name := None |}.
Proof.
  intros a1 a2 wl arp cur neigh k d.
  apply (device_without_address_is_wireless_only wireless_only wl a1 arp a2
           neigh (async_get_neigh cur a2).2
           (value ∅ (async_get_connected_devices wireless_only).1) k d);
    subst wl arp neigh;
    [ran_to | ran_to | ran_to | ran | vm_compute; reflexivity | reflexivity].
Defined.

Lemma ssh_hands_over_the_lines_printed_witness :
  exists ls,
    (SshConnection.async_run_command _WL_CMD false
       (SshConnection.__init__ (router home))).1 = Ok (Lines ls) /\
    ls <> [] /\ unlines ls = "assoclist 01:02:03:04:05:06" /\
    forall printed,
      printed <> [] -> forallb one_line printed = true ->
      "assoclist 01:02:03:04:05:06" = unlines printed -> ls = printed.
Proof.
  apply (ssh_hands_over_the_lines_printed
           (SshConnection.__init__ (router home)) _WL_CMD false
           "assoclist 01:02:03:04:05:06");
    [right; reflexivity | vm_compute; reflexivity].
Defined.

Lemma ssh_never_hands_over_an_empty_list_witness :
  falsy (Lines ["assoclist 01:02:03:04:05:06"]) = false.
Proof.
  apply (proj1 (ssh_never_hands_over_an_empty_list
                  (SshConnection.__init__ (router home)) _WL_CMD)).
  vm_compute. reflexivity.
Defined.

Lemma sessions_and_commands_witness :
  let c := (SshConnection.async_run_command _ARP_CMD false
              (SshConnection.__init__ closed_router)).2 in
  SshConnection.remote c = closed_router /\
  SshConnection._client c = session_of 0 None (SshConnection.trace c) /\
  runs_on_session false (SshConnection.trace c) = true.
Proof.
  intros c. apply (sessions_and_commands closed_router c).
  apply connection_used, connection_made.
Defined.

Lemma commands_of_a_scan_witness :
  commands_sent (connection (async_get_connected_devices at_home).2)
  = [_WL_CMD; _ARP_CMD; _IP_NEIGH_CMD; _LEASES_CMD].
Proof.
  apply (commands_of_a_scan at_home
           (value ∅ (async_get_connected_devices at_home).1)).
  ran.
Defined.


Lemma cached_totals_are_the_totals_read_witness :
  let a1 := (async_get_packets_total true three_readings).2 in
  async_get_packets_total true a1 = (Ok (Some [1000; 2000]%Z), tick a1).
Proof.
  intros a1.
  apply (cached_totals_are_the_totals_read three_readings true
           (Some [1000; 2000]%Z) a1 0%Z);
    [gave | vm_compute; discriminate | vm_compute; reflexivity
    | vm_compute; split; reflexivity | vm_compute; reflexivity].
Defined.

Lemma only_the_first_call_returns_nothing_witness :
  let a1 := (async_get_current_transfer_rates false three_readings).2 in
  (_rx_latest three_readings = None \/ _tx_latest three_readings = None ->
   (None : option (Z * Z)) = None) /\
  (forall use_cache' res',
     (async_get_current_transfer_rates use_cache' a1).1 = Ok res' ->
     is_Some res').
Proof.
  intros a1.
  apply (only_the_first_call_returns_nothing three_readings false None a1).
  gave.
Defined.

Lemma rates_are_not_negative_witness : (0 <= 500)%Z /\ (0 <= 250)%Z.
Proof.
  apply (rates_are_not_negative
           (async_get_current_transfer_rates false three_readings).2
           false 500 250 0);
    vm_compute; reflexivity.
Defined.

Lemma a_call_at_the_same_instant_raises_witness :
  let a := (async_get_current_transfer_rates false same_instant).2 in
  let a1 := (async_get_packets_total false (tick a)).2 in
  exists e,
    async_get_current_transfer_rates false a
      = (Raise e,
         set_tx_latest 2500 (set_rx_latest 2000
           (set_latest_transfer_check (next_reading a) a1))) /\
    (e = ZeroDivisionError \/ e = OverflowError).
Proof.
  intros a a1.
  apply (a_call_at_the_same_instant_raises a false [2000; 2500]%Z a1
           2000 2500 1000 2000)%Z;
    [gave | reflexivity | reflexivity | vm_compute; reflexivity
    | vm_compute; reflexivity | vm_compute; reflexivity | lia].
Defined.

Lemma rates_in_words_witness :
  let first := async_get_current_transfer_rates false three_readings in
  let a1 := first.2 in
  let second := async_get_current_transfer_rates false a1 in
  (async_current_transfer_human_readable in_bytes false three_readings
   = (Raise TypeError, a1) /\
   is_Some (_rx_latest a1) /\ is_Some (_tx_latest a1)) /\
  async_current_transfer_human_readable in_bytes false a1
  = (Ok ("some B/s", "some B/s"), second.2).
Proof.
  intros first a1 second.
  assert ((async_get_current_transfer_rates false three_readings).1 = Ok None)
    as H1 by (vm_compute; reflexivity).
  assert ((async_get_current_transfer_rates false a1).1
          = Ok (Some (500, 250)%Z)) as H2 by (vm_compute; reflexivity).
  split.
  - exact (proj1 (rates_in_words in_bytes three_readings false None H1)
             (or_introl eq_refl)).
  - exact (proj2 (rates_in_words in_bytes a1 false (Some (500, 250)%Z) H2)
             500%Z 250%Z "some B" "some B" eq_refl eq_refl eq_refl).
Defined.

Lemma client_invariants_witness :
  let a := state_after in_bytes (Async_get_rx false) three_readings in
  require_ip a = false /\ mode a = "router" /\
  _cache_time a = CHANGE_TIME_CACHE_DEFAULT /\
  clock a = clock_of [0; 0; 2000000; 2000000; 3000000; 3000000]%Z /\
  (is_Some (_rx_latest a) -> is_Some (_latest_transfer_check a)) /\
  (forall use_cache totals,
     (async_get_packets_total use_cache a).1 = Ok totals -> is_Some totals).
Proof.
  intros a.
  apply (client_invariants in_bytes (connection three_readings) "router" false
           CHANGE_TIME_CACHE_DEFAULT
           (clock_of [0; 0; 2000000; 2000000; 3000000; 3000000]%Z) a).
  apply (client_called in_bytes _ _ (Async_get_rx false)), client_made.
Defined.

Lemma associated_station_is_listed_witness :
  let line := "assoclist 01:02:03:04:05:06" in
  _parse_lines [line] _WL_REGEX = [ {[ "mac" := Some "01:02:03:04:05:06" ]} ] /\
  forall lines t,
    (run_command _WL_CMD at_home).1 = Ok (Lines lines) -> line ∈ lines ->
    (async_get_wl at_home).1 = Ok t ->
    t !! "01:02:03:04:05:06"
    = Some {| mac := "01:02:03:04:05:06"; ip := None; name := None |}.
Proof.
  apply (associated_station_is_listed at_home "assoclist" "01:02:03:04:05:06" "");
    vm_compute; reflexivity.
Defined.

Lemma lease_line_is_read_witness :
  let cur : table :=
    {[ "01:02:03:04:05:06" :=
         {| mac := "01:02:03:04:05:06"; ip := None; name := None |} ]} in
  let line := "51910 01:02:03:04:05:06 192.168.1.2 TV 01:02:03:04:05:06" in
  let device : record :=
    <["mac" := Some "01:02:03:04:05:06"]>
      (<["ip" := Some "192.168.1.2"]> (<["host" := Some "TV"]> ∅)) in
  _parse_lines [line] _LEASES_REGEX = [device] /\
  (forall devices,
     leases_body cur devices device
     = Ok (<["01:02:03:04:05:06" :=
               {| mac := "01:02:03:04:05:06"; ip := Some "192.168.1.2";
                  name := Some "TV" |}]> devices)) /\
  forall lines L,
    (run_command _LEASES_CMD at_home).1 = Ok (Lines lines) -> line ∈ lines ->
    startswith "duid " line = false ->
    (async_get_leases cur at_home).1 = Ok L ->
    is_Some (L !! "01:02:03:04:05:06").
Proof.
  intros cur.
  apply (lease_line_is_read at_home cur "51910" "01:02:03:04:05:06"
           "192" "168" "1" "2" "TV" " 01:02:03:04:05:06");
    try (vm_compute; reflexivity); [discriminate | vm_compute; eauto].
Defined.

Lemma reachable_neighbour_is_listed_witness :
  let line := "192.168.1.10 dev br0 lladdr aa:bb:cc:dd:ee:00 REACHABLE" in
  let device : record :=
    <["ip" := Some "192.168.1.10"]>
      (<["mac" := Some "aa:bb:cc:dd:ee:00"]>
         (<["status" := Some "REACHABLE"]> ∅)) in
  _parse_lines [line] _IP_NEIGH_REGEX = [device] /\
  (forall devices,
     neigh_body ∅ devices device
     = Ok (<["AA:BB:CC:DD:EE:00" :=
               {| mac := "AA:BB:CC:DD:EE:00"; ip := Some "192.168.1.10";
                  name := None |}]> devices)) /\
  forall lines t,
    (run_command _IP_NEIGH_CMD at_home).1 = Ok (Lines lines) -> line ∈ lines ->
    upper "REACHABLE" = "REACHABLE" ->
    (async_get_neigh ∅ at_home).1 = Ok t ->
    is_Some (t !! "AA:BB:CC:DD:EE:00").
Proof.
  apply (reachable_neighbour_is_listed at_home ∅ "192" "168" "1" "10"
           "dev" "br0" "lladdr" "aa:bb:cc:dd:ee:00" "R" "EACHABLE" "");
    try (vm_compute; reflexivity); discriminate.
Defined.

Lemma arp_line_is_read_witness :
  let line := "? (192.168.1.5) at aa:bb:cc:dd:ee:ff [ether]  on br0" in
  let device : record :=
    <["ip" := Some "192.168.1.5"]> (<["mac" := Some "aa:bb:cc:dd:ee:ff"]> ∅) in
  _parse_lines [line] _ARP_REGEX = [device] /\
  (forall devices,
     arp_body devices device
     = Ok (<["AA:BB:CC:DD:EE:FF" :=
               {| mac := "AA:BB:CC:DD:EE:FF"; ip := Some "192.168.1.5";
                  name := None |}]> devices)) /\
  forall lines t,
    (run_command _ARP_CMD at_home).1 = Ok (Lines lines) -> line ∈ lines ->
    (async_get_arp at_home).1 = Ok t ->
    is_Some (t !! "AA:BB:CC:DD:EE:FF").
Proof.
  apply (arp_line_is_read at_home "?" "192" "168" "1" "5" "at"
           "aa:bb:cc:dd:ee:ff" "[ether]  on br0");
    try (vm_compute; reflexivity); discriminate.
Defined.

End Runs2.

(** ** Runs over Telnet *)

Section Runs3.
Import Py Fixtures Fixtures2 Shape TelnetConnection.

Lemma telnet_logs_in_witness :
  async_connect (telnet_session telnet_router)
  = (Returns tt,
     {| _username := Some "admin"; _password := Some "secret";
        _prompt_string := Some telnet_prompt; connected := true;
        opened := 1;
        written := ["admin" +:+ String newline ""; "secret" +:+ String newline ""];
        unread := ""; remote := telnet_router |}).
Proof.
  apply (telnet_logs_in (telnet_session telnet_router) "admin" "secret"
           "RT-AC68U login: " "" "Password: " ""
           (unlines [""; "ASUSWRT RT-AC68U"; telnet_prompt]) "");
    try reflexivity; apply Nat.leb_le; vm_compute; reflexivity.
Defined.

Lemma telnet_hands_over_the_output_witness :
  let user_line := "admin" +:+ String newline "" in
  let pass_line := "secret" +:+ String newline "" in
  let c := {| _username := Some "admin"; _password := Some "secret";
              _prompt_string := Some telnet_prompt; connected := true;
              opened := 1; written := [user_line; pass_line];
              unread := ""; remote := telnet_router |} in
  async_run_command "arp -n" c
  = (Returns [arp_line],
     {| _username := Some "admin"; _password := Some "secret";
        _prompt_string := Some telnet_prompt; connected := true;
        opened := 1;
        written := [user_line; pass_line; "arp -n" +:+ String newline ""];
        unread := ""; remote := telnet_router |}).
Proof.
  intros user_line pass_line c.
  assert (String.length (unlines ("arp -n" :: [arp_line] ++ [telnet_prompt]))
          - String.length telnet_prompt <= limit)%nat as Hlimit.
  { apply Nat.leb_le. vm_compute. reflexivity. }
  exact (telnet_hands_over_the_output c "arp -n" telnet_prompt "arp -n"
           [arp_line] eq_refl eq_refl eq_refl eq_refl eq_refl
           ltac:(discriminate) eq_refl Hlimit eq_refl eq_refl).
Defined.

Lemma telnet_waits_for_a_hash_witness :
  let c := telnet_session dollar_router in
  let user_line := "admin" +:+ String newline "" in
  let pass_line := "secret" +:+ String newline "" in
  async_run_command "arp -n" c
  = (Fails Waits, after_password c user_line pass_line "") /\
  connected (after_password c user_line pass_line "") = false /\
  written (after_password c user_line pass_line "") = [user_line; pass_line].
Proof.
  intros c user_line pass_line.
  apply (telnet_waits_for_a_hash c "arp -n" "admin" "secret"
           "RT-AC68U login: " "" "Password: " "");
    try reflexivity; apply Nat.leb_le; vm_compute; reflexivity.
Defined.

Lemma telnet_prompt_is_kept_witness :
  let c := (async_run_command "arp -n" (telnet_session telnet_router)).2 in
  (connected c = true -> prompt_like (_prompt_string c)) /\
  forall command,
    (async_run_command command c).1 <> Fails ValueError /\
    ((async_run_command command c).1 = Fails TypeError ->
     Some "admin" = None \/ Some "secret" = None).
Proof.
  intros c.
  apply (telnet_prompt_is_kept (Some "admin") (Some "secret") telnet_router c).
  apply session_used, session_made.
Defined.

End Runs3.
